(** * dpctl tensor kernels: multiply dispatch, boolean reductions, array flags

    A shallow embedding of

    - [kernels/elementwise_functions/multiply.hpp]: the type-promotion table
      [MultiplyOutputType], the kernel factories and the matrix-row
      broadcast launcher;
    - [kernels/boolean_reductions.hpp]: the sequential, contiguous and
      strided kernels behind [dpctl.tensor.any] and [dpctl.tensor.all] and
      their two launchers;
    - [dpctl/tensor/_flags.pyx]: the [Flags] accessor class.

    [size_t] values are modelled in [N] with the 64-bit wrap-around written
    out, [py::ssize_t] offsets and [int32] values in [Z], Python integers in
    [Z].  Device memory is a function from element offsets to values. *)

From Stdlib Require Import String NArith ZArith List Bool Lia Permutation.
Import ListNotations.

Set Implicit Arguments.

(* ------------------------------------------------------------------------- *)
(** ** Element types and the compile-time type map *)

Module TypeDispatch.

(** The element types the dispatch tables are instantiated for. *)
Inductive ElementType : Type :=
| Bool | UInt8 | Int8 | UInt16 | Int16 | UInt32 | Int32 | UInt64 | Int64
| Half | Float | Double | CFloat | CDouble.

(** [void] is [None]. *)
Definition ResultType := option ElementType.

Definition all_types : list ElementType :=
  [Bool; UInt8; Int8; UInt16; Int16; UInt32; Int32; UInt64; Int64;
   Half; Float; Double; CFloat; CDouble].

(** [std::is_same_v] on element types. *)
Definition is_same (a b : ElementType) : bool :=
  match a, b with
  | Bool, Bool | UInt8, UInt8 | Int8, Int8 | UInt16, UInt16
  | Int16, Int16 | UInt32, UInt32 | Int32, Int32 | UInt64, UInt64
  | Int64, Int64 | Half, Half | Float, Float | Double, Double
  | CFloat, CFloat | CDouble, CDouble => true
  | _, _ => false
  end.

(** [type_utils::is_complex]. *)
Definition is_complex (t : ElementType) : bool :=
  match t with CFloat | CDouble => true | _ => false end.

(** A class with a static [value] and a member [result_type]. *)
Record ResultEntry : Type :=
  { value : bool; result_type : ResultType }.

(** Modelled from the spec: [td_ns::BinaryTypeMapResultEntry], declared in
    utils/type_dispatch.hpp.  An entry is an exact pair of types: it
    matches when the first argument is [ArgTy1] and the second is
    [ArgTy2], and then gives [ResTy]. *)
Definition BinaryTypeMapResultEntry
           (Ty1 ArgTy1 Ty2 ArgTy2 ResTy : ElementType) : ResultEntry :=
  {| value := is_same Ty1 ArgTy1 && is_same Ty2 ArgTy2;
     result_type := Some ResTy |}.

(** Modelled from the spec: [td_ns::DefaultResultEntry], declared in
    utils/type_dispatch.hpp: the fallback that always matches. *)
Definition DefaultResultEntry (Ty : ResultType) : ResultEntry :=
  {| value := true; result_type := Ty |}.

(** [std::disjunction<B1, ..., Bn>]: the first [Bi] whose [value] is true,
    and the last one, [Bn], when there is none. *)
Fixpoint disjunction (bs : list ResultEntry) (bn : ResultEntry)
  : ResultEntry :=
  match bs with
  | [] => bn
  | b :: bs' => if value b then b else disjunction bs' bn
  end.

End TypeDispatch.

(* ------------------------------------------------------------------------- *)
(** ** multiply.hpp: output type and factories *)

Module Multiply.
Import TypeDispatch.

(** The entries of [MultiplyOutputType<T1, T2>] before the default one, in
    the order of the source. *)
Definition MultiplyOutputType_entries (T1 T2 : ElementType)
  : list ResultEntry :=
  [ BinaryTypeMapResultEntry T1 Bool T2 Bool Bool;
    BinaryTypeMapResultEntry T1 UInt8 T2 UInt8 UInt8;
    BinaryTypeMapResultEntry T1 Int8 T2 Int8 Int8;
    BinaryTypeMapResultEntry T1 UInt16 T2 UInt16 UInt16;
    BinaryTypeMapResultEntry T1 Int16 T2 Int16 Int16;
    BinaryTypeMapResultEntry T1 UInt32 T2 UInt32 UInt32;
    BinaryTypeMapResultEntry T1 Int32 T2 Int32 Int32;
    BinaryTypeMapResultEntry T1 UInt64 T2 UInt64 UInt64;
    BinaryTypeMapResultEntry T1 Int64 T2 Int64 Int64;
    BinaryTypeMapResultEntry T1 Half T2 Half Half;
    BinaryTypeMapResultEntry T1 Float T2 Float Float;
    BinaryTypeMapResultEntry T1 Double T2 Double Double;
    BinaryTypeMapResultEntry T1 CFloat T2 CFloat CFloat;
    BinaryTypeMapResultEntry T1 CDouble T2 CDouble CDouble ].

(** [MultiplyOutputType<T1, T2>::value_type]. *)
Definition MultiplyOutputType (T1 T2 : ElementType) : ResultType :=
  result_type
    (disjunction (MultiplyOutputType_entries T1 T2) (DefaultResultEntry None)).

(** The lookup as the specification words it: an ordered table of
    (left, right, result) rows, scanned from the top; the first row whose
    left and right types are the arguments gives the result, and no row
    gives Unsupported. *)
Definition PromotionEntry : Type :=
  (ElementType * ElementType * ElementType)%type.

Fixpoint resolve_in (table : list PromotionEntry) (T1 T2 : ElementType)
  : ResultType :=
  match table with
  | [] => None
  | (L, R, Res) :: rest =>
      if is_same T1 L && is_same T2 R then Some Res
      else resolve_in rest T1 T2
  end.

Definition multiply_table : list PromotionEntry :=
  map (fun T => (T, T, T)) all_types.

Definition resolve : ElementType -> ElementType -> ResultType :=
  resolve_in multiply_table.

(** What a factory's [get()] returns: a null pointer or the address of one
    instantiation of a launcher template. *)
Inductive fnT : Type :=
| nullptr
| fn_multiply_contig_impl (argTy1 argTy2 : ElementType)
| fn_multiply_strided_impl (argTy1 argTy2 : ElementType)
| fn_multiply_contig_matrix_contig_row_broadcast_impl
    (argT1 argT2 resT : ElementType)
| fn_multiply_contig_row_contig_matrix_broadcast_impl
    (argT1 argT2 resT : ElementType).

Definition MultiplyContigFactory_get (T1 T2 : ElementType) : fnT :=
  match MultiplyOutputType T1 T2 with
  | None => nullptr
  | Some _ => fn_multiply_contig_impl T1 T2
  end.

Definition MultiplyStridedFactory_get (T1 T2 : ElementType) : fnT :=
  match MultiplyOutputType T1 T2 with
  | None => nullptr
  | Some _ => fn_multiply_strided_impl T1 T2
  end.

Definition MultiplyContigMatrixContigRowBroadcastFactory_get
           (T1 T2 : ElementType) : fnT :=
  match MultiplyOutputType T1 T2 with
  | None => nullptr
  | Some resT =>
      if is_complex T1 || is_complex T2 || is_complex resT then nullptr
      else fn_multiply_contig_matrix_contig_row_broadcast_impl T1 T2 resT
  end.

Definition MultiplyContigRowContigMatrixBroadcastFactory_get
           (T1 T2 : ElementType) : fnT :=
  match MultiplyOutputType T1 T2 with
  | None => nullptr
  | Some resT =>
      if is_complex T1 || is_complex T2 || is_complex resT then nullptr
      else fn_multiply_contig_row_contig_matrix_broadcast_impl T1 T2 resT
  end.

(** Whether a result type is a complex element type; [void] is not. *)
Definition result_is_complex (r : ResultType) : bool :=
  match r with Some t => is_complex t | None => false end.

End Multiply.


(* ------------------------------------------------------------------------- *)
(** ** The parts of the SYCL runtime the launchers use *)

Module Sycl.

(** *** [size_t] arithmetic *)

Definition size_t_modulus : N := 2 ^ 64.

Definition size_wrap (x : N) : N := x mod size_t_modulus.

Definition size_add (a b : N) : N := size_wrap (a + b).

(** [a - b] on two values below the modulus. *)
Definition size_sub (a b : N) : N := size_wrap (a + size_t_modulus - b).

Definition size_mul (a b : N) : N := size_wrap (a * b).

(** The indices [0, 1, ..., n - 1] of a loop [for (i = 0; i < n; ++i)] or of
    a [sycl::range<1>(n)]. *)
Definition iota (n : N) : list N := map N.of_nat (seq 0 (N.to_nat n)).

(** The indices [first, ..., last - 1]; empty when [last <= first]. *)
Definition index_range (first last : N) : list N :=
  map (fun i => first + i)%N (iota (last - first)).

(** *** Devices, events and queues *)

Record device : Type := { sub_group_sizes : list N }.

(** [*std::max_element(begin, end)]: there is no element to dereference in
    an empty range. *)
Definition max_element (l : list N) : option N :=
  match l with
  | [] => None
  | x :: rest => Some (fold_left N.max rest x)
  end.

(** An event is the position of its command group in the queue. *)
Definition event : Type := nat.

Section Queue.

(** The kind of work a command group can hold. *)
Variable work : Type.

Record command_group : Type :=
  { depends_on : list event; cg_work : work }.

Record queue : Type :=
  { get_device : device; submitted : list command_group }.

(** [exec_q.submit(...)]: the command group is appended and its event
    returned. *)
Definition submit (q : queue) (deps : list event) (w : work)
  : queue * event :=
  ({| get_device := get_device q;
      submitted := submitted q ++ [{| depends_on := deps; cg_work := w |}] |},
   length (submitted q)).

(** The position of the first occurrence of [e] in [order]. *)
Fixpoint position (e : event) (order : list event) : option nat :=
  match order with
  | [] => None
  | x :: rest =>
      if Nat.eqb x e then Some 0%nat
      else option_map S (position e rest)
  end.

(** [d] completes before [e] starts in [order]. *)
Definition runs_before (order : list event) (d e : event) : Prop :=
  exists i j, position d order = Some i /\ position e order = Some j
              /\ (i < j)%nat.

(** An execution order the runtime may choose for the command groups that
    have not completed yet, the first [completed] ones having completed:
    each runs once, and only after every command group it depends on. *)
Definition valid_order (q : queue) (completed : nat) (order : list event)
  : Prop :=
  Permutation order (seq completed (length (submitted q) - completed)) /\
  forall e cg, In e order ->
               nth_error (submitted q) e = Some cg ->
               forall d, In d (depends_on cg) -> (completed <= d)%nat ->
                         runs_before order d e.

End Queue.

(** What a call of a launcher can end in. *)
Inductive outcome (A : Type) : Type :=
| Returned (a : A)
| Thrown (what : string)
| Undefined.

Arguments Returned {A} a.
Arguments Thrown {A} what.
Arguments Undefined {A}.

(** *** Device memory *)

(** A typed device pointer: an allocation and an element offset in it. *)
Record pointer : Type := { block : N; offset : Z }.

Definition ptr_add (p : pointer) (i : Z) : pointer :=
  {| block := block p; offset := offset p + i |}.

Definition pointer_eqb (p q : pointer) : bool :=
  (block p =? block q)%N && (offset p =? offset q)%Z.

Section Memory.
Variable T : Type.

Definition memory : Type := pointer -> T.

Definition load (m : memory) (p : pointer) : T := m p.

Definition store (m : memory) (p : pointer) (v : T) : memory :=
  fun q => if pointer_eqb q p then v else m q.

(** [parallel_for(range, body)] with the work-items run in [order]. *)
Definition parallel_for (order : list N) (body : N -> memory -> memory)
           (m : memory) : memory :=
  fold_left (fun m' id => body id m') order m.

End Memory.

(** The live USM allocations of a context, with their element counts. *)
Definition usm_heap : Type := list (pointer * N).

End Sycl.

(* ------------------------------------------------------------------------- *)
(** ** multiply.hpp: the matrix-row broadcast launcher *)

Module MultiplyBroadcast.
Import Sycl.

(** The three command groups the launcher submits.  The compute kernel's
    functor is defined in kernels/elementwise_functions/common.hpp; here it
    is only its launch: ranges and constructor arguments. *)
Inductive multiply_work : Type :=
| make_padded_vec_krn (range : N) (padded_vec vec : pointer) (n1 : N)
| multiply_matrix_row_broadcast_sg_krn
    (gwsRange lwsRange : N) (mat padded_vec res : pointer) (n_elems n1 : N)
| host_task_free (padded_vec : pointer).

(** The caller's view of the call: the queue, the list the cleanup events
    are pushed to, and the context's allocations. *)
Record state : Type :=
  { exec_q : queue multiply_work; host_tasks : list event; heap : usm_heap }.

Section Launcher.

(** The element type of the row. *)
Variable argT2 : Type.

(** [sycl::malloc_device<argT2>(count, exec_q)]: the runtime's answer for a
    request of [count] elements, [None] for a null pointer. *)
Variable malloc_device : N -> usm_heap -> option pointer.

(** The body of the fill kernel: [padded_vec[i] = vec[i % n1]].  ([i % 0]
    is not defined in the source; [N.modulo] gives [i].) *)
Definition make_padded_vec_body (padded_vec vec : pointer) (n1 : N)
           (i : N) (m : memory argT2) : memory argT2 :=
  store m (ptr_add padded_vec (Z.of_N i))
        (load m (ptr_add vec (Z.of_N (i mod n1)))).

(** [m'] is the memory after the fill kernel [w] has run, its work-items in
    some order. *)
Definition make_padded_vec_result (w : multiply_work)
           (m m' : memory argT2) : Prop :=
  match w with
  | make_padded_vec_krn range padded_vec vec n1 =>
      exists order,
        Permutation order (iota range) /\
        m' = parallel_for order (make_padded_vec_body padded_vec vec n1) m
  | _ => False
  end.


Definition multiply_contig_matrix_contig_row_broadcast_impl
           (st : state) (n0 n1 : N)
           (mat_p : pointer) (mat_offset : Z)
           (vec_p : pointer) (vec_offset : Z)
           (res_p : pointer) (res_offset : Z)
           (depends : list event) : state * outcome event :=
  let mat := ptr_add mat_p mat_offset in
  let vec := ptr_add vec_p vec_offset in
  let res := ptr_add res_p res_offset in
  let dev := get_device (exec_q st) in
  let sg_sizes := sub_group_sizes dev in
  match max_element sg_sizes with
  | None => (st, Undefined)
  | Some max_sgSize =>
      let n1_padded := size_add n1 max_sgSize in
      match malloc_device n1_padded (heap st) with
      | None => (st, Thrown "Could not allocate memory on the device")
      | Some padded_vec =>
          let heap1 := (padded_vec, n1_padded) :: heap st in
          let (q1, make_padded_vec_ev) :=
            submit (exec_q st) depends
                   (make_padded_vec_krn n1_padded padded_vec vec n1) in
          let lws := 64%N in
          let n_elems := size_mul n0 n1 in
          let n_groups := (size_sub (size_add n_elems lws) 1 / lws)%N in
          let (q2, comp_ev) :=
            submit q1 [make_padded_vec_ev]
                   (multiply_matrix_row_broadcast_sg_krn
                      (size_mul n_groups lws) lws mat padded_vec res
                      n_elems n1) in
          let (q3, tmp_cleanup_ev) :=
            submit q2 [comp_ev] (host_task_free padded_vec) in
          ({| exec_q := q3;
              host_tasks := host_tasks st ++ [tmp_cleanup_ev];
              heap := heap1 |},
           Returned comp_ev)
      end
  end.

Definition multiply_contig_row_contig_matrix_broadcast_impl
           (st : state) (n0 n1 : N)
           (vec_p : pointer) (vec_offset : Z)
           (mat_p : pointer) (mat_offset : Z)
           (res_p : pointer) (res_offset : Z)
           (depends : list event) : state * outcome event :=
  multiply_contig_matrix_contig_row_broadcast_impl
    st n0 n1 mat_p mat_offset vec_p vec_offset res_p res_offset depends.

End Launcher.

End MultiplyBroadcast.

(* ------------------------------------------------------------------------- *)
(** ** boolean_reductions.hpp *)

Module BooleanReductions.
Import Sycl.

(** [static_cast<std::int32_t>(b)]. *)
Definition bool_to_int32 (b : bool) : Z := if b then 1%Z else 0%Z.

(** The conversion of an [int32] operand of [&&] or [||]. *)
Definition int32_to_bool (x : Z) : bool := negb (x =? 0)%Z.

(** [static_cast<py::ssize_t>(n)] of a [size_t]. *)
Definition size_to_ssize (n : N) : Z :=
  if (n <? 2 ^ 63)%N then Z.of_N n
  else (Z.of_N n - Z.of_N size_t_modulus)%Z.

(** [sycl::logical_and<std::int32_t>] and [sycl::logical_or<std::int32_t>]. *)
Inductive ReductionOp : Type := logical_and | logical_or.

Definition reduction_op_call (op : ReductionOp) (x y : Z) : Z :=
  match op with
  | logical_and => bool_to_int32 (int32_to_bool x && int32_to_bool y)
  | logical_or => bool_to_int32 (int32_to_bool x || int32_to_bool y)
  end.

(** [sycl::known_identity<RedOpT, std::int32_t>::value]. *)
Definition known_identity (op : ReductionOp) : Z :=
  match op with
  | logical_and => 1%Z
  | logical_or => 0%Z
  end.

Inductive contig_group_op : Type :=
| all_reduce_wg_contig | any_reduce_wg_contig.

Inductive strided_group_op : Type :=
| all_reduce_wg_strided | any_reduce_wg_strided.

(** *** Indexers *)

(** Modelled from the spec: [offset_utils::NoOpIndexer], the identity. *)
Definition NoOpIndexer (gid : N) : Z := Z.of_N gid.

(** Modelled from the spec: [offset_utils::Strided1DIndexer], flat strided
    1-D; [size] is the number of valid indices. *)
Definition Strided1DIndexer (offset size step : Z) (gid : N) : Z :=
  (offset + Z.of_N gid * step)%Z.

(** Modelled from the spec: [offset_utils::TwoOffsets_CombinedIndexer], a
    pair of indexers applied to one index. *)
Definition TwoOffsets_CombinedIndexer (first second : N -> Z) (gid : N)
  : Z * Z :=
  (first gid, second gid).

(** *** Kernel function objects *)

Record SequentialBooleanReduction : Type :=
  { seq_inp_ : pointer;
    seq_out_ : pointer;
    seq_reduction_op_ : ReductionOp;
    seq_identity_ : Z;
    seq_inp_out_iter_indexer_ : N -> Z * Z;
    seq_inp_reduced_dims_indexer_ : N -> Z;
    seq_reduction_max_gid_ : N }.

Record ContigBooleanReduction : Type :=
  { contig_inp_ : pointer;
    contig_out_ : pointer;
    contig_reduction_op_ : ReductionOp;
    contig_group_op_ : contig_group_op;
    contig_reduction_max_gid_ : N;
    contig_reductions_per_wi : N }.

Record StridedBooleanReduction : Type :=
  { strided_inp_ : pointer;
    strided_out_ : pointer;
    strided_reduction_op_ : ReductionOp;
    strided_group_op_ : strided_group_op;
    strided_identity_ : Z;
    strided_inp_out_iter_indexer_ : N -> Z * Z;
    strided_inp_reduced_dims_indexer_ : N -> Z;
    strided_reduction_max_gid_ : N;
    strided_reductions_per_wi : N }.

(** The part of a [sycl::nd_item<2>] the kernels read. *)
Record nd_item : Type :=
  { get_group_0 : N;
    get_group_1 : N;
    get_local_id_1 : N;
    get_local_range_1 : N }.

(** The command groups the two launchers submit. *)
Inductive reduction_work : Type :=
| boolean_reduction_seq_krn (range : N) (k : SequentialBooleanReduction)
| init_krn (range : N) (res_tp : pointer) (res_indexer : N -> Z)
           (identity_val : Z)
| boolean_reduction_contig_krn (gws0 gws1 lws0 lws1 : N)
                               (k : ContigBooleanReduction)
| boolean_reduction_strided_krn (gws0 gws1 lws0 lws1 : N)
                                (k : StridedBooleanReduction).

(** Where the leader of a work-group is in its atomic update. *)
Inductive leader_pc : Type :=
| at_load
| at_compare_exchange (read_val : Z)
| finished.

(** The state of a running reduction kernel: the output memory and the
    leaders of the work-groups, by group id. *)
Record nd_state : Type :=
  { nd_mem : memory Z; nd_pc : N * N -> leader_pc }.

Definition group_eqb (g h : N * N) : bool :=
  (fst g =? fst h)%N && (snd g =? snd h)%N.

(** The work-groups of [sycl::nd_range<2>(gws, lws)]. *)
Definition nd_groups (gws0 gws1 lws0 lws1 : N) : list (N * N) :=
  list_prod (iota (gws0 / lws0)) (iota (gws1 / lws1)).

Section Kernels.

(** The input element type, [type_utils::convert_impl<bool, argT>] and the
    implicit conversion of an [int32] to an [argT]. *)
Variable argT : Type.
Variable convert_impl_bool : argT -> bool.
Variable argT_of_int32 : Z -> argT.

(** Modelled from the spec: [CIndexer_vector::get_displacement] of
    utils/strided_iters.hpp is taken as given: the displacement of flat
    index [gid] in an array of [nd] axes with the given shape and strides. *)
Variable get_displacement : nat -> list Z -> list Z -> Z -> Z.

(** Modelled from the spec: [offset_utils::StridedIndexer]; the packed
    array holds the shape, then the strides. *)
Definition StridedIndexer (nd : nat) (offset : Z)
           (packed_shape_strides : list Z) (gid : N) : Z :=
  (offset + get_displacement nd packed_shape_strides
                             (skipn nd packed_shape_strides) (Z.of_N gid))%Z.

(** Modelled from the spec: [offset_utils::UnpackedStridedIndexer]. *)
Definition UnpackedStridedIndexer (nd : nat) (offset : Z)
           (shape strides : list Z) (gid : N) : Z :=
  (offset + get_displacement nd shape strides (Z.of_N gid))%Z.

(** Modelled from the spec: [offset_utils::TwoOffsets_StridedIndexer]; the
    packed array holds the shape, the strides of the first array, then the
    strides of the second. *)
Definition TwoOffsets_StridedIndexer (nd : nat) (first_offset second_offset : Z)
           (packed_shape_strides : list Z) (gid : N) : Z * Z :=
  ((first_offset + get_displacement nd packed_shape_strides
                     (skipn nd packed_shape_strides) (Z.of_N gid))%Z,
   (second_offset + get_displacement nd packed_shape_strides
                      (skipn (2 * nd) packed_shape_strides) (Z.of_N gid))%Z).

(** [boolean_predicate<argT>] called on an [int32]. *)
Definition boolean_predicate_int32 (v : Z) : bool :=
  convert_impl_bool (argT_of_int32 v).

(** [sycl::joint_all_of] / [sycl::joint_any_of] over the elements at
    [inp + start, ..., inp + end - 1], cast to [int32]. *)
Definition contig_group_op_call (g : contig_group_op) (mi : memory argT)
           (inp : pointer) (start end_ : N) : Z :=
  let elems :=
    map (fun i => load mi (ptr_add inp (Z.of_N i))) (index_range start end_) in
  match g with
  | all_reduce_wg_contig => bool_to_int32 (forallb convert_impl_bool elems)
  | any_reduce_wg_contig => bool_to_int32 (existsb convert_impl_bool elems)
  end.

(** [sycl::all_of_group] / [sycl::any_of_group] over the [local_val] of each
    work-item of the group, cast to [int32]. *)
Definition strided_group_op_call (g : strided_group_op) (local_vals : list Z)
  : Z :=
  match g with
  | all_reduce_wg_strided =>
      bool_to_int32 (forallb boolean_predicate_int32 local_vals)
  | any_reduce_wg_strided =>
      bool_to_int32 (existsb boolean_predicate_int32 local_vals)
  end.

(** [SequentialBooleanReduction::operator()]. *)
Definition SequentialBooleanReduction_call
           (k : SequentialBooleanReduction) (mi : memory argT)
           (id : N) (mo : memory Z) : memory Z :=
  let inp_out_iter_offsets_ := seq_inp_out_iter_indexer_ k id in
  let inp_iter_offset := fst inp_out_iter_offsets_ in
  let out_iter_offset := snd inp_out_iter_offsets_ in
  let red_val :=
    fold_left
      (fun red_val m =>
         let inp_reduction_offset := seq_inp_reduced_dims_indexer_ k m in
         let inp_offset := (inp_iter_offset + inp_reduction_offset)%Z in
         let val :=
           bool_to_int32
             (convert_impl_bool (load mi (ptr_add (seq_inp_ k) inp_offset))) in
         reduction_op_call (seq_reduction_op_ k) red_val val)
      (iota (seq_reduction_max_gid_ k))
      (seq_identity_ k) in
  store mo (ptr_add (seq_out_ k) out_iter_offset) red_val.

(** [ContigBooleanReduction::operator()] up to the group operation: the
    bounds of the work-group's range. *)
Definition ContigBooleanReduction_start (k : ContigBooleanReduction)
           (it : nd_item) : N :=
  let reduction_id := get_group_0 it in
  let reduction_batch_id := get_group_1 it in
  let wg_size := get_local_range_1 it in
  let base := size_mul reduction_id (contig_reduction_max_gid_ k) in
  size_add base
           (size_mul (size_mul reduction_batch_id wg_size)
                     (contig_reductions_per_wi k)).

Definition ContigBooleanReduction_end (k : ContigBooleanReduction)
           (it : nd_item) : N :=
  let reduction_id := get_group_0 it in
  let wg_size := get_local_range_1 it in
  let base := size_mul reduction_id (contig_reduction_max_gid_ k) in
  let start := ContigBooleanReduction_start k it in
  N.min (size_add start (size_mul (contig_reductions_per_wi k) wg_size))
        (size_add base (contig_reduction_max_gid_ k)).

(** The offsets from [inp_] of the elements the group operation is given. *)
Definition ContigBooleanReduction_reads (k : ContigBooleanReduction)
           (it : nd_item) : list N :=
  index_range (ContigBooleanReduction_start k it)
              (ContigBooleanReduction_end k it).

Definition ContigBooleanReduction_red_val_over_wg
           (k : ContigBooleanReduction) (mi : memory argT) (it : nd_item)
  : Z :=
  contig_group_op_call (contig_group_op_ k) mi (contig_inp_ k)
                       (ContigBooleanReduction_start k it)
                       (ContigBooleanReduction_end k it).

(** The slot the leader of the group updates: [out_[reduction_id]]. *)
Definition ContigBooleanReduction_res_ref (k : ContigBooleanReduction)
           (it : nd_item) : pointer :=
  ptr_add (contig_out_ k) (Z.of_N (get_group_0 it)).

(** [StridedBooleanReduction::operator()] up to the group operation: the
    work-item's [local_red_val], with the reduction indices it read. *)
Definition StridedBooleanReduction_local
           (k : StridedBooleanReduction) (mi : memory argT) (it : nd_item)
  : Z * list N :=
  let reduction_id := get_group_0 it in
  let reduction_batch_id := get_group_1 it in
  let reduction_lid := get_local_id_1 it in
  let wg_size := get_local_range_1 it in
  let inp_out_iter_offsets_ := strided_inp_out_iter_indexer_ k reduction_id in
  let inp_iter_offset := fst inp_out_iter_offsets_ in
  let arg_reduce_gid0 :=
    size_add reduction_lid
             (size_mul (size_mul reduction_batch_id wg_size)
                       (strided_reductions_per_wi k)) in
  fold_left
    (fun (acc : Z * list N) m =>
       let (local_red_val, reads) := acc in
       let arg_reduce_gid := size_add arg_reduce_gid0 (size_mul m wg_size) in
       if (arg_reduce_gid <? strided_reduction_max_gid_ k)%N then
         let inp_reduction_offset :=
           strided_inp_reduced_dims_indexer_ k arg_reduce_gid in
         let inp_offset := (inp_iter_offset + inp_reduction_offset)%Z in
         let val :=
           bool_to_int32
             (convert_impl_bool
                (load mi (ptr_add (strided_inp_ k) inp_offset))) in
         (reduction_op_call (strided_reduction_op_ k) local_red_val val,
          reads ++ [arg_reduce_gid])
       else acc)
    (iota (strided_reductions_per_wi k))
    (strided_identity_ k, []).

(** The work-item of a group with the given local id. *)
Definition item_of (g : N * N) (lid wg_size : N) : nd_item :=
  {| get_group_0 := fst g; get_group_1 := snd g;
     get_local_id_1 := lid; get_local_range_1 := wg_size |}.

Definition StridedBooleanReduction_red_val_over_wg
           (k : StridedBooleanReduction) (mi : memory argT)
           (g : N * N) (wg_size : N) : Z :=
  strided_group_op_call
    (strided_group_op_ k)
    (map (fun lid => fst (StridedBooleanReduction_local
                            k mi (item_of g lid wg_size)))
         (iota wg_size)).

(** The slot the leader of the group updates: [out_[out_iter_offset]]. *)
Definition StridedBooleanReduction_res_ref (k : StridedBooleanReduction)
           (g : N * N) : pointer :=
  ptr_add (strided_out_ k) (snd (strided_inp_out_iter_indexer_ k (fst g))).

(** One step of the leader's
    [read_val = load(); do new_val = op(read_val, red_val_over_wg);
     while (!compare_exchange_strong(read_val, new_val));]. *)
Definition atomic_combine_step (op : ReductionOp) (res_ref : pointer)
           (red_val_over_wg : Z) (pc : leader_pc) (mo : memory Z)
  : leader_pc * memory Z :=
  match pc with
  | at_load => (at_compare_exchange (load mo res_ref), mo)
  | at_compare_exchange read_val =>
      let new_val := reduction_op_call op read_val red_val_over_wg in
      if (load mo res_ref =? read_val)%Z
      then (finished, store mo res_ref new_val)
      else (at_compare_exchange (load mo res_ref), mo)
  | finished => (finished, mo)
  end.

Section NdRange.

(** What the groups of one kernel launch update, and with which value. *)
Variable op : ReductionOp.
Variable res_ref : N * N -> pointer.
Variable red_val_over_wg : N * N -> Z.

Definition nd_step (st : nd_state) (g : N * N) : nd_state :=
  let (pc', m') :=
    atomic_combine_step op (res_ref g) (red_val_over_wg g)
                        (nd_pc st g) (nd_mem st) in
  {| nd_mem := m';
     nd_pc := fun h => if group_eqb h g then pc' else nd_pc st h |}.

(** The kernel run under an interleaving of the leaders' steps. *)
Definition nd_run (schedule : list (N * N)) (st : nd_state) : nd_state :=
  fold_left nd_step schedule st.

(** The groups that update the location [p], among [groups]. *)
Definition updates_of (p : pointer) (groups : list (N * N))
  : list (N * N) :=
  filter (fun g => pointer_eqb (res_ref g) p) groups.

Definition nd_start (m : memory Z) : nd_state :=
  {| nd_mem := m; nd_pc := fun _ => at_load |}.

(** [m'] is the output memory when the kernel has completed, under some
    interleaving of the steps of its groups. *)
Definition nd_range_result (groups : list (N * N)) (m m' : memory Z) : Prop :=
  exists schedule,
    (forall g, In g schedule -> In g groups) /\
    (forall g, In g groups ->
               nd_pc (nd_run schedule (nd_start m)) g = finished) /\
    m' = nd_mem (nd_run schedule (nd_start m)).

End NdRange.

(** *** The launchers *)

(** [reductions_per_wi] of both launchers.  (The division is only reached
    with [reduction_nelems < 4 * wg], so [wg] is not zero there.) *)
Definition reductions_per_wi_of (reduction_nelems wg : N) : N :=
  let preferred_reductions_per_wi := 4%N in
  if (reduction_nelems <? size_mul preferred_reductions_per_wi wg)%N
  then (size_sub (size_add reduction_nelems wg) 1 / wg)%N
  else preferred_reductions_per_wi.

(** [reduction_groups] of both launchers; there is none when the divisor
    is zero. *)
Definition reduction_groups_of (reduction_nelems reductions_per_wi wg : N)
  : option N :=
  if (size_mul reductions_per_wi wg =? 0)%N then None
  else Some (size_sub (size_add reduction_nelems
                                (size_mul reductions_per_wi wg)) 1
             / size_mul reductions_per_wi wg)%N.

Definition boolean_reduction_contig_impl
           (RedOpT : ReductionOp) (GroupOpT : contig_group_op)
           (exec_q : queue reduction_work) (iter_nelems reduction_nelems : N)
           (arg_cp res_cp : pointer)
           (iter_arg_offset iter_res_offset red_arg_offset : Z)
           (depends : list event) : queue reduction_work * outcome event :=
  let arg_tp := ptr_add (ptr_add arg_cp iter_arg_offset) red_arg_offset in
  let res_tp := ptr_add res_cp iter_res_offset in
  let identity_val := known_identity RedOpT in
  let d := get_device exec_q in
  let sg_sizes := sub_group_sizes d in
  match max_element sg_sizes with
  | None => (exec_q, Undefined)
  | Some max_sg =>
      let wg := size_mul 4 max_sg in
      if (reduction_nelems <? wg)%N then
        let in_out_iter_indexer :=
          TwoOffsets_CombinedIndexer
            (Strided1DIndexer 0 (size_to_ssize iter_nelems)
                              (size_to_ssize reduction_nelems))
            NoOpIndexer in
        let reduction_indexer := NoOpIndexer in
        let (q1, red_ev) :=
          submit exec_q depends
                 (boolean_reduction_seq_krn
                    iter_nelems
                    {| seq_inp_ := arg_tp;
                       seq_out_ := res_tp;
                       seq_reduction_op_ := RedOpT;
                       seq_identity_ := identity_val;
                       seq_inp_out_iter_indexer_ := in_out_iter_indexer;
                       seq_inp_reduced_dims_indexer_ := reduction_indexer;
                       seq_reduction_max_gid_ := reduction_nelems |}) in
        (q1, Returned red_ev)
      else
        let res_indexer := NoOpIndexer in
        let (q1, init_ev) :=
          submit exec_q depends
                 (init_krn iter_nelems res_tp res_indexer identity_val) in
        let reductions_per_wi := reductions_per_wi_of reduction_nelems wg in
        match reduction_groups_of reduction_nelems reductions_per_wi wg with
        | None => (q1, Undefined)
        | Some reduction_groups =>
            let (q2, red_ev) :=
              submit q1 [init_ev]
                     (boolean_reduction_contig_krn
                        iter_nelems (size_mul reduction_groups wg) 1 wg
                        {| contig_inp_ := arg_tp;
                           contig_out_ := res_tp;
                           contig_reduction_op_ := RedOpT;
                           contig_group_op_ := GroupOpT;
                           contig_reduction_max_gid_ := reduction_nelems;
                           contig_reductions_per_wi := reductions_per_wi |}) in
            (q2, Returned red_ev)
        end
  end.

Definition boolean_reduction_strided_impl
           (RedOpT : ReductionOp) (GroupOpT : strided_group_op)
           (exec_q : queue reduction_work) (iter_nelems reduction_nelems : N)
           (arg_cp res_cp : pointer)
           (iter_nd : nat) (iter_shape_and_strides : list Z)
           (iter_arg_offset iter_res_offset : Z)
           (red_nd : nat) (reduction_shape_stride : list Z)
           (reduction_arg_offset : Z)
           (depends : list event) : queue reduction_work * outcome event :=
  let arg_tp := arg_cp in
  let res_tp := res_cp in
  let identity_val := known_identity RedOpT in
  let d := get_device exec_q in
  let sg_sizes := sub_group_sizes d in
  match max_element sg_sizes with
  | None => (exec_q, Undefined)
  | Some max_sg =>
      let wg := size_mul 4 max_sg in
      if (reduction_nelems <? wg)%N then
        let in_out_iter_indexer :=
          TwoOffsets_StridedIndexer iter_nd iter_arg_offset iter_res_offset
                                    iter_shape_and_strides in
        let reduction_indexer :=
          StridedIndexer red_nd reduction_arg_offset reduction_shape_stride in
        let (q1, red_ev) :=
          submit exec_q depends
                 (boolean_reduction_seq_krn
                    iter_nelems
                    {| seq_inp_ := arg_tp;
                       seq_out_ := res_tp;
                       seq_reduction_op_ := RedOpT;
                       seq_identity_ := identity_val;
                       seq_inp_out_iter_indexer_ := in_out_iter_indexer;
                       seq_inp_reduced_dims_indexer_ := reduction_indexer;
                       seq_reduction_max_gid_ := reduction_nelems |}) in
        (q1, Returned red_ev)
      else
        let res_shape := iter_shape_and_strides in
        let res_strides := skipn (2 * iter_nd) iter_shape_and_strides in
        let res_indexer :=
          UnpackedStridedIndexer iter_nd iter_res_offset res_shape
                                 res_strides in
        let (q1, res_init_ev) :=
          submit exec_q depends
                 (init_krn iter_nelems res_tp res_indexer identity_val) in
        let in_out_iter_indexer :=
          TwoOffsets_StridedIndexer iter_nd iter_arg_offset iter_res_offset
                                    iter_shape_and_strides in
        let reduction_indexer :=
          StridedIndexer red_nd reduction_arg_offset reduction_shape_stride in
        let reductions_per_wi := reductions_per_wi_of reduction_nelems wg in
        match reduction_groups_of reduction_nelems reductions_per_wi wg with
        | None => (q1, Undefined)
        | Some reduction_groups =>
            let (q2, red_ev) :=
              submit q1 [res_init_ev]
                     (boolean_reduction_strided_krn
                        iter_nelems (size_mul reduction_groups wg) 1 wg
                        {| strided_inp_ := arg_tp;
                           strided_out_ := res_tp;
                           strided_reduction_op_ := RedOpT;
                           strided_group_op_ := GroupOpT;
                           strided_identity_ := identity_val;
                           strided_inp_out_iter_indexer_ :=
                             in_out_iter_indexer;
                           strided_inp_reduced_dims_indexer_ :=
                             reduction_indexer;
                           strided_reduction_max_gid_ := reduction_nelems;
                           strided_reductions_per_wi := reductions_per_wi |})
            in
            (q2, Returned red_ev)
        end
  end.

(** The factories' [get()]. *)
Definition AllContigFactory_get :=
  boolean_reduction_contig_impl logical_and all_reduce_wg_contig.

Definition AnyContigFactory_get :=
  boolean_reduction_contig_impl logical_or any_reduce_wg_contig.

Definition AllStridedFactory_get :=
  boolean_reduction_strided_impl logical_and all_reduce_wg_strided.

Definition AnyStridedFactory_get :=
  boolean_reduction_strided_impl logical_or any_reduce_wg_strided.

(** *** Execution of the submitted command groups *)

(** [m'] is the memory after [parallel_for(range<1>(n), body)], the
    work-items run in some order. *)
Definition parallel_for_result (n : N) (body : N -> memory Z -> memory Z)
           (m m' : memory Z) : Prop :=
  exists order, Permutation order (iota n) /\ m' = parallel_for order body m.

(** The execution of one command group on the output memory; the input
    memory [mi] is only read. *)
Definition exec_work (mi : memory argT) (w : reduction_work)
           (m m' : memory Z) : Prop :=
  match w with
  | boolean_reduction_seq_krn range k =>
      parallel_for_result range (SequentialBooleanReduction_call k mi) m m'
  | init_krn range res_tp res_indexer identity_val =>
      parallel_for_result
        range
        (fun id mo => let res_offset := res_indexer id in
                      store mo (ptr_add res_tp res_offset) identity_val)
        m m'
  | boolean_reduction_contig_krn gws0 gws1 lws0 lws1 k =>
      nd_range_result
        (contig_reduction_op_ k)
        (fun g => ContigBooleanReduction_res_ref k (item_of g 0 lws1))
        (fun g => ContigBooleanReduction_red_val_over_wg
                    k mi (item_of g 0 lws1))
        (nd_groups gws0 gws1 lws0 lws1) m m'
  | boolean_reduction_strided_krn gws0 gws1 lws0 lws1 k =>
      nd_range_result
        (strided_reduction_op_ k)
        (StridedBooleanReduction_res_ref k)
        (fun g => StridedBooleanReduction_red_val_over_wg k mi g lws1)
        (nd_groups gws0 gws1 lws0 lws1) m m'
  end.

(** The command groups run one after the other in [order]. *)
Fixpoint exec_order (mi : memory argT)
         (cgs : list (command_group reduction_work))
         (order : list event) (m m' : memory Z) : Prop :=
  match order with
  | [] => m' = m
  | e :: rest =>
      exists cg m1,
        nth_error cgs e = Some cg /\
        exec_work mi (cg_work cg) m m1 /\
        exec_order mi cgs rest m1 m'
  end.

(** [m'] is the output memory once the command groups submitted between
    [q_before] and [q_after] have run, in an order the dependencies allow. *)
Definition launch_outputs (mi : memory argT)
           (q_before q_after : queue reduction_work)
           (m m' : memory Z) : Prop :=
  exists order,
    valid_order q_after (length (submitted q_before)) order /\
    exec_order mi (submitted q_after) order m m'.

End Kernels.

End BooleanReductions.

(* ------------------------------------------------------------------------- *)
(** ** _flags.pyx *)

Module UsmFlags.

Section WithConstants.

(** The three masks are imported from [dpctl.tensor._usmarray]. *)
Variables USM_ARRAY_C_CONTIGUOUS USM_ARRAY_F_CONTIGUOUS USM_ARRAY_WRITEABLE : Z.

(** The array object a [Flags] belongs to. *)
Variable usm_ndarray : Type.

Record Flags : Type := { arr_ : usm_ndarray; flags_ : Z }.

Definition flags (self : Flags) : Z := flags_ self.

Definition c_contiguous (self : Flags) : bool :=
  (Z.land (flags_ self) USM_ARRAY_C_CONTIGUOUS =? USM_ARRAY_C_CONTIGUOUS)%Z.

Definition f_contiguous (self : Flags) : bool :=
  (Z.land (flags_ self) USM_ARRAY_F_CONTIGUOUS =? USM_ARRAY_F_CONTIGUOUS)%Z.

Definition writable (self : Flags) : bool :=
  if (Z.land (flags self) USM_ARRAY_WRITEABLE =? USM_ARRAY_WRITEABLE)%Z
  then false else true.

Definition forc (self : Flags) : bool :=
  if (Z.land (flags_ self) USM_ARRAY_F_CONTIGUOUS =? USM_ARRAY_F_CONTIGUOUS)%Z
     || (Z.land (flags_ self) USM_ARRAY_C_CONTIGUOUS
         =? USM_ARRAY_C_CONTIGUOUS)%Z
  then true else false.

Definition fnc (self : Flags) : bool :=
  if (Z.land (flags_ self) USM_ARRAY_F_CONTIGUOUS =? USM_ARRAY_F_CONTIGUOUS)%Z
     && negb (Z.land (flags_ self) USM_ARRAY_C_CONTIGUOUS
              =? USM_ARRAY_C_CONTIGUOUS)%Z
  then true else false.

Definition contiguous (self : Flags) : bool := forc self.

(** [name in [...]] on strings. *)
Definition name_in (name : string) (names : list string) : bool :=
  existsb (String.eqb name) names.

(** [Flags.__getitem__]; a name that matches no branch gives [None]. *)
Definition __getitem__ (self : Flags) (name : string) : option bool :=
  if name_in name ["C_CONTIGUOUS"; "C"]%string then Some (c_contiguous self)
  else if name_in name ["F_CONTIGUOUS"; "F"]%string
       then Some (f_contiguous self)
  else if String.eqb name "WRITABLE" then Some (writable self)
  else if String.eqb name "CONTIGUOUS" then Some (forc self)
  else None.

End WithConstants.

End UsmFlags.

(* ------------------------------------------------------------------------- *)
(** ** What [all] and [any] compute *)

Module BooleanReductionSpec.
Import Sycl BooleanReductions.

(** The two reductions, with the operator and the group operations their
    factories choose. *)
Inductive reduction : Type := all | any.

Definition RedOpT (r : reduction) : ReductionOp :=
  match r with all => logical_and | any => logical_or end.

Definition ContigGroupOpT (r : reduction) : contig_group_op :=
  match r with all => all_reduce_wg_contig | any => any_reduce_wg_contig end.

Definition StridedGroupOpT (r : reduction) : strided_group_op :=
  match r with all => all_reduce_wg_strided | any => any_reduce_wg_strided end.

Definition bool_op (op : ReductionOp) : bool -> bool -> bool :=
  match op with logical_and => andb | logical_or => orb end.

Definition bool_identity (op : ReductionOp) : bool :=
  match op with logical_and => true | logical_or => false end.

(** Whether all, or any, of the elements of [l] satisfy [f]. *)
Definition reduce_spec (A : Type) (op : ReductionOp) (f : A -> bool)
           (l : list A) : bool :=
  match op with
  | logical_and => forallb f l
  | logical_or => existsb f l
  end.

(** The launcher each factory returns. *)
Definition ContigFactory_get (r : reduction) :=
  match r with
  | all => AllContigFactory_get
  | any => AnyContigFactory_get
  end.

Definition StridedFactory_get
           (get_displacement : nat -> list Z -> list Z -> Z -> Z)
           (r : reduction) :=
  match r with
  | all => AllStridedFactory_get get_displacement
  | any => AnyStridedFactory_get get_displacement
  end.

(** The sizes of the call leave the [size_t] computations of the launcher
    and of its kernels below the modulus, on a device whose largest
    sub-group size is [max_sg]. *)
Definition sizes_fit (iter_nelems reduction_nelems max_sg : N) : Prop :=
  (reduction_nelems + 16 * max_sg < size_t_modulus)%N /\
  (iter_nelems * reduction_nelems + 16 * max_sg < size_t_modulus)%N.

(** The events in [depends] are those of command groups submitted
    earlier. *)
Definition submitted_before (W : Type) (q : queue W) (depends : list event)
  : Prop :=
  Forall (fun d => (d < length (submitted q))%nat) depends.

(** The smallest [c] with [a <= c * b], for [b] positive. *)
Definition ceil_div (a b : N) : N := ((a + b - 1) / b)%N.

(** The reduction indices of the work-item [lid] of group [bid] of the
    strided kernel, before the bound check, and those that pass it. *)
Definition lane_gids_of (rpw wg bid lid : N) : list N :=
  map (fun m => lid + bid * (rpw * wg) + m * wg)%N (iota rpw).

Definition lane_reads_of (reduction_nelems rpw wg bid lid : N) : list N :=
  filter (fun gid => gid <? reduction_nelems)%N (lane_gids_of rpw wg bid lid).

Section Reference.

Variable argT : Type.
Variable convert_impl_bool : argT -> bool.

(** The element a work-item of row [rid] of the strided kernel reads for
    reduction index [gid], as a boolean. *)
Definition lane_pred_of (mi : memory argT) (k : StridedBooleanReduction)
           (rid gid : N) : bool :=
  convert_impl_bool
    (load mi (ptr_add (strided_inp_ k)
                      (fst (strided_inp_out_iter_indexer_ k rid)
                       + strided_inp_reduced_dims_indexer_ k gid)%Z)).

(** The [int32] code of the reduction of the elements of [mi] at the given
    offsets from [inp]. *)
Definition reference (op : ReductionOp) (mi : memory argT) (inp : pointer)
           (offsets : list Z) : Z :=
  bool_to_int32
    (reduce_spec op (fun z => convert_impl_bool (load mi (ptr_add inp z)))
                 offsets).

(** [m'] is [m] with, for each iteration index [id < iter_nelems], the slot
    [out + out_offset id] holding the reduction of the [reduction_nelems]
    elements at [inp + inp_offset id + red_offset j]. *)
Definition reduction_outputs (op : ReductionOp) (mi : memory argT)
           (inp out : pointer) (inp_offset out_offset red_offset : N -> Z)
           (iter_nelems reduction_nelems : N) (m m' : memory Z) : Prop :=
  (forall id, (id < iter_nelems)%N ->
              load m' (ptr_add out (out_offset id))
              = reference op mi inp
                          (map (fun j => (inp_offset id + red_offset j)%Z)
                               (iota reduction_nelems)))
  /\ (forall p, (forall id, (id < iter_nelems)%N ->
                            p <> ptr_add out (out_offset id)) ->
                load m' p = load m p).

End Reference.

End BooleanReductionSpec.

(* ------------------------------------------------------------------------- *)
(** ** Concrete inputs *)

Module Examples.
Import Sycl BooleanReductions.

(** [convert_impl<bool, std::int32_t>] and the conversion of an [int32] to
    itself. *)
Definition convert_int32 (v : Z) : bool := negb (v =? 0)%Z.

Definition int32_of_int32 (v : Z) : Z := v.

(** The displacement in an array of one axis. *)
Definition displacement_1d (nd : nat) (shape strides : list Z) (i : Z) : Z :=
  (i * hd 1 strides)%Z.

Definition arg_cp : pointer := {| block := 0; offset := 0 |}.
Definition res_cp : pointer := {| block := 1; offset := 0 |}.
Definition vec_cp : pointer := {| block := 2; offset := 0 |}.
Definition scratch : pointer := {| block := 3; offset := 0 |}.

(** An input whose only nonzero element is at offset 3: the rows [0 0] and
    [0 5] when rows have two elements. *)
Definition input : memory Z :=
  fun p => if (offset p =? 3)%Z then 5%Z else 0%Z.

(** An output buffer not yet written. *)
Definition output : memory Z := fun _ => 77%Z.

(** An idle queue on a device with one sub-group size. *)
Definition idle_queue (W : Type) (sg : N) : queue W :=
  {| get_device := {| sub_group_sizes := [sg] |}; submitted := [] |}.

Definition idle_state (sg : N) : MultiplyBroadcast.state :=
  {| MultiplyBroadcast.exec_q := idle_queue MultiplyBroadcast.multiply_work sg;
     MultiplyBroadcast.host_tasks := [];
     MultiplyBroadcast.heap := [] |}.

(** An allocator that always succeeds with the same pointer, and one that
    always fails. *)
Definition malloc_ok (count : N) (h : usm_heap) : option pointer :=
  Some scratch.

Definition malloc_fails (count : N) (h : usm_heap) : option pointer := None.

End Examples.

(* ------------------------------------------------------------------------- *)
(** ** multiply.hpp: the functor's traits and the two elementwise launchers *)

Module MultiplyElementwise.
Import TypeDispatch Multiply Sycl.

(** [MultiplyFunctor<argT1, argT2, resT>::supports_sg_loadstore] and
    [::supports_vec]. *)
Definition supports_sg_loadstore (argT1 argT2 : ElementType) : bool :=
  negb (is_complex argT1 || is_complex argT2).

Definition supports_vec (argT1 argT2 : ElementType) : bool :=
  negb (is_complex argT1 || is_complex argT2).

(** Whether a factory's result is the null pointer. *)
Definition is_nullptr (fn : fnT) : bool :=
  match fn with nullptr => true | _ => false end.

(** The pairs of element types for which a factory returns a launcher. *)
Definition registered (get : ElementType -> ElementType -> fnT)
  : list (ElementType * ElementType) :=
  filter (fun p => negb (is_nullptr (get (fst p) (snd p))))
         (list_prod all_types all_types).

(** The command groups of the two launchers.  The functors
    [BinaryContigFunctor] and [BinaryStridedFunctor] are defined in
    kernels/elementwise_functions/common.hpp; here they are only their
    launch: ranges and constructor arguments.  The indexer of the strided
    kernel is given by its constructor arguments. *)
Inductive elementwise_work : Type :=
| multiply_contig_kernel
    (gws_range lws_range : N) (arg1_tp arg2_tp res_tp : pointer) (nelems : N)
| multiply_strided_strided_kernel
    (range : N) (arg1_tp arg2_tp res_tp : pointer)
    (nd : nat) (arg1_offset arg2_offset res_offset : Z)
    (shape_and_strides : list Z).

Definition multiply_contig_impl
           (exec_q : queue elementwise_work) (nelems : N)
           (arg1_p : pointer) (arg1_offset : Z)
           (arg2_p : pointer) (arg2_offset : Z)
           (res_p : pointer) (res_offset : Z)
           (depends : list event) : queue elementwise_work * event :=
  let lws := 64%N in
  let vec_sz := 4%N in
  let n_vecs := 2%N in
  let n_groups :=
    (size_sub (size_add nelems (size_mul (size_mul lws n_vecs) vec_sz)) 1
     / size_mul (size_mul lws n_vecs) vec_sz)%N in
  let gws_range := size_mul n_groups lws in
  let lws_range := lws in
  let arg1_tp := ptr_add arg1_p arg1_offset in
  let arg2_tp := ptr_add arg2_p arg2_offset in
  let res_tp := ptr_add res_p res_offset in
  submit exec_q depends
         (multiply_contig_kernel gws_range lws_range arg1_tp arg2_tp res_tp
                                 nelems).

Definition multiply_strided_impl
           (exec_q : queue elementwise_work) (nelems : N)
           (nd : nat) (shape_and_strides : list Z)
           (arg1_p : pointer) (arg1_offset : Z)
           (arg2_p : pointer) (arg2_offset : Z)
           (res_p : pointer) (res_offset : Z)
           (depends additional_depends : list event)
  : queue elementwise_work * event :=
  let arg1_tp := arg1_p in
  let arg2_tp := arg2_p in
  let res_tp := res_p in
  submit exec_q (depends ++ additional_depends)
         (multiply_strided_strided_kernel
            nelems arg1_tp arg2_tp res_tp
            nd arg1_offset arg2_offset res_offset shape_and_strides).

End MultiplyElementwise.

(* ------------------------------------------------------------------------- *)
(** ** _flags.pyx: [__repr__] *)

Module UsmFlagsRepr.
Import UsmFlags.

(** [str(v)] of what [__getitem__] returns. *)
Definition py_str (v : option bool) : string :=
  match v with
  | Some true => "True"
  | Some false => "False"
  | None => "None"
  end.

Definition newline : string := String (Ascii.ascii_of_nat 10) EmptyString.

Section WithConstants.

Variables USM_ARRAY_C_CONTIGUOUS USM_ARRAY_F_CONTIGUOUS USM_ARRAY_WRITEABLE : Z.
Variable usm_ndarray : Type.

(** [Flags.__repr__]: one line per name, joined by newlines. *)
Definition __repr__ (self : Flags usm_ndarray) : string :=
  let out :=
    map (fun name =>
           ("  " ++ name ++ " : "
            ++ py_str (__getitem__ USM_ARRAY_C_CONTIGUOUS
                                   USM_ARRAY_F_CONTIGUOUS
                                   USM_ARRAY_WRITEABLE self name))%string)
        ["C_CONTIGUOUS"; "F_CONTIGUOUS"; "WRITABLE"]%string in
  String.concat newline out.

End WithConstants.

End UsmFlagsRepr.

(* ------------------------------------------------------------------------- *)
(** ** Notions used to state further properties *)

Module FurtherSpec.
Import Sycl BooleanReductions.

(** The value of a slot that no later combination changes: 0 under
    [logical_and], 1 under [logical_or]. *)
Definition absorbing (op : ReductionOp) : Z :=
  match op with
  | logical_and => 0%Z
  | logical_or => 1%Z
  end.

(** The elements of row [id] of a contiguous input with rows of [n]
    elements. *)
Definition row (argT : Type) (mi : memory argT) (inp : pointer) (n id : N)
  : list argT :=
  map (fun j => load mi (ptr_add inp (Z.of_N (id * n + j)))) (iota n).

(** The pointers of the live allocations. *)
Definition allocated (h : usm_heap) : list pointer := map fst h.

End FurtherSpec.

Module FurtherExamples.
Import Sycl Examples.

(** A queue with one command group submitted earlier, which waits for
    nothing. *)
Definition busy_queue (W : Type) (sg : N) (earlier : W) : queue W :=
  {| get_device := {| sub_group_sizes := [sg] |};
     submitted := [{| depends_on := []; cg_work := earlier |}] |}.

(** A state whose queue holds an earlier fill kernel. *)
Definition busy_state (sg : N) : MultiplyBroadcast.state :=
  {| MultiplyBroadcast.exec_q :=
       busy_queue sg (MultiplyBroadcast.make_padded_vec_krn 1 res_cp vec_cp 1);
     MultiplyBroadcast.host_tasks := [];
     MultiplyBroadcast.heap := [] |}.

(** A queue that holds an earlier initialisation kernel. *)
Definition busy_reduction_queue (sg : N)
  : queue BooleanReductions.reduction_work :=
  busy_queue sg (BooleanReductions.init_krn
                   1 res_cp BooleanReductions.NoOpIndexer 1%Z).

End FurtherExamples.

(* ========================================================================= *)
(** * Properties *)

(* ------------------------------------------------------------------------- *)
(** ** The type map and the factories *)

Module MultiplyFacts.
Import TypeDispatch Multiply.

Lemma is_same_eq a b : is_same a b = true <-> a = b.
Proof. destruct a, b; simpl; split; intros H; congruence. Qed.

Lemma is_same_refl a : is_same a a = true.
Proof. now apply is_same_eq. Qed.

(** [std::disjunction] picks the first entry whose [value] holds, and the
    last one when none does. *)
Lemma disjunction_first_match bs bn :
  (exists pre e post,
      bs = pre ++ e :: post /\
      Forall (fun x => value x = false) pre /\
      value e = true /\ disjunction bs bn = e)
  \/ (Forall (fun x => value x = false) bs /\ disjunction bs bn = bn).
Proof.
  induction bs as [|b bs IH]; simpl.
  - right. split; [constructor | reflexivity].
  - destruct (value b) eqn:Hb.
    + left. exists [], b, bs. repeat split; auto.
    + destruct IH as [(pre & e & post & -> & Hpre & He & Hd) | [Hall Hd]].
      * left. exists (b :: pre), e, post. repeat split; auto.
      * right. split; auto.
Qed.

Lemma all_types_complete T : In T all_types.
Proof. destruct T; simpl; tauto. Qed.

Lemma all_types_NoDup : NoDup all_types.
Proof.
  unfold all_types.
  repeat (constructor; [simpl; intuition discriminate|]). constructor.
Qed.

(** C1. The result type of multiply for a pair of element types is the
    result of the first matching entry of the ordered list of entries and
    [void] when none matches; the entries are the fourteen same-type pairs,
    in the order of [all_types]; so [(T, T)] gives [T] and two distinct
    types give [void]; the lookup is the specification's scan of the table
    of rows; and it has one result. *)
Theorem multiply_output_type_first_match (T1 T2 : ElementType) :
  let entries := MultiplyOutputType_entries T1 T2 in
  ((exists pre e post,
       entries = pre ++ e :: post /\
       Forall (fun x => value x = false) pre /\
       value e = true /\ MultiplyOutputType T1 T2 = result_type e)
   \/ (Forall (fun x => value x = false) entries /\
       MultiplyOutputType T1 T2 = None))
  /\ entries = map (fun T => BinaryTypeMapResultEntry T1 T T2 T T) all_types
  /\ length all_types = 14%nat
  /\ NoDup all_types
  /\ (forall T, In T all_types)
  /\ MultiplyOutputType T1 T1 = Some T1
  /\ MultiplyOutputType T1 T2 = (if is_same T1 T2 then Some T1 else None)
  /\ MultiplyOutputType T1 T2 = resolve T1 T2
  /\ (forall r1 r2, MultiplyOutputType T1 T2 = r1 ->
                    MultiplyOutputType T1 T2 = r2 -> r1 = r2).
Proof.
  intros entries.
  split; [|split; [|split; [|split; [|split; [|split; [|split; [|split]]]]]]].
  - unfold MultiplyOutputType. fold entries.
    destruct (disjunction_first_match entries (DefaultResultEntry None))
      as [(pre & e & post & H1 & H2 & H3 & H4) | [H1 H2]].
    + left. exists pre, e, post. rewrite H4. auto.
    + right. rewrite H2. auto.
  - reflexivity.
  - reflexivity.
  - apply all_types_NoDup.
  - apply all_types_complete.
  - destruct T1; reflexivity.
  - destruct T1, T2; reflexivity.
  - destruct T1, T2; reflexivity.
  - intros r1 r2 <- <-. reflexivity.
Qed.

(** C2. The contiguous and the strided factory return a null pointer
    exactly when the output type is [void]; the two broadcast factories
    return one exactly when it is [void] or one of the two argument types
    or the output type is complex; otherwise each returns its launcher,
    instantiated at the argument types (and the output type). *)
Theorem multiply_factories_null_iff (T1 T2 : ElementType) :
  (MultiplyContigFactory_get T1 T2 = nullptr
   <-> MultiplyOutputType T1 T2 = None)
  /\ (MultiplyStridedFactory_get T1 T2 = nullptr
      <-> MultiplyOutputType T1 T2 = None)
  /\ (MultiplyContigMatrixContigRowBroadcastFactory_get T1 T2 = nullptr
      <-> (MultiplyOutputType T1 T2 = None \/ is_complex T1 = true \/
           is_complex T2 = true \/
           result_is_complex (MultiplyOutputType T1 T2) = true))
  /\ (MultiplyContigRowContigMatrixBroadcastFactory_get T1 T2 = nullptr
      <-> (MultiplyOutputType T1 T2 = None \/ is_complex T1 = true \/
           is_complex T2 = true \/
           result_is_complex (MultiplyOutputType T1 T2) = true))
  /\ (forall resT,
         MultiplyOutputType T1 T2 = Some resT ->
         MultiplyContigFactory_get T1 T2 = fn_multiply_contig_impl T1 T2 /\
         MultiplyStridedFactory_get T1 T2 = fn_multiply_strided_impl T1 T2 /\
         (is_complex T1 || is_complex T2 || is_complex resT = false ->
          MultiplyContigMatrixContigRowBroadcastFactory_get T1 T2
          = fn_multiply_contig_matrix_contig_row_broadcast_impl T1 T2 resT /\
          MultiplyContigRowContigMatrixBroadcastFactory_get T1 T2
          = fn_multiply_contig_row_contig_matrix_broadcast_impl T1 T2 resT)).
Proof.
  unfold MultiplyContigFactory_get, MultiplyStridedFactory_get,
    MultiplyContigMatrixContigRowBroadcastFactory_get,
    MultiplyContigRowContigMatrixBroadcastFactory_get, result_is_complex.
  destruct (MultiplyOutputType T1 T2) as [r|] eqn:Hr.
  - repeat split; try discriminate; try (intros; congruence).
    + destruct (is_complex T1), (is_complex T2), (is_complex r); simpl;
        intros; try discriminate; auto.
    + intros [H | [H | [H | H]]]; try discriminate; rewrite H;
        rewrite ?orb_true_r; reflexivity.
    + destruct (is_complex T1), (is_complex T2), (is_complex r); simpl;
        intros; try discriminate; auto.
    + intros [H | [H | [H | H]]]; try discriminate; rewrite H;
        rewrite ?orb_true_r; reflexivity.
    + injection H as <-. rewrite H0. reflexivity.
    + injection H as <-. rewrite H0. reflexivity.
  - repeat split; auto; intros; discriminate.
Qed.

End MultiplyFacts.

(* ------------------------------------------------------------------------- *)
(** ** The flags accessor *)

Module UsmFlagsFacts.
Import UsmFlags.
Local Open Scope Z_scope.

(** Masking with a single bit leaves the bit or nothing. *)
Lemma land_pow2_eqb (x k : Z) :
  0 <= k -> (Z.land x (2 ^ k) =? 2 ^ k) = Z.testbit x k.
Proof.
  intros Hk.
  destruct (Z.testbit x k) eqn:Hb.
  - apply Z.eqb_eq. apply Z.bits_inj'. intros n Hn.
    rewrite Z.land_spec, (Z.pow2_bits_eqb k n Hk).
    destruct (Z.eqb_spec k n) as [->|Hne].
    + now rewrite Hb.
    + apply andb_false_r.
  - apply Z.eqb_neq. intros Heq.
    assert (Ht : Z.testbit (Z.land x (2 ^ k)) k = true).
    { rewrite Heq. now apply Z.pow2_bits_true. }
    rewrite Z.land_spec, Hb in Ht. discriminate.
Qed.

Section WithConstants.

Variables USM_ARRAY_C_CONTIGUOUS USM_ARRAY_F_CONTIGUOUS USM_ARRAY_WRITEABLE : Z.
Variable usm_ndarray : Type.

Let writable' :=
  @writable USM_ARRAY_WRITEABLE usm_ndarray.
Let getitem' :=
  @__getitem__ USM_ARRAY_C_CONTIGUOUS USM_ARRAY_F_CONTIGUOUS
               USM_ARRAY_WRITEABLE usm_ndarray.

(** C10. When [USM_ARRAY_WRITEABLE] is the mask of bit [k], [writable] is
    true exactly when bit [k] of the stored flags is clear and false when
    it is set, for every value of the flags; and the ["WRITABLE"] key of
    [__getitem__] gives the same value. *)
Theorem writable_is_negated_bit (k : Z) (self : Flags usm_ndarray) :
  0 <= k ->
  USM_ARRAY_WRITEABLE = 2 ^ k ->
  writable' self = negb (Z.testbit (flags_ self) k)
  /\ (writable' self = true <-> Z.testbit (flags_ self) k = false)
  /\ (writable' self = false <-> Z.testbit (flags_ self) k = true)
  /\ getitem' self "WRITABLE"%string = Some (writable' self).
Proof.
  intros Hk HW.
  assert (Hw : writable' self = negb (Z.testbit (flags_ self) k)).
  { unfold writable', writable, flags. rewrite HW, land_pow2_eqb by assumption.
    now destruct (Z.testbit (flags_ self) k). }
  repeat split.
  - exact Hw.
  - rewrite Hw. now destruct (Z.testbit (flags_ self) k).
  - rewrite Hw. now destruct (Z.testbit (flags_ self) k).
  - rewrite Hw. now destruct (Z.testbit (flags_ self) k).
  - rewrite Hw. now destruct (Z.testbit (flags_ self) k).
Qed.

End WithConstants.

(** With the masks 1, 2 and 4: a flags word with the bit of value 4 set
    (5 = 4 + 1) is reported as not writable. *)
Lemma writable_is_negated_bit_witness :
  0 <= 2 /\ 4 = 2 ^ 2 /\
  writable 4 {| arr_ := tt; flags_ := 5 |} = false /\
  __getitem__ 1 2 4 {| arr_ := tt; flags_ := 5 |} "WRITABLE"%string
  = Some false.
Proof.
  pose proof (@writable_is_negated_bit 1 2 4 unit 2
                {| arr_ := tt; flags_ := 5 |}) as H.
  split; [lia|]. split; [reflexivity|].
  destruct H as (H1 & _ & _ & H4); [lia | reflexivity |].
  split; [exact H1 | rewrite H4, H1; reflexivity].
Defined.

End UsmFlagsFacts.

(* ------------------------------------------------------------------------- *)
(** ** Index arithmetic, memory and queues *)

Module SyclFacts.
Import Sycl.

Lemma size_t_modulus_eq : size_t_modulus = 18446744073709551616%N.
Proof. reflexivity. Qed.

(** Linear arithmetic with the modulus as a number. *)
Ltac size_lia :=
  pose proof size_t_modulus_eq;
  change (2 ^ 63)%N with 9223372036854775808%N in *;
  lia.

Lemma size_wrap_small (x : N) : (x < size_t_modulus)%N -> size_wrap x = x.
Proof. intros H. unfold size_wrap. now apply N.mod_small. Qed.

Lemma size_add_small (a b : N) :
  (a + b < size_t_modulus)%N -> size_add a b = (a + b)%N.
Proof. apply size_wrap_small. Qed.

Lemma size_mul_small (a b : N) :
  (a * b < size_t_modulus)%N -> size_mul a b = (a * b)%N.
Proof. apply size_wrap_small. Qed.

Lemma size_sub_small (a b : N) :
  (b <= a)%N -> (a < size_t_modulus)%N -> size_sub a b = (a - b)%N.
Proof.
  intros Hba Ha. unfold size_sub, size_wrap.
  replace (a + size_t_modulus - b)%N with (a - b + 1 * size_t_modulus)%N by lia.
  rewrite N.Div0.mod_add. apply N.mod_small. lia.
Qed.

Lemma In_iota (n i : N) : In i (iota n) <-> (i < n)%N.
Proof.
  unfold iota. rewrite in_map_iff. split.
  - intros (k & <- & Hk). apply in_seq in Hk. lia.
  - intros Hi. exists (N.to_nat i). split; [apply N2Nat.id|].
    apply in_seq. lia.
Qed.

Lemma iota_0 : iota 0 = [].
Proof. reflexivity. Qed.

Lemma NoDup_iota (n : N) : NoDup (iota n).
Proof.
  unfold iota. generalize (seq_NoDup (N.to_nat n) 0).
  induction (seq 0 (N.to_nat n)) as [|a l IH]; simpl; intros Hnd.
  - constructor.
  - inversion Hnd as [|? ? Hnotin Hnd']; subst. constructor.
    + rewrite in_map_iff. intros (b & Hb & Hin).
      apply Nat2N.inj in Hb. subst. contradiction.
    + now apply IH.
Qed.

Lemma In_index_range (first last i : N) :
  In i (index_range first last) <-> (first <= i < last)%N.
Proof.
  unfold index_range. rewrite in_map_iff. split.
  - intros (k & <- & Hk). apply In_iota in Hk. lia.
  - intros Hi. exists (i - first)%N. split; [lia|]. apply In_iota. lia.
Qed.

Lemma pointer_eqb_eq (p q : pointer) : pointer_eqb p q = true <-> p = q.
Proof.
  destruct p as [bp op], q as [bq oq]. unfold pointer_eqb. simpl.
  rewrite andb_true_iff, N.eqb_eq, Z.eqb_eq. split.
  - intros [-> ->]. reflexivity.
  - intros H. injection H. auto.
Qed.

Lemma pointer_eqb_refl (p : pointer) : pointer_eqb p p = true.
Proof. now apply pointer_eqb_eq. Qed.

Lemma pointer_eqb_neq (p q : pointer) : pointer_eqb p q = false <-> p <> q.
Proof.
  rewrite <- pointer_eqb_eq. destruct (pointer_eqb p q); split; congruence.
Qed.

Lemma load_store_same (T : Type) (m : memory T) p v :
  load (store m p v) p = v.
Proof. unfold load, store. now rewrite pointer_eqb_refl. Qed.

Lemma load_store_other (T : Type) (m : memory T) p q v :
  q <> p -> load (store m p v) q = load m q.
Proof.
  intros H. unfold load, store.
  apply pointer_eqb_neq in H. now rewrite H.
Qed.

Lemma ptr_add_inj (p : pointer) (i j : Z) :
  ptr_add p i = ptr_add p j -> i = j.
Proof. unfold ptr_add. intros H. injection H. lia. Qed.

Lemma max_element_singleton (x : N) : max_element [x] = Some x.
Proof. reflexivity. Qed.

Lemma position_in (e : event) (order : list event) :
  In e order -> exists i, position e order = Some i.
Proof.
  induction order as [|x rest IH]; simpl; [tauto|].
  intros [-> | Hin].
  - rewrite Nat.eqb_refl. eauto.
  - destruct (Nat.eqb x e); [eauto|].
    destruct (IH Hin) as [i ->]. simpl. eauto.
Qed.

Lemma nth_error_snoc (A : Type) (l : list A) (x : A) :
  nth_error (l ++ [x]) (length l) = Some x.
Proof.
  rewrite nth_error_app2 by lia. now rewrite Nat.sub_diag.
Qed.

(** What a submission changes. *)
Lemma submit_spec (W : Type) (q : queue W) deps (w : W) :
  submit q deps w
  = ({| get_device := get_device q;
        submitted := submitted q ++ [{| depends_on := deps; cg_work := w |}] |},
     length (submitted q)).
Proof. reflexivity. Qed.

End SyclFacts.

(* ------------------------------------------------------------------------- *)
(** ** The matrix-row broadcast launcher *)

Module MultiplyBroadcastFacts.
Import Sycl SyclFacts MultiplyBroadcast.

Section Fill.

Variable argT2 : Type.
Variables padded_vec vec : pointer.
Variable n1 : N.
Hypothesis fresh : block padded_vec <> block vec.

(** The work-items of the fill kernel write the scratch allocation only, so
    in every order each one finds the row as it was. *)
Lemma make_padded_vec_any_order (m0 : memory argT2) (order : list N) :
  forall m,
    (forall p, block p <> block padded_vec -> m p = m0 p) ->
    forall i,
      In i order \/
      m (ptr_add padded_vec (Z.of_N i))
      = m0 (ptr_add vec (Z.of_N (i mod n1))) ->
      parallel_for order (make_padded_vec_body padded_vec vec n1) m
                   (ptr_add padded_vec (Z.of_N i))
      = m0 (ptr_add vec (Z.of_N (i mod n1))).
Proof.
  induction order as [|a l IH]; intros m Hframe i Hi.
  - simpl. destruct Hi as [[] | Hi]. exact Hi.
  - simpl. apply IH.
    + intros p Hp. unfold make_padded_vec_body.
      rewrite <- (Hframe p Hp). apply load_store_other.
      intros ->. apply Hp. reflexivity.
    + assert (Ha : make_padded_vec_body padded_vec vec n1 a m
                     (ptr_add padded_vec (Z.of_N a))
                   = m0 (ptr_add vec (Z.of_N (a mod n1)))).
      { unfold make_padded_vec_body.
        change (load (store m (ptr_add padded_vec (Z.of_N a))
                       (load m (ptr_add vec (Z.of_N (a mod n1)))))
                     (ptr_add padded_vec (Z.of_N a))
                = m0 (ptr_add vec (Z.of_N (a mod n1)))).
        rewrite load_store_same. apply Hframe. simpl. congruence. }
      destruct (N.eq_dec i a) as [->|Hne].
      * right. exact Ha.
      * destruct Hi as [[Hi | Hi] | Hi]; [congruence | now left |].
        right. rewrite <- Hi. unfold make_padded_vec_body.
        apply load_store_other. intros Heq. apply ptr_add_inj in Heq. lia.
Qed.

End Fill.

Section Launcher.

Variable argT2 : Type.
Variable malloc_device : N -> usm_heap -> option pointer.

Let impl := multiply_contig_matrix_contig_row_broadcast_impl malloc_device.
Let impl_swapped :=
  multiply_contig_row_contig_matrix_broadcast_impl malloc_device.

(** C6. When the allocator returns a pointer, the launcher has asked it for
    [n1 + max_sgSize] elements, the largest sub-group size of the device
    being [max_sgSize]; the first command group it submits is the fill
    kernel over that many work-items; and once that kernel has run, in any
    order of its work-items, [padded_vec[i] = vec[i % n1]] for every
    [i < n1 + max_sgSize]. *)
Theorem padded_vec_size_and_contents
        (st : state) (n0 n1 : N)
        (mat_p : pointer) (mat_offset : Z) (vec_p : pointer) (vec_offset : Z)
        (res_p : pointer) (res_offset : Z) (depends : list event)
        (max_sgSize : N) (padded_vec : pointer) :
  max_element (sub_group_sizes (get_device (exec_q st))) = Some max_sgSize ->
  (0 < n1)%N ->
  (n1 + max_sgSize < size_t_modulus)%N ->
  malloc_device (n1 + max_sgSize)%N (heap st) = Some padded_vec ->
  block padded_vec <> block vec_p ->
  exists st' comp_ev fill,
    impl st n0 n1 mat_p mat_offset vec_p vec_offset res_p res_offset depends
    = (st', Returned comp_ev)
    /\ heap st' = (padded_vec, (n1 + max_sgSize)%N) :: heap st
    /\ nth_error (submitted (exec_q st')) (length (submitted (exec_q st)))
       = Some fill
    /\ depends_on fill = depends
    /\ cg_work fill
       = make_padded_vec_krn (n1 + max_sgSize) padded_vec
                             (ptr_add vec_p vec_offset) n1
    /\ (forall m : memory argT2,
           exists m', make_padded_vec_result (cg_work fill) m m')
    /\ (forall m m' : memory argT2,
           make_padded_vec_result (cg_work fill) m m' ->
           forall i, (i < n1 + max_sgSize)%N ->
                     load m' (ptr_add padded_vec (Z.of_N i))
                     = load m (ptr_add (ptr_add vec_p vec_offset)
                                       (Z.of_N (i mod n1)))).
Proof.
  intros Hmax Hn1 Hfit Halloc Hfresh.
  unfold impl, multiply_contig_matrix_contig_row_broadcast_impl.
  rewrite Hmax. rewrite (size_add_small _ _ Hfit). rewrite Halloc.
  rewrite !submit_spec. cbv zeta. simpl submitted. simpl get_device.
  eexists _, _, _. split; [reflexivity|]. simpl heap. simpl exec_q.
  simpl submitted.
  split; [reflexivity|].
  split.
  { rewrite <- !app_assoc. rewrite nth_error_app2 by lia.
    rewrite Nat.sub_diag. reflexivity. }
  split; [reflexivity|]. split; [reflexivity|]. simpl cg_work.
  split.
  - intros m. eexists. exists (iota (n1 + max_sgSize)).
    split; [apply Permutation_refl | reflexivity].
  - intros m m' (order & Hperm & ->) i Hi.
    apply make_padded_vec_any_order.
    + simpl. exact Hfresh.
    + intros p _. reflexivity.
    + left. apply (Permutation_in _ (Permutation_sym Hperm)).
      apply In_iota. exact Hi.
Qed.

(** C8. When the allocator returns a null pointer, the call ends in the
    exception raised at the allocation, and the queue, the list of host
    tasks and the allocations are those before the call: nothing has been
    submitted.  The same holds for the row-matrix launcher. *)
Theorem allocation_failure_submits_nothing
        (st : state) (n0 n1 : N)
        (mat_p : pointer) (mat_offset : Z) (vec_p : pointer) (vec_offset : Z)
        (res_p : pointer) (res_offset : Z) (depends : list event)
        (max_sgSize : N) :
  max_element (sub_group_sizes (get_device (exec_q st))) = Some max_sgSize ->
  malloc_device (size_add n1 max_sgSize) (heap st) = None ->
  impl st n0 n1 mat_p mat_offset vec_p vec_offset res_p res_offset depends
  = (st, Thrown "Could not allocate memory on the device")
  /\ impl_swapped st n0 n1 vec_p vec_offset mat_p mat_offset
                  res_p res_offset depends
     = (st, Thrown "Could not allocate memory on the device")
  /\ submitted (exec_q (fst (impl st n0 n1 mat_p mat_offset vec_p vec_offset
                                  res_p res_offset depends)))
     = submitted (exec_q st).
Proof.
  intros Hmax Halloc.
  unfold impl, impl_swapped, multiply_contig_row_contig_matrix_broadcast_impl,
    multiply_contig_matrix_contig_row_broadcast_impl.
  rewrite Hmax, Halloc. auto.
Qed.

(** C7. When the launcher returns, the last command group it has submitted
    is the host task that frees the scratch vector; it depends on the event
    of the compute kernel, which reads that vector and is the event
    returned; in every order of execution the dependencies allow, the
    compute kernel runs before the host task; and the caller's list of host
    tasks is the old list with the event of the host task added at its
    end, once. *)
Theorem cleanup_depends_on_compute
        (st : state) (n0 n1 : N)
        (mat_p : pointer) (mat_offset : Z) (vec_p : pointer) (vec_offset : Z)
        (res_p : pointer) (res_offset : Z) (depends : list event)
        (st' : state) (comp_ev : event) :
  impl st n0 n1 mat_p mat_offset vec_p vec_offset res_p res_offset depends
  = (st', Returned comp_ev) ->
  exists padded_vec compute cleanup,
    let tmp_cleanup_ev := S comp_ev in
    comp_ev = S (length (submitted (exec_q st)))
    /\ length (submitted (exec_q st')) = S tmp_cleanup_ev
    /\ nth_error (submitted (exec_q st')) comp_ev = Some compute
    /\ (exists gws lws mat res n_elems n1',
           cg_work compute
           = multiply_matrix_row_broadcast_sg_krn
               gws lws mat padded_vec res n_elems n1')
    /\ nth_error (submitted (exec_q st')) tmp_cleanup_ev = Some cleanup
    /\ cg_work cleanup = host_task_free padded_vec
    /\ depends_on cleanup = [comp_ev]
    /\ host_tasks st' = host_tasks st ++ [tmp_cleanup_ev]
    /\ (forall completed order,
           (completed <= comp_ev)%nat ->
           valid_order (exec_q st') completed order ->
           runs_before order comp_ev tmp_cleanup_ev).
Proof.
  unfold impl, multiply_contig_matrix_contig_row_broadcast_impl.
  destruct (max_element _) as [max_sgSize|]; [|discriminate].
  destruct (malloc_device _ _) as [padded_vec|]; [|discriminate].
  rewrite !submit_spec. cbv zeta. simpl submitted. simpl get_device.
  intros H. injection H as <- <-.
  set (l := submitted (exec_q st)).
  set (fill := {| depends_on := depends; cg_work := _ |}).
  match goal with
  | |- context [((l ++ [fill]) ++ [?c]) ++ [?d]] =>
      set (compute := c); set (cleanup := d)
  end.
  assert (Hlen1 : length (l ++ [fill]) = S (length l))
    by (rewrite length_app; simpl; lia).
  assert (Hlen2 : length ((l ++ [fill]) ++ [compute])
                  = S (length (l ++ [fill])))
    by (rewrite length_app; simpl; lia).
  assert (Hcleanup : nth_error (((l ++ [fill]) ++ [compute]) ++ [cleanup])
                               (S (length (l ++ [fill]))) = Some cleanup).
  { rewrite <- Hlen2. apply nth_error_snoc. }
  exists padded_vec, compute, cleanup. cbv zeta.
  cbn [exec_q submitted host_tasks].
  split; [exact Hlen1|].
  split; [rewrite !length_app; simpl; lia|].
  split.
  { rewrite nth_error_app1 by lia. apply nth_error_snoc. }
  split; [simpl; eauto 10|].
  split; [exact Hcleanup|].
  split; [reflexivity|]. split; [reflexivity|].
  split; [rewrite Hlen2; reflexivity|].
  intros completed order Hc [Hperm Hdeps].
  apply (Hdeps _ cleanup).
  - apply (Permutation_in _ (Permutation_sym Hperm)).
    apply in_seq. cbn [submitted]. rewrite !length_app. simpl. lia.
  - exact Hcleanup.
  - simpl. left. reflexivity.
  - exact Hc.
Qed.

End Launcher.

End MultiplyBroadcastFacts.

(* ------------------------------------------------------------------------- *)
(** ** Boolean reductions: operators and folds *)

Module ReductionOpFacts.
Import Sycl SyclFacts BooleanReductions BooleanReductionSpec.

Lemma int32_to_bool_of_bool (b : bool) : int32_to_bool (bool_to_int32 b) = b.
Proof. now destruct b. Qed.

Lemma reduction_op_call_bool (op : ReductionOp) (x : Z) (b : bool) :
  reduction_op_call op x (bool_to_int32 b)
  = bool_to_int32 (bool_op op (int32_to_bool x) b).
Proof. destruct op; simpl; now rewrite int32_to_bool_of_bool. Qed.

Lemma known_identity_bool (op : ReductionOp) :
  known_identity op = bool_to_int32 (bool_identity op).
Proof. now destruct op. Qed.

Lemma bool_op_identity_l (op : ReductionOp) (b : bool) :
  bool_op op (bool_identity op) b = b.
Proof. now destruct op. Qed.

Lemma bool_op_assoc (op : ReductionOp) (a b c : bool) :
  bool_op op (bool_op op a b) c = bool_op op a (bool_op op b c).
Proof. destruct op, a, b, c; reflexivity. Qed.

Section Folds.

Variable A : Type.
Variable op : ReductionOp.
Variable f : A -> bool.

Lemma reduce_spec_nil : reduce_spec op f [] = bool_identity op.
Proof. now destruct op. Qed.

Lemma reduce_spec_cons (x : A) (l : list A) :
  reduce_spec op f (x :: l) = bool_op op (f x) (reduce_spec op f l).
Proof. now destruct op. Qed.

Lemma reduce_spec_app (l1 l2 : list A) :
  reduce_spec op f (l1 ++ l2)
  = bool_op op (reduce_spec op f l1) (reduce_spec op f l2).
Proof. destruct op; simpl; [apply forallb_app | apply existsb_app]. Qed.

(** A fold of the operator over boolean codes is the code of the
    reduction. *)
Lemma fold_left_bool_op (l : list A) (b0 : bool) :
  fold_left (fun b x => bool_op op b (f x)) l b0
  = bool_op op b0 (reduce_spec op f l).
Proof.
  revert b0. induction l as [|x l IH]; intros b0; simpl.
  - rewrite reduce_spec_nil. destruct op, b0; reflexivity.
  - rewrite IH, reduce_spec_cons. apply bool_op_assoc.
Qed.

Lemma fold_left_reduction_op (l : list A) (b0 : bool) :
  fold_left (fun r x => reduction_op_call op r (bool_to_int32 (f x)))
            l (bool_to_int32 b0)
  = bool_to_int32 (bool_op op b0 (reduce_spec op f l)).
Proof.
  rewrite <- fold_left_bool_op. revert b0.
  induction l as [|x l IH]; intros b0; simpl; [reflexivity|].
  rewrite reduction_op_call_bool, int32_to_bool_of_bool. apply IH.
Qed.

Lemma fold_left_from_identity (l : list A) :
  fold_left (fun r x => reduction_op_call op r (bool_to_int32 (f x)))
            l (known_identity op)
  = bool_to_int32 (reduce_spec op f l).
Proof.
  rewrite known_identity_bool, fold_left_reduction_op.
  now rewrite bool_op_identity_l.
Qed.

End Folds.

(** The reduction only depends on the set of values of the predicate. *)
Lemma reduce_spec_same_image (A B : Type) (op : ReductionOp)
      (f : A -> bool) (g : B -> bool) (l1 : list A) (l2 : list B) :
  (forall x, In x l1 -> exists y, In y l2 /\ g y = f x) ->
  (forall y, In y l2 -> exists x, In x l1 /\ f x = g y) ->
  reduce_spec op f l1 = reduce_spec op g l2.
Proof.
  intros H12 H21. destruct op; simpl.
  - apply eq_true_iff_eq. rewrite !forallb_forall. split.
    + intros H y Hy. destruct (H21 y Hy) as (x & Hx & <-). now apply H.
    + intros H x Hx. destruct (H12 x Hx) as (y & Hy & <-). now apply H.
  - apply eq_true_iff_eq. rewrite !existsb_exists. split.
    + intros (x & Hx & Hfx). destruct (H12 x Hx) as (y & Hy & Hgy).
      exists y. split; [assumption | congruence].
    + intros (y & Hy & Hgy). destruct (H21 y Hy) as (x & Hx & Hfx).
      exists x. split; [assumption | congruence].
Qed.

Lemma reduce_spec_map (A B : Type) (op : ReductionOp) (f : B -> bool)
      (h : A -> B) (l : list A) :
  reduce_spec op f (map h l) = reduce_spec op (fun x => f (h x)) l.
Proof.
  induction l as [|x l IH]; [now destruct op|].
  simpl map. now rewrite !reduce_spec_cons, IH.
Qed.

(** A reduction of reductions is the reduction of all the parts. *)
Lemma reduce_spec_flat_map (A B : Type) (op : ReductionOp) (f : B -> bool)
      (parts : A -> list B) (l : list A) :
  reduce_spec op (fun x => reduce_spec op f (parts x)) l
  = reduce_spec op f (flat_map parts l).
Proof.
  induction l as [|x l IH]; [now destruct op|].
  simpl flat_map. now rewrite reduce_spec_cons, reduce_spec_app, IH.
Qed.

End ReductionOpFacts.

(* ------------------------------------------------------------------------- *)
(** ** Boolean reductions: execution of kernels *)

Module ExecutionFacts.
Import Sycl SyclFacts BooleanReductions BooleanReductionSpec ReductionOpFacts.

Lemma parallel_for_ext (T : Type) (b1 b2 : N -> memory T -> memory T)
      (order : list N) (m : memory T) :
  (forall id mo, b1 id mo = b2 id mo) ->
  parallel_for order b1 m = parallel_for order b2 m.
Proof.
  intros Hb. revert m. induction order as [|a l IH]; intros m; simpl.
  - reflexivity.
  - rewrite Hb. apply IH.
Qed.

(** Work-items that each store one value in one slot: whatever the order,
    a slot holds the value of the work-items that write it, when these
    agree, and the other locations keep theirs. *)
Lemma parallel_for_store (T : Type) (slot : N -> pointer) (val : N -> T)
      (order : list N) :
  forall m : memory T,
    (forall i j, In i order -> In j order -> slot i = slot j ->
                 val i = val j) ->
    let m' := parallel_for order (fun id mo => store mo (slot id) (val id)) m in
    (forall i, In i order -> load m' (slot i) = val i)
    /\ (forall p, (forall i, In i order -> p <> slot i) ->
                  load m' p = load m p).
Proof.
  induction order as [|a l IH]; intros m Hagree; simpl.
  - split; [intros i [] | reflexivity].
  - destruct (IH (store m (slot a) (val a))) as [IH1 IH2].
    { intros i j Hi Hj. apply Hagree; now right. }
    split.
    + intros i [<- | Hi]; [|now apply IH1].
      destruct (existsb (fun j => pointer_eqb (slot j) (slot a)) l) eqn:He.
      * apply existsb_exists in He. destruct He as (j & Hj & Hs).
        apply pointer_eqb_eq in Hs. pose proof (IH1 j Hj) as Hl.
        rewrite Hs in Hl. rewrite Hl.
        apply Hagree; [now right | now left | assumption].
      * rewrite IH2; [apply load_store_same|].
        intros j Hj Heq.
        assert (Ht : existsb (fun j => pointer_eqb (slot j) (slot a)) l = true).
        { apply existsb_exists. exists j. split; [assumption|].
          apply pointer_eqb_eq. congruence. }
        congruence.
    + intros p Hp. rewrite IH2.
      * apply load_store_other. apply Hp. now left.
      * intros i Hi. apply Hp. now right.
Qed.

Lemma parallel_for_result_store (slot : N -> pointer) (val : N -> Z)
      (n : N) (body : N -> memory Z -> memory Z) (m m' : memory Z) :
  (forall id mo, body id mo = store mo (slot id) (val id)) ->
  (forall i j, (i < n)%N -> (j < n)%N -> slot i = slot j -> val i = val j) ->
  parallel_for_result n body m m' ->
  (forall i, (i < n)%N -> load m' (slot i) = val i)
  /\ (forall p, (forall i, (i < n)%N -> p <> slot i) -> load m' p = load m p).
Proof.
  intros Hbody Hagree (order & Hperm & ->).
  rewrite (parallel_for_ext _ _ order m Hbody).
  assert (Hin : forall i, In i order <-> (i < n)%N).
  { intros i. rewrite <- In_iota. split; apply Permutation_in;
      [assumption | now apply Permutation_sym]. }
  destruct (parallel_for_store slot val order m) as [H1 H2].
  { intros i j Hi Hj. apply Hagree; now apply Hin. }
  split.
  - intros i Hi. apply H1. now apply Hin.
  - intros p Hp. apply H2. intros i Hi. apply Hp. now apply Hin.
Qed.

Lemma parallel_for_result_exists (n : N) (body : N -> memory Z -> memory Z)
      (m : memory Z) :
  exists m', parallel_for_result n body m m'.
Proof.
  eexists. exists (iota n). split; [apply Permutation_refl | reflexivity].
Qed.

Lemma group_eqb_eq (g h : N * N) : group_eqb g h = true <-> g = h.
Proof.
  destruct g as [g0 g1], h as [h0 h1]. unfold group_eqb. simpl.
  rewrite andb_true_iff, !N.eqb_eq. split.
  - intros [-> ->]. reflexivity.
  - intros H. injection H. auto.
Qed.

Lemma group_eqb_refl (g : N * N) : group_eqb g g = true.
Proof. now apply group_eqb_eq. Qed.

Section NdRange.

Variable op : ReductionOp.
Variable res_ref : N * N -> pointer.
Variable red_val_over_wg : N * N -> Z.

Let step := nd_step op res_ref red_val_over_wg.
Let run := nd_run op res_ref red_val_over_wg.

Lemma nd_run_snoc (schedule : list (N * N)) (g : N * N) (st : nd_state) :
  run (schedule ++ [g]) st = step (run schedule st) g.
Proof. unfold run, nd_run. now rewrite fold_left_app. Qed.

(** Under every interleaving, each location holds its first value combined
    with the values of the groups that have finished their update of it, in
    the order in which they finished. *)
Lemma nd_run_history (m : memory Z) (schedule : list (N * N)) :
  exists hist,
    (forall g, In g hist -> In g schedule)
    /\ (forall g, nd_pc (run schedule (nd_start m)) g = finished
                  <-> In g hist)
    /\ (forall p, nd_mem (run schedule (nd_start m)) p
                  = fold_left
                      (fun acc g => reduction_op_call op acc (red_val_over_wg g))
                      (updates_of res_ref p hist) (m p)).
Proof.
  induction schedule as [|g schedule IH] using rev_ind.
  - exists []. simpl. repeat split; try tauto. discriminate.
  - destruct IH as (hist & Hsub & Hfin & Hmem).
    rewrite nd_run_snoc. set (st := run schedule (nd_start m)) in *.
    unfold step, nd_step, atomic_combine_step.
    destruct (nd_pc st g) as [|read_val|] eqn:Hpc.
    + (* the load *)
      exists hist. simpl. split; [|split].
      * intros h Hh. apply in_or_app. left. now apply Hsub.
      * intros h. destruct (group_eqb h g) eqn:Hhg.
        -- apply group_eqb_eq in Hhg. subst h. split; [discriminate|].
           intros Hin. apply Hfin in Hin. congruence.
        -- apply Hfin.
      * exact Hmem.
    + destruct (load (nd_mem st) (res_ref g) =? read_val)%Z eqn:Hcas.
      * (* the exchange succeeds *)
        apply Z.eqb_eq in Hcas.
        exists (hist ++ [g]). simpl. split; [|split].
        -- intros h Hh. apply in_app_or in Hh. apply in_or_app.
           destruct Hh as [Hh | Hh]; [left; now apply Hsub | now right].
        -- intros h. rewrite in_app_iff. destruct (group_eqb h g) eqn:Hhg.
           ++ apply group_eqb_eq in Hhg. subst h. simpl. tauto.
           ++ rewrite Hfin. simpl. split; [tauto|].
              intros [Hh | [Hh | []]]; [assumption|].
              subst h. rewrite group_eqb_refl in Hhg. discriminate.
        -- intros p. unfold updates_of. rewrite filter_app, fold_left_app.
           fold (updates_of res_ref p hist). rewrite <- Hmem. simpl filter.
           unfold store. destruct (pointer_eqb p (res_ref g)) eqn:Hp.
           ++ apply pointer_eqb_eq in Hp. subst p.
              rewrite pointer_eqb_refl. simpl. rewrite <- Hcas. reflexivity.
           ++ destruct (pointer_eqb (res_ref g) p) eqn:Hp'; [|reflexivity].
              apply pointer_eqb_eq in Hp'. subst p.
              rewrite pointer_eqb_refl in Hp. discriminate.
      * (* the exchange fails and reloads *)
        exists hist. simpl. split; [|split].
        -- intros h Hh. apply in_or_app. left. now apply Hsub.
        -- intros h. destruct (group_eqb h g) eqn:Hhg.
           ++ apply group_eqb_eq in Hhg. subst h. split; [discriminate|].
              intros Hin. apply Hfin in Hin. congruence.
           ++ apply Hfin.
        -- exact Hmem.
    + (* the leader has finished *)
      exists hist. simpl. split; [|split].
      * intros h Hh. apply in_or_app. left. now apply Hsub.
      * intros h. destruct (group_eqb h g) eqn:Hhg.
        -- apply group_eqb_eq in Hhg. subst h. rewrite <- Hfin. tauto.
        -- apply Hfin.
      * exact Hmem.
Qed.

(** When the kernel has completed, the groups that have updated the output
    are the groups of the launch. *)
Lemma nd_range_result_history (groups : list (N * N)) (m m' : memory Z) :
  nd_range_result op res_ref red_val_over_wg groups m m' ->
  exists hist,
    (forall g, In g hist <-> In g groups)
    /\ (forall p, m' p
                  = fold_left
                      (fun acc g => reduction_op_call op acc (red_val_over_wg g))
                      (updates_of res_ref p hist) (m p)).
Proof.
  intros (schedule & Hsched & Hdone & ->).
  destruct (nd_run_history m schedule) as (hist & Hsub & Hfin & Hmem).
  exists hist. split; [|exact Hmem].
  intros g. split.
  - intros Hg. apply Hsched. now apply Hsub.
  - intros Hg. apply Hfin. now apply Hdone.
Qed.

Lemma nd_step_other (st : nd_state) (g h : N * N) :
  h <> g -> nd_pc (step st g) h = nd_pc st h.
Proof.
  intros Hh. unfold step, nd_step.
  destruct (atomic_combine_step _ _ _ _ _) as [pc' m']. simpl.
  destruct (group_eqb h g) eqn:Hhg; [|reflexivity].
  apply group_eqb_eq in Hhg. contradiction.
Qed.

Lemma nd_step_load (st : nd_state) (g : N * N) :
  nd_pc st g = at_load ->
  nd_pc (step st g) g = at_compare_exchange (load (nd_mem st) (res_ref g))
  /\ nd_mem (step st g) = nd_mem st.
Proof.
  intros Hpc. unfold step, nd_step, atomic_combine_step. rewrite Hpc. simpl.
  now rewrite group_eqb_refl.
Qed.

Lemma nd_step_exchange (st : nd_state) (g : N * N) :
  nd_pc st g = at_compare_exchange (load (nd_mem st) (res_ref g)) ->
  nd_pc (step st g) g = finished.
Proof.
  intros Hpc. unfold step, nd_step, atomic_combine_step. rewrite Hpc.
  rewrite Z.eqb_refl. simpl. now rewrite group_eqb_refl.
Qed.

Lemma nd_step_finished (st : nd_state) (g : N * N) :
  nd_pc st g = finished -> nd_pc (step st g) g = finished.
Proof.
  intros Hpc. unfold step, nd_step, atomic_combine_step. rewrite Hpc. simpl.
  now rewrite group_eqb_refl.
Qed.

(** Two steps of a leader that nothing interrupts complete its update. *)
Lemma nd_step_twice (st : nd_state) (g : N * N) :
  nd_pc st g = at_load \/ nd_pc st g = finished ->
  nd_pc (step (step st g) g) g = finished
  /\ (forall h, h <> g -> nd_pc (step (step st g) g) h = nd_pc st h).
Proof.
  intros Hpc. split.
  - destruct Hpc as [Hpc | Hpc].
    + destruct (nd_step_load st g Hpc) as [H1 H2].
      apply nd_step_exchange. now rewrite H2.
    + now apply nd_step_finished, nd_step_finished.
  - intros h Hh. now rewrite !nd_step_other.
Qed.

Lemma nd_run_one_by_one (groups : list (N * N)) :
  forall st,
    (forall g, nd_pc st g = at_load \/ nd_pc st g = finished) ->
    let st' := run (flat_map (fun g => [g; g]) groups) st in
    (forall g, nd_pc st' g = at_load \/ nd_pc st' g = finished)
    /\ (forall g, In g groups -> nd_pc st' g = finished)
    /\ (forall g, nd_pc st g = finished -> nd_pc st' g = finished).
Proof.
  induction groups as [|a l IH]; intros st Hst; simpl.
  - repeat split; auto. intros g [].
  - destruct (nd_step_twice st a (Hst a)) as [Ha Hother].
    assert (Hst2 : forall g, nd_pc (step (step st a) a) g = at_load \/
                             nd_pc (step (step st a) a) g = finished).
    { intros g. destruct (group_eqb g a) eqn:Hga.
      - apply group_eqb_eq in Hga. subst g. now right.
      - rewrite Hother; [apply Hst|]. intros ->.
        rewrite group_eqb_refl in Hga. discriminate. }
    destruct (IH _ Hst2) as (H1 & H2 & H3).
    split; [exact H1|]. split.
    + intros g [<- | Hg]; [now apply H3 | now apply H2].
    + intros g Hg. apply H3. destruct (group_eqb g a) eqn:Hga.
      * apply group_eqb_eq in Hga. subst g. exact Ha.
      * rewrite Hother; [exact Hg|]. intros ->.
        rewrite group_eqb_refl in Hga. discriminate.
Qed.

(** The kernel completes under some interleaving. *)
Lemma nd_range_result_exists (groups : list (N * N)) (m : memory Z) :
  exists m', nd_range_result op res_ref red_val_over_wg groups m m'.
Proof.
  eexists. exists (flat_map (fun g => [g; g]) groups).
  split; [|split; [|reflexivity]].
  - intros g Hg. apply in_flat_map in Hg. destruct Hg as (h & Hh & Hg).
    simpl in Hg. destruct Hg as [<- | [<- | []]]; assumption.
  - apply (nd_run_one_by_one groups (nd_start m)). intros g. now left.
Qed.

End NdRange.

End ExecutionFacts.

(* ------------------------------------------------------------------------- *)
(** ** Boolean reductions: the grid of the large path *)

Unset Implicit Arguments.

Module GridFacts.
Import Sycl SyclFacts BooleanReductions BooleanReductionSpec.
Local Open Scope N_scope.

Lemma ceil_div_bounds (a b : N) :
  0 < b -> a <= ceil_div a b * b /\ (0 < a -> (ceil_div a b - 1) * b < a).
Proof.
  intros Hb. unfold ceil_div.
  pose proof (N.div_mod (a + b - 1) b ltac:(lia)) as Hdm.
  pose proof (N.mod_lt (a + b - 1) b ltac:(lia)) as Hlt.
  set (c := (a + b - 1) / b) in *. set (r := (a + b - 1) mod b) in *.
  split.
  - nia.
  - intros Ha. destruct (N.eq_dec c 0) as [->|Hc]; [lia|].
    replace ((c - 1) * b) with (c * b - b) by nia. nia.
Qed.

Lemma ceil_div_unique (a b c : N) :
  0 < b -> a <= c * b -> (c - 1) * b < a -> ceil_div a b = c.
Proof.
  intros Hb Hle Hlt. unfold ceil_div.
  assert (Hc : 1 <= c) by (destruct (N.eq_dec c 0); [subst; lia | lia]).
  symmetry. apply (N.div_unique (a + b - 1) b c (a + b - 1 - b * c)).
  - nia.
  - nia.
Qed.

Section Launch.

Variables reduction_nelems wg : N.
Hypothesis wg_pos : 0 < wg.
Hypothesis large : wg <= reduction_nelems.
Hypothesis fits : reduction_nelems + 4 * wg < size_t_modulus.

Lemma reductions_per_wi_of_min :
  reductions_per_wi_of reduction_nelems wg
  = N.min 4 (ceil_div reduction_nelems wg).
Proof.
  unfold reductions_per_wi_of.
  rewrite size_mul_small by lia.
  destruct (ceil_div_bounds reduction_nelems wg wg_pos) as [H1 H2].
  specialize (H2 ltac:(lia)).
  destruct (N.ltb_spec reduction_nelems (4 * wg)) as [Hlt | Hge].
  - rewrite size_add_small by lia. rewrite size_sub_small by lia.
    fold (ceil_div reduction_nelems wg).
    assert (ceil_div reduction_nelems wg <= 4); [|lia].
    destruct (N.le_gt_cases (ceil_div reduction_nelems wg) 4); [assumption|].
    nia.
  - assert (4 <= ceil_div reduction_nelems wg); [|lia].
    destruct (N.le_gt_cases 4 (ceil_div reduction_nelems wg)); [assumption|].
    nia.
Qed.

Lemma reductions_per_wi_of_range :
  1 <= reductions_per_wi_of reduction_nelems wg <= 4.
Proof.
  rewrite reductions_per_wi_of_min.
  destruct (ceil_div_bounds reduction_nelems wg wg_pos) as [H1 H2].
  assert (1 <= ceil_div reduction_nelems wg); [|lia].
  destruct (N.eq_dec (ceil_div reduction_nelems wg) 0) as [H0|]; [|lia].
  rewrite H0 in H1. lia.
Qed.

Lemma reduction_groups_of_ceil :
  let rpw := reductions_per_wi_of reduction_nelems wg in
  reduction_groups_of reduction_nelems rpw wg
  = Some (ceil_div reduction_nelems (rpw * wg)).
Proof.
  intros rpw. pose proof reductions_per_wi_of_range as Hr. fold rpw in Hr.
  unfold reduction_groups_of.
  rewrite size_mul_small by nia.
  destruct (N.eqb_spec (rpw * wg) 0) as [H0 | _]; [nia|].
  rewrite size_add_small by nia. rewrite size_sub_small by nia.
  reflexivity.
Qed.

Lemma reduction_groups_cover :
  let rpw := reductions_per_wi_of reduction_nelems wg in
  let groups := ceil_div reduction_nelems (rpw * wg) in
  reduction_nelems <= groups * (rpw * wg)
  /\ (groups - 1) * (rpw * wg) < reduction_nelems
  /\ 1 <= groups
  /\ groups * wg < size_t_modulus.
Proof.
  intros rpw groups. pose proof reductions_per_wi_of_range as Hr.
  fold rpw in Hr.
  destruct (ceil_div_bounds reduction_nelems (rpw * wg) ltac:(nia))
    as [H1 H2].
  fold groups in H1, H2. specialize (H2 ltac:(lia)).
  assert (Hg : 1 <= groups).
  { destruct (N.eq_dec groups 0) as [H0|]; [rewrite H0 in H1; lia | lia]. }
  repeat split; try assumption.
  assert (groups * (rpw * wg) = (groups - 1) * (rpw * wg) + rpw * wg) by nia.
  nia.
Qed.

(** Every reduction index is one of the indices of some work-item. *)
Lemma reduction_index_assigned (m : N) :
  let rpw := reductions_per_wi_of reduction_nelems wg in
  let groups := ceil_div reduction_nelems (rpw * wg) in
  m < reduction_nelems ->
  exists bid lid j,
    bid < groups /\ lid < wg /\ j < rpw /\ m = lid + bid * wg * rpw + j * wg.
Proof.
  intros rpw groups Hm. pose proof reductions_per_wi_of_range as Hr.
  fold rpw in Hr.
  destruct reduction_groups_cover as (Hcov & _ & _ & _).
  fold rpw in Hcov. fold groups in Hcov.
  pose proof (N.div_mod m (rpw * wg) ltac:(nia)) as Hdm.
  pose proof (N.mod_lt m (rpw * wg) ltac:(nia)) as Hlt.
  set (bid := m / (rpw * wg)) in *. set (r := m mod (rpw * wg)) in *.
  pose proof (N.div_mod r wg ltac:(lia)) as Hdm2.
  pose proof (N.mod_lt r wg ltac:(lia)) as Hlt2.
  set (j := r / wg) in *. set (lid := r mod wg) in *.
  exists bid, lid, j. repeat split.
  - destruct (N.lt_ge_cases bid groups); [assumption|]. nia.
  - assumption.
  - destruct (N.lt_ge_cases j rpw); [assumption|]. nia.
  - nia.
Qed.

End Launch.

End GridFacts.

(* ------------------------------------------------------------------------- *)
(** ** Boolean reductions: what the work-groups read *)

Module KernelFacts.
Import Sycl SyclFacts BooleanReductions BooleanReductionSpec ReductionOpFacts.
Import GridFacts.
Local Open Scope N_scope.

Section Grid.

Variables iter_nelems reduction_nelems wg : N.
Hypothesis wg_pos : 0 < wg.
Hypothesis large : wg <= reduction_nelems.
Hypothesis fits : reduction_nelems + 4 * wg < size_t_modulus.
Hypothesis fits_all : iter_nelems * reduction_nelems + 4 * wg < size_t_modulus.

Let rpw := reductions_per_wi_of reduction_nelems wg.
Let groups := ceil_div reduction_nelems (rpw * wg).

Lemma rpw_range : 1 <= rpw <= 4.
Proof. apply reductions_per_wi_of_range; assumption. Qed.

Lemma groups_cover :
  reduction_nelems <= groups * (rpw * wg)
  /\ (groups - 1) * (rpw * wg) < reduction_nelems
  /\ 1 <= groups.
Proof.
  destruct (reduction_groups_cover reduction_nelems wg wg_pos large fits)
    as (H1 & H2 & H3 & _).
  auto.
Qed.

(** The first index of group [bid] is in the row. *)
Lemma batch_start_in_row (bid : N) :
  bid < groups -> bid * (rpw * wg) < reduction_nelems.
Proof.
  intros Hb. destruct groups_cover as (_ & H2 & _).
  pose proof rpw_range.
  assert (bid * (rpw * wg) <= (groups - 1) * (rpw * wg)).
  { apply N.mul_le_mono_r. lia. }
  lia.
Qed.

Lemma row_in_array (rid : N) :
  rid < iter_nelems ->
  rid * reduction_nelems + reduction_nelems <= iter_nelems * reduction_nelems.
Proof. intros Hr. nia. Qed.

Section Contig.

Variable k : ContigBooleanReduction.
Hypothesis k_size : contig_reduction_max_gid_ k = reduction_nelems.
Hypothesis k_rpw : contig_reductions_per_wi k = rpw.

Lemma contig_start_eq (rid bid lid : N) :
  rid < iter_nelems -> bid < groups ->
  ContigBooleanReduction_start k (item_of (rid, bid) lid wg)
  = rid * reduction_nelems + bid * (rpw * wg).
Proof.
  intros Hr Hb. unfold ContigBooleanReduction_start. simpl.
  rewrite k_size, k_rpw.
  pose proof (row_in_array rid Hr). pose proof (batch_start_in_row bid Hb).
  pose proof rpw_range.
  assert (bid * wg <= bid * (rpw * wg)) by nia.
  rewrite (size_mul_small rid) by lia.
  rewrite (size_mul_small bid) by lia.
  rewrite size_mul_small by nia.
  rewrite size_add_small by nia.
  nia.
Qed.

Lemma contig_end_eq (rid bid lid : N) :
  rid < iter_nelems -> bid < groups ->
  ContigBooleanReduction_end k (item_of (rid, bid) lid wg)
  = N.min (rid * reduction_nelems + bid * (rpw * wg) + rpw * wg)
          (rid * reduction_nelems + reduction_nelems).
Proof.
  intros Hr Hb. unfold ContigBooleanReduction_end.
  rewrite contig_start_eq by assumption. simpl.
  rewrite k_size, k_rpw.
  pose proof (row_in_array rid Hr). pose proof (batch_start_in_row bid Hb).
  pose proof rpw_range.
  rewrite (size_mul_small rid) by lia.
  rewrite (size_mul_small rpw) by nia.
  rewrite !size_add_small by nia.
  reflexivity.
Qed.

(** A group reads a non-empty range of its row. *)
Lemma contig_reads_spec (rid bid lid i : N) :
  rid < iter_nelems -> bid < groups ->
  In i (ContigBooleanReduction_reads k (item_of (rid, bid) lid wg))
  <-> rid * reduction_nelems + bid * (rpw * wg) <= i
      /\ i < rid * reduction_nelems + bid * (rpw * wg) + rpw * wg
      /\ i < rid * reduction_nelems + reduction_nelems.
Proof.
  intros Hr Hb. unfold ContigBooleanReduction_reads.
  rewrite In_index_range, contig_start_eq, contig_end_eq by assumption.
  lia.
Qed.

Lemma contig_range_nonempty (rid bid lid : N) :
  rid < iter_nelems -> bid < groups ->
  ContigBooleanReduction_start k (item_of (rid, bid) lid wg)
  < ContigBooleanReduction_end k (item_of (rid, bid) lid wg).
Proof.
  intros Hr Hb. rewrite contig_start_eq, contig_end_eq by assumption.
  pose proof (batch_start_in_row bid Hb). pose proof rpw_range. nia.
Qed.

(** The groups of a row read the row, all of it. *)
Lemma contig_row_covered (rid i : N) :
  rid < iter_nelems ->
  (exists bid, bid < groups /\
               In i (ContigBooleanReduction_reads
                       k (item_of (rid, bid) 0 wg)))
  <-> rid * reduction_nelems <= i < rid * reduction_nelems + reduction_nelems.
Proof.
  intros Hr. split.
  - intros (bid & Hb & Hi). apply contig_reads_spec in Hi; try assumption.
    lia.
  - intros Hi. pose proof rpw_range as Hrpw.
    assert (Hm : exists m, i = rid * reduction_nelems + m
                           /\ m < reduction_nelems).
    { exists (i - rid * reduction_nelems). lia. }
    destruct Hm as (m & -> & Hm).
    assert (HX : 0 < rpw * wg) by nia.
    set (X := rpw * wg) in *.
    pose proof (N.div_mod m X ltac:(lia)) as Hdm.
    pose proof (N.mod_lt m X ltac:(lia)) as Hlt.
    destruct groups_cover as (Hcov & _ & _). fold X in Hcov.
    set (q := m / X) in *. set (r := m mod X) in *.
    exists q.
    assert (Hb : q < groups).
    { destruct (N.lt_ge_cases q groups); [assumption|].
      assert (groups * X <= q * X) by (apply N.mul_le_mono_r; assumption).
      lia. }
    split; [assumption|]. apply contig_reads_spec; try assumption.
    fold X. lia.
Qed.

End Contig.

Section Strided.

Variable argT : Type.
Variable convert_impl_bool : argT -> bool.
Variable mi : memory argT.
Variable k : StridedBooleanReduction.
Hypothesis k_size : strided_reduction_max_gid_ k = reduction_nelems.
Hypothesis k_rpw : strided_reductions_per_wi k = rpw.
Hypothesis k_identity :
  strided_identity_ k = known_identity (strided_reduction_op_ k).

Let lane_gids := lane_gids_of rpw wg.
Let lane_pred := lane_pred_of convert_impl_bool mi k.
Let lane_reads := lane_reads_of reduction_nelems rpw wg.

Lemma strided_gid_eq (bid lid m : N) :
  bid < groups -> lid < wg -> m < rpw ->
  size_add (size_add lid (size_mul (size_mul bid wg) rpw)) (size_mul m wg)
  = lid + bid * (rpw * wg) + m * wg.
Proof.
  intros Hb Hl Hm. pose proof (batch_start_in_row bid Hb). pose proof rpw_range.
  assert (bid * wg <= bid * (rpw * wg)) by nia.
  rewrite (size_mul_small bid) by lia.
  rewrite (size_mul_small (bid * wg)) by nia.
  rewrite (size_mul_small m) by nia.
  rewrite (size_add_small lid) by nia.
  rewrite size_add_small by nia.
  nia.
Qed.

Lemma strided_fold (rid bid lid : N) (l : list N) :
  bid < groups -> lid < wg ->
  (forall m, In m l -> m < rpw) ->
  forall (b0 : bool) (reads0 : list N),
    fold_left
      (fun (acc : Z * list N) m =>
         let (local_red_val, reads) := acc in
         let arg_reduce_gid :=
           size_add (size_add lid (size_mul (size_mul bid wg) rpw))
                    (size_mul m wg) in
         if arg_reduce_gid <? reduction_nelems then
           (reduction_op_call
              (strided_reduction_op_ k) local_red_val
              (bool_to_int32
                 (convert_impl_bool
                    (load mi (ptr_add (strided_inp_ k)
                                (fst (strided_inp_out_iter_indexer_ k rid)
                                 + strided_inp_reduced_dims_indexer_
                                     k arg_reduce_gid)%Z)))),
            reads ++ [arg_reduce_gid])
         else acc)
      l (bool_to_int32 b0, reads0)
    = (bool_to_int32
         (bool_op (strided_reduction_op_ k) b0
                  (reduce_spec (strided_reduction_op_ k) (lane_pred rid)
                     (filter (fun gid => gid <? reduction_nelems)
                        (map (fun m => lid + bid * (rpw * wg) + m * wg) l)))),
       reads0 ++ filter (fun gid => gid <? reduction_nelems)
                        (map (fun m => lid + bid * (rpw * wg) + m * wg) l)).
Proof.
  intros Hb Hl. induction l as [|m l IH]; intros Hin b0 reads0.
  - simpl. rewrite reduce_spec_nil, app_nil_r.
    now destruct (strided_reduction_op_ k), b0.
  - simpl fold_left. simpl map. simpl filter.
    rewrite (strided_gid_eq bid lid m Hb Hl) by (apply Hin; now left).
    destruct (lid + bid * (rpw * wg) + m * wg <? reduction_nelems) eqn:Hlt.
    + rewrite reduction_op_call_bool, int32_to_bool_of_bool.
      rewrite IH by (intros m' Hm'; apply Hin; now right).
      rewrite reduce_spec_cons, <- bool_op_assoc, <- app_assoc.
      reflexivity.
    + apply IH. intros m' Hm'. apply Hin. now right.
Qed.

(** A work-item's local value is the reduction of the elements it read,
    and it read the indices of its lane that are in the row. *)
Lemma strided_local_spec (rid bid lid : N) :
  bid < groups -> lid < wg ->
  StridedBooleanReduction_local convert_impl_bool k mi
                                (item_of (rid, bid) lid wg)
  = (bool_to_int32
       (reduce_spec (strided_reduction_op_ k) (lane_pred rid)
                    (lane_reads bid lid)),
     lane_reads bid lid).
Proof.
  intros Hb Hl. unfold StridedBooleanReduction_local. simpl.
  rewrite k_size, k_rpw, k_identity, known_identity_bool.
  rewrite (strided_fold rid bid lid (iota rpw) Hb Hl)
    by (intros m Hm; now apply In_iota).
  rewrite bool_op_identity_l. reflexivity.
Qed.

Lemma lane_reads_spec (bid lid gid : N) :
  In gid (lane_reads bid lid)
  <-> gid < reduction_nelems
      /\ exists m, m < rpw /\ gid = lid + bid * (rpw * wg) + m * wg.
Proof.
  unfold lane_reads, lane_reads_of, lane_gids_of.
  rewrite filter_In, in_map_iff, N.ltb_lt.
  split.
  - intros [(m & <- & Hm) Hlt]. apply In_iota in Hm. eauto.
  - intros [Hlt (m & Hm & ->)]. split; [|assumption].
    exists m. split; [reflexivity | now apply In_iota].
Qed.

(** The work-items of the groups of a row read every index of the row, and
    no other. *)
Lemma strided_row_covered (gid : N) :
  (exists bid, bid < groups /\
               exists lid, lid < wg /\ In gid (lane_reads bid lid))
  <-> gid < reduction_nelems.
Proof.
  split.
  - intros (bid & _ & lid & _ & Hin). now apply lane_reads_spec in Hin.
  - intros Hlt.
    destruct (reduction_index_assigned reduction_nelems wg wg_pos large fits
                                       gid Hlt)
      as (bid & lid & j & Hb & Hl & Hj & Heq).
    exists bid. split; [exact Hb|]. exists lid. split; [exact Hl|].
    apply lane_reads_spec. split; [exact Hlt|].
    exists j. split; [exact Hj|]. fold rpw in Heq. lia.
Qed.

End Strided.

End Grid.

End KernelFacts.

(* ------------------------------------------------------------------------- *)
(** ** Boolean reductions: the outputs of the two paths *)

Module PathFacts.
Import Sycl SyclFacts BooleanReductions BooleanReductionSpec ReductionOpFacts.
Import ExecutionFacts GridFacts KernelFacts.

Lemma fold_left_ext_in (A B : Type) (F G : A -> B -> A) (l : list B) :
  (forall x a, In x l -> F a x = G a x) ->
  forall a, fold_left F l a = fold_left G l a.
Proof.
  induction l as [|x l IH]; intros H a; simpl; [reflexivity|].
  rewrite (H x a) by now left.
  apply IH. intros y b Hy. apply H. now right.
Qed.

Lemma filter_none (A : Type) (f : A -> bool) (l : list A) :
  (forall x, In x l -> f x = false) -> filter f l = [].
Proof.
  induction l as [|x l IH]; intros H; simpl; [reflexivity|].
  rewrite (H x) by now left. apply IH. intros y Hy. apply H. now right.
Qed.

Lemma reduce_spec_same_elements (A : Type) (op : ReductionOp) (f : A -> bool)
      (l1 l2 : list A) :
  (forall x, In x l1 <-> In x l2) ->
  reduce_spec op f l1 = reduce_spec op f l2.
Proof.
  intros H. apply reduce_spec_same_image.
  - intros x Hx. exists x. split; [now apply H | reflexivity].
  - intros x Hx. exists x. split; [now apply H | reflexivity].
Qed.

Lemma reduce_spec_ext_in (A : Type) (op : ReductionOp) (f g : A -> bool)
      (l : list A) :
  (forall x, In x l -> f x = g x) ->
  reduce_spec op f l = reduce_spec op g l.
Proof.
  intros H. apply reduce_spec_same_image.
  - intros x Hx. exists x. split; [assumption | symmetry; now apply H].
  - intros x Hx. exists x. split; [assumption | now apply H].
Qed.

(** Two output memories that are both the expected one are equal. *)
Lemma reduction_outputs_unique (argT : Type) (conv : argT -> bool)
      (op : ReductionOp) (mi : memory argT) (inp out : pointer)
      (inp_offset out_offset red_offset : N -> Z) (iter_nelems n : N)
      (m m1 m2 : memory Z) :
  reduction_outputs conv op mi inp out inp_offset out_offset red_offset
                    iter_nelems n m m1 ->
  reduction_outputs conv op mi inp out inp_offset out_offset red_offset
                    iter_nelems n m m2 ->
  forall p, load m1 p = load m2 p.
Proof.
  intros [H1 F1] [H2 F2] p.
  destruct (existsb (fun id => pointer_eqb p (ptr_add out (out_offset id)))
                    (iota iter_nelems)) eqn:He.
  - apply existsb_exists in He. destruct He as (id & Hid & Hp).
    apply In_iota in Hid. apply pointer_eqb_eq in Hp. subst p.
    now rewrite H1, H2.
  - assert (Hp : forall id, (id < iter_nelems)%N ->
                            p <> ptr_add out (out_offset id)).
    { intros id Hid Heq.
      assert (Ht : existsb (fun id => pointer_eqb p (ptr_add out (out_offset id)))
                           (iota iter_nelems) = true).
      { apply existsb_exists. exists id. split; [now apply In_iota|].
        now apply pointer_eqb_eq. }
      congruence. }
    now rewrite F1, F2.
Qed.

Section TwoPhase.

Variable op : ReductionOp.
Variable out : pointer.
Variable out_offset : N -> Z.
Variables iter_nelems reduction_groups : N.
Variable groups : list (N * N).
Variable res_ref : N * N -> pointer.
Variable red_val_over_wg : N * N -> Z.
Variable A : Type.
Variable pred : N -> A -> bool.
Variable parts : N * N -> list A.
Variable whole : N -> list A.

Hypothesis groups_spec :
  forall g, In g groups <-> (fst g < iter_nelems /\ snd g < reduction_groups)%N.
Hypothesis out_offset_inj :
  forall i j, (i < iter_nelems)%N -> (j < iter_nelems)%N ->
              out_offset i = out_offset j -> i = j.
Hypothesis res_ref_spec :
  forall g, In g groups -> res_ref g = ptr_add out (out_offset (fst g)).
Hypothesis red_val_spec :
  forall g, In g groups ->
            red_val_over_wg g
            = bool_to_int32 (reduce_spec op (pred (fst g)) (parts g)).
Hypothesis parts_cover :
  forall rid, (rid < iter_nelems)%N ->
              forall x, (exists bid, (bid < reduction_groups)%N /\
                                     In x (parts (rid, bid)))
                        <-> In x (whole rid).

(** The outputs of the initialisation kernel followed by the reduction
    kernel. *)
Lemma two_phase_outputs (m m1 m2 : memory Z) :
  (forall id, (id < iter_nelems)%N ->
              load m1 (ptr_add out (out_offset id)) = known_identity op) ->
  (forall p, (forall id, (id < iter_nelems)%N ->
                         p <> ptr_add out (out_offset id)) ->
             load m1 p = load m p) ->
  nd_range_result op res_ref red_val_over_wg groups m1 m2 ->
  (forall id, (id < iter_nelems)%N ->
              load m2 (ptr_add out (out_offset id))
              = bool_to_int32 (reduce_spec op (pred id) (whole id)))
  /\ (forall p, (forall id, (id < iter_nelems)%N ->
                            p <> ptr_add out (out_offset id)) ->
                load m2 p = load m p).
Proof.
  intros Hinit Hframe Hnd.
  destruct (nd_range_result_history Hnd) as (hist & Hhist & Hm2).
  split.
  - intros id Hid. unfold load in *. rewrite Hm2, Hinit by assumption.
    set (p := ptr_add out (out_offset id)).
    assert (HL : forall g, In g (updates_of res_ref p hist) ->
                           In g groups /\ fst g = id).
    { intros g Hg. apply filter_In in Hg. destruct Hg as [Hg Hp].
      apply Hhist in Hg. split; [assumption|].
      apply pointer_eqb_eq in Hp. rewrite (res_ref_spec g Hg) in Hp.
      apply ptr_add_inj in Hp. apply out_offset_inj; try assumption.
      now apply groups_spec in Hg. }
    rewrite (fold_left_ext_in
               _ _
               (fun acc g => reduction_op_call op acc (red_val_over_wg g))
               (fun acc g =>
                  reduction_op_call
                    op acc
                    (bool_to_int32 (reduce_spec op (pred id) (parts g))))).
    2:{ intros g acc Hg. destruct (HL g Hg) as [Hin Hfst].
        rewrite (red_val_spec g Hin), Hfst. reflexivity. }
    rewrite (fold_left_from_identity
               op (fun g => reduce_spec op (pred id) (parts g))).
    f_equal. rewrite reduce_spec_flat_map.
    apply reduce_spec_same_elements. intros x.
    rewrite <- (parts_cover id Hid), in_flat_map. split.
    + intros (g & Hg & Hx). destruct (HL g Hg) as [Hin Hfst].
      exists (snd g). split; [now apply groups_spec in Hin|].
      rewrite <- Hfst, <- surjective_pairing. exact Hx.
    + intros (bid & Hb & Hx). exists (id, bid). split; [|exact Hx].
      apply filter_In. split.
      * apply Hhist, groups_spec. simpl. auto.
      * apply pointer_eqb_eq. rewrite res_ref_spec; [reflexivity|].
        apply groups_spec. simpl. auto.
  - intros p Hp. unfold load in *. rewrite Hm2.
    unfold updates_of. rewrite filter_none.
    + simpl. now apply Hframe.
    + intros g Hg. apply Hhist in Hg. apply pointer_eqb_neq.
      rewrite (res_ref_spec g Hg). intros Heq. symmetry in Heq. revert Heq.
      apply Hp. now apply groups_spec in Hg.
Qed.

End TwoPhase.

Section Launches.

Variable argT : Type.
Variable convert_impl_bool : argT -> bool.
Variable argT_of_int32 : Z -> argT.
Variable mi : memory argT.

Let outputs := launch_outputs convert_impl_bool argT_of_int32 mi.
Let exec := exec_work convert_impl_bool argT_of_int32 mi.

Lemma position_head (e : event) (rest : list event) :
  position e (e :: rest) = Some 0%nat.
Proof. simpl. now rewrite Nat.eqb_refl. Qed.

Lemma position_second (e e' : event) (rest : list event) :
  e' <> e -> position e (e' :: e :: rest) = Some 1%nat.
Proof.
  intros Hne. simpl. apply Nat.eqb_neq in Hne. rewrite Hne.
  now rewrite Nat.eqb_refl.
Qed.

(** One command group submitted: it is what runs. *)
Lemma launch_single_inv (q q' : queue reduction_work)
      (c : command_group reduction_work) (m m' : memory Z) :
  submitted q' = submitted q ++ [c] ->
  outputs q q' m m' -> exec (cg_work c) m m'.
Proof.
  intros Hsub. set (base := length (submitted q)).
  assert (Hlen : (length (submitted q') - base = 1)%nat).
  { rewrite Hsub, length_app. simpl. unfold base. lia. }
  assert (Hnth : nth_error (submitted q') base = Some c).
  { rewrite Hsub. apply nth_error_snoc. }
  intros (order & [Hperm _] & Hexec). fold base in Hperm.
  rewrite Hlen in Hperm. simpl in Hperm.
  apply Permutation_sym, Permutation_length_1_inv in Hperm. subst order.
  simpl in Hexec. destruct Hexec as (cg & m1 & Hcg & Hw & ->).
  rewrite Hnth in Hcg. injection Hcg as <-. exact Hw.
Qed.

Lemma launch_single_intro (q q' : queue reduction_work)
      (c : command_group reduction_work) (m m' : memory Z) :
  submitted q' = submitted q ++ [c] ->
  Forall (fun d => (d < length (submitted q))%nat) (depends_on c) ->
  exec (cg_work c) m m' -> outputs q q' m m'.
Proof.
  intros Hsub. set (base := length (submitted q)).
  assert (Hlen : (length (submitted q') - base = 1)%nat).
  { rewrite Hsub, length_app. simpl. unfold base. lia. }
  assert (Hnth : nth_error (submitted q') base = Some c).
  { rewrite Hsub. apply nth_error_snoc. }
  intros Hdeps Hw. exists [base]. split.
  - split.
    + fold base. rewrite Hlen. apply Permutation_refl.
    + intros e cg [<- | []] Hcg d Hd Hle. rewrite Hnth in Hcg.
      injection Hcg as <-. rewrite Forall_forall in Hdeps.
      specialize (Hdeps d Hd). fold base in Hdeps, Hle. lia.
  - simpl. exists c, m'. auto.
Qed.

Section Pair.

Variables q q' : queue reduction_work.
Variables c1 c2 : command_group reduction_work.
Hypothesis Hsub : submitted q' = (submitted q ++ [c1]) ++ [c2].
Hypothesis Hdep2 : depends_on c2 = [length (submitted q)].

Let base := length (submitted q).

Lemma pair_length : (length (submitted q') - base = 2)%nat.
Proof. rewrite Hsub, !length_app. simpl. unfold base. lia. Qed.

Lemma pair_first : nth_error (submitted q') base = Some c1.
Proof.
  rewrite Hsub, nth_error_app1 by (rewrite length_app; simpl; lia).
  apply nth_error_snoc.
Qed.

Lemma pair_second : nth_error (submitted q') (S base) = Some c2.
Proof.
  rewrite Hsub.
  replace (S base) with (length (submitted q ++ [c1]))
    by (rewrite length_app; simpl; unfold base; lia).
  apply nth_error_snoc.
Qed.

(** Two command groups submitted, the second depending on the first: they
    run one after the other. *)
Lemma launch_pair_inv (m m' : memory Z) :
  outputs q q' m m' ->
  exists m1, exec (cg_work c1) m m1 /\ exec (cg_work c2) m1 m'.
Proof.
  intros (order & [Hperm Hdeps] & Hexec). fold base in Hperm, Hdeps.
  rewrite pair_length in Hperm. simpl in Hperm.
  apply Permutation_sym, Permutation_length_2_inv in Hperm.
  destruct Hperm as [-> | ->].
  - cbn [exec_order] in Hexec.
    destruct Hexec as (cg1 & m1 & Hcg1 & Hw1 & cg2 & m2 & Hcg2 & Hw2 & ->).
    rewrite pair_first in Hcg1. rewrite pair_second in Hcg2.
    injection Hcg1 as <-. injection Hcg2 as <-. eauto.
  - exfalso.
    destruct (Hdeps (S base) c2 ltac:(now left) pair_second base) as
        (i & j & Hi & Hj & Hij).
    + rewrite Hdep2. now left.
    + lia.
    + rewrite position_second in Hi by lia. rewrite position_head in Hj.
      injection Hi as <-. injection Hj as <-. lia.
Qed.

Lemma launch_pair_intro (m m1 m' : memory Z) :
  Forall (fun d => (d < length (submitted q))%nat) (depends_on c1) ->
  exec (cg_work c1) m m1 -> exec (cg_work c2) m1 m' ->
  outputs q q' m m'.
Proof.
  intros Hfresh Hw1 Hw2. exists [base; S base]. split.
  - split.
    + fold base. rewrite pair_length. apply Permutation_refl.
    + intros e cg [<- | [<- | []]] Hcg d Hd Hle.
      * rewrite pair_first in Hcg. injection Hcg as <-.
        rewrite Forall_forall in Hfresh. specialize (Hfresh d Hd).
        fold base in Hle. lia.
      * rewrite pair_second in Hcg. injection Hcg as <-.
        rewrite Hdep2 in Hd. destruct Hd as [<- | []].
        exists 0%nat, 1%nat. fold base. rewrite position_head.
        rewrite position_second by lia. auto.
  - cbn [exec_order]. exists c1, m1. rewrite pair_first.
    split; [reflexivity|]. split; [assumption|].
    exists c2, m'. rewrite pair_second. auto.
Qed.

End Pair.

(** The sequential kernel stores the reduction of its row. *)
Lemma seq_call_store (k : SequentialBooleanReduction) (id : N)
      (mo : memory Z) :
  seq_identity_ k = known_identity (seq_reduction_op_ k) ->
  SequentialBooleanReduction_call convert_impl_bool k mi id mo
  = store mo
          (ptr_add (seq_out_ k) (snd (seq_inp_out_iter_indexer_ k id)))
          (reference convert_impl_bool (seq_reduction_op_ k) mi (seq_inp_ k)
             (map (fun j => (fst (seq_inp_out_iter_indexer_ k id)
                             + seq_inp_reduced_dims_indexer_ k j)%Z)
                  (iota (seq_reduction_max_gid_ k)))).
Proof.
  intros Hid. unfold SequentialBooleanReduction_call, reference. cbv zeta.
  f_equal. rewrite Hid.
  rewrite (fold_left_from_identity
             (seq_reduction_op_ k)
             (fun m =>
                convert_impl_bool
                  (load mi (ptr_add (seq_inp_ k)
                              (fst (seq_inp_out_iter_indexer_ k id)
                               + seq_inp_reduced_dims_indexer_ k m)%Z)))).
  now rewrite reduce_spec_map.
Qed.

Lemma seq_outputs (k : SequentialBooleanReduction) (iter_nelems : N)
      (m m' : memory Z) :
  seq_identity_ k = known_identity (seq_reduction_op_ k) ->
  (forall i j, (i < iter_nelems)%N -> (j < iter_nelems)%N ->
               snd (seq_inp_out_iter_indexer_ k i)
               = snd (seq_inp_out_iter_indexer_ k j) ->
               i = j \/ seq_reduction_max_gid_ k = 0%N) ->
  parallel_for_result iter_nelems
                      (SequentialBooleanReduction_call convert_impl_bool k mi)
                      m m' ->
  reduction_outputs convert_impl_bool (seq_reduction_op_ k) mi
                    (seq_inp_ k) (seq_out_ k)
                    (fun id => fst (seq_inp_out_iter_indexer_ k id))
                    (fun id => snd (seq_inp_out_iter_indexer_ k id))
                    (seq_inp_reduced_dims_indexer_ k)
                    iter_nelems (seq_reduction_max_gid_ k) m m'.
Proof.
  intros Hid Hagree Hrun. unfold reduction_outputs.
  apply (parallel_for_result_store
           (fun id => ptr_add (seq_out_ k)
                              (snd (seq_inp_out_iter_indexer_ k id)))
           (fun id =>
              reference convert_impl_bool (seq_reduction_op_ k) mi
                        (seq_inp_ k)
                        (map (fun j => (fst (seq_inp_out_iter_indexer_ k id)
                                        + seq_inp_reduced_dims_indexer_ k j)%Z)
                             (iota (seq_reduction_max_gid_ k))))
           (body := SequentialBooleanReduction_call convert_impl_bool k mi)).
  - intros id mo. now apply seq_call_store.
  - intros i j Hi Hj Hs. apply ptr_add_inj in Hs.
    destruct (Hagree i j Hi Hj Hs) as [-> | H0]; [reflexivity|].
    rewrite H0. reflexivity.
  - exact Hrun.
Qed.

(** The initialisation kernel stores the identity in every slot. *)
Lemma init_outputs (res_tp : pointer) (res_indexer : N -> Z) (v : Z)
      (iter_nelems : N) (m m1 : memory Z) :
  parallel_for_result
    iter_nelems
    (fun id mo => let res_offset := res_indexer id in
                  store mo (ptr_add res_tp res_offset) v)
    m m1 ->
  (forall id, (id < iter_nelems)%N ->
              load m1 (ptr_add res_tp (res_indexer id)) = v)
  /\ (forall p, (forall id, (id < iter_nelems)%N ->
                            p <> ptr_add res_tp (res_indexer id)) ->
                load m1 p = load m p).
Proof.
  intros Hrun.
  apply (parallel_for_result_store
           (fun id => ptr_add res_tp (res_indexer id))
           (fun _ => v)
           (body := fun id mo => let res_offset := res_indexer id in
                                 store mo (ptr_add res_tp res_offset) v)).
  - reflexivity.
  - reflexivity.
  - exact Hrun.
Qed.

End Launches.

Lemma reduction_outputs_ext (argT : Type) (conv : argT -> bool)
      (op : ReductionOp) (mi : memory argT) (inp out : pointer)
      (in1 out1 red1 in2 out2 red2 : N -> Z) (iter_nelems n : N)
      (m m' : memory Z) :
  (forall id j, (id < iter_nelems)%N -> (j < n)%N ->
                (in1 id + red1 j = in2 id + red2 j)%Z) ->
  (forall id, (id < iter_nelems)%N -> out1 id = out2 id) ->
  reduction_outputs conv op mi inp out in1 out1 red1 iter_nelems n m m' ->
  reduction_outputs conv op mi inp out in2 out2 red2 iter_nelems n m m'.
Proof.
  intros Hin Hout [H1 H2]. split.
  - intros id Hid. rewrite <- (Hout id Hid), (H1 id Hid).
    unfold reference. f_equal. f_equal. apply map_ext_in.
    intros j Hj. apply Hin; [assumption | now apply In_iota].
  - intros p Hp. apply H2. intros id Hid. rewrite (Hout id Hid).
    now apply Hp.
Qed.

Lemma nd_groups_spec (iter_nelems reduction_groups wg : N) (g : N * N) :
  (0 < wg)%N -> (reduction_groups * wg < size_t_modulus)%N ->
  In g (nd_groups iter_nelems (size_mul reduction_groups wg) 1 wg)
  <-> (fst g < iter_nelems /\ snd g < reduction_groups)%N.
Proof.
  intros Hwg Hfit. unfold nd_groups. destruct g as [g0 g1].
  rewrite in_prod_iff, !In_iota, size_mul_small by assumption.
  rewrite N.div_1_r, N.div_mul by lia. reflexivity.
Qed.

Lemma size_to_ssize_small (n : N) :
  (n < 2 ^ 63)%N -> size_to_ssize n = Z.of_N n.
Proof.
  intros Hn. unfold size_to_ssize.
  destruct (N.ltb_spec n (2 ^ 63)); [reflexivity | lia].
Qed.

Lemma contig_group_op_call_spec (argT : Type) (conv : argT -> bool)
      (r : reduction) (mi : memory argT) (inp : pointer) (start end_ : N) :
  contig_group_op_call conv (ContigGroupOpT r) mi inp start end_
  = bool_to_int32
      (reduce_spec (RedOpT r)
                   (fun i => conv (load mi (ptr_add inp (Z.of_N i))))
                   (index_range start end_)).
Proof.
  unfold contig_group_op_call.
  destruct r; simpl; f_equal.
  - apply (reduce_spec_map logical_and conv).
  - apply (reduce_spec_map logical_or conv).
Qed.

Section ContigImpl.

Local Open Scope N_scope.

Variable argT : Type.
Variable convert_impl_bool : argT -> bool.
Variable argT_of_int32 : Z -> argT.
Variable mi : memory argT.
Variable r : reduction.
Variable exec_q : queue reduction_work.
Variables iter_nelems reduction_nelems : N.
Variables arg_cp res_cp : pointer.
Variables iter_arg_offset iter_res_offset red_arg_offset : Z.
Variable depends : list event.
Variable max_sg : N.

Hypothesis max_sg_spec :
  max_element (sub_group_sizes (get_device exec_q)) = Some max_sg.
Hypothesis max_sg_pos : 0 < max_sg.
Hypothesis fits : reduction_nelems + 16 * max_sg < size_t_modulus.
Hypothesis fits_all :
  iter_nelems * reduction_nelems + 16 * max_sg < size_t_modulus.

Let arg_tp := ptr_add (ptr_add arg_cp iter_arg_offset) red_arg_offset.
Let res_tp := ptr_add res_cp iter_res_offset.
Let wg := 4 * max_sg.
Let rpw := reductions_per_wi_of reduction_nelems wg.
Let launched :=
  boolean_reduction_contig_impl
    (RedOpT r) (ContigGroupOpT r) exec_q iter_nelems reduction_nelems
    arg_cp res_cp iter_arg_offset iter_res_offset red_arg_offset depends.
Let outputs := launch_outputs convert_impl_bool argT_of_int32 mi.

Let seq_kernel : SequentialBooleanReduction :=
  {| seq_inp_ := arg_tp;
     seq_out_ := res_tp;
     seq_reduction_op_ := RedOpT r;
     seq_identity_ := known_identity (RedOpT r);
     seq_inp_out_iter_indexer_ :=
       TwoOffsets_CombinedIndexer
         (Strided1DIndexer 0 (size_to_ssize iter_nelems)
                           (size_to_ssize reduction_nelems))
         NoOpIndexer;
     seq_inp_reduced_dims_indexer_ := NoOpIndexer;
     seq_reduction_max_gid_ := reduction_nelems |}.

Let contig_kernel : ContigBooleanReduction :=
  {| contig_inp_ := arg_tp;
     contig_out_ := res_tp;
     contig_reduction_op_ := RedOpT r;
     contig_group_op_ := ContigGroupOpT r;
     contig_reduction_max_gid_ := reduction_nelems;
     contig_reductions_per_wi := rpw |}.

Lemma wg_eq : size_mul 4 max_sg = wg.
Proof. apply size_mul_small. unfold wg. lia. Qed.

(** Below the threshold the launcher submits the sequential kernel. *)
Lemma contig_impl_small :
  reduction_nelems < wg ->
  launched
  = ({| get_device := get_device exec_q;
        submitted :=
          submitted exec_q
          ++ [{| depends_on := depends;
                 cg_work := boolean_reduction_seq_krn iter_nelems seq_kernel |}]
     |},
     Returned (length (submitted exec_q))).
Proof.
  intros Hlt. unfold launched, boolean_reduction_contig_impl.
  rewrite max_sg_spec, wg_eq. apply N.ltb_lt in Hlt. rewrite Hlt.
  reflexivity.
Qed.

(** From the threshold on it submits the initialisation kernel, then the
    work-group kernel, which waits for the first. *)
Lemma contig_impl_large :
  wg <= reduction_nelems ->
  launched
  = ({| get_device := get_device exec_q;
        submitted :=
          (submitted exec_q
           ++ [{| depends_on := depends;
                  cg_work := init_krn iter_nelems res_tp NoOpIndexer
                                      (known_identity (RedOpT r)) |}])
          ++ [{| depends_on := [length (submitted exec_q)];
                 cg_work :=
                   boolean_reduction_contig_krn
                     iter_nelems
                     (size_mul (ceil_div reduction_nelems (rpw * wg)) wg)
                     1 wg contig_kernel |}]
     |},
     Returned (S (length (submitted exec_q)))).
Proof.
  intros Hge. unfold launched, boolean_reduction_contig_impl.
  rewrite max_sg_spec, wg_eq. apply N.ltb_ge in Hge. rewrite Hge.
  apply N.ltb_ge in Hge.
  rewrite !submit_spec.
  cbv beta iota zeta.
  rewrite (reduction_groups_of_ceil reduction_nelems wg)
    by (unfold wg; lia).
  cbv beta iota zeta. rewrite submit_spec.
  cbn [submitted get_device]. rewrite length_app. simpl length.
  rewrite Nat.add_1_r. reflexivity.
Qed.

Lemma contig_small_outputs (m m' : memory Z) :
  reduction_nelems < wg ->
  outputs exec_q (fst launched) m m' ->
  reduction_outputs convert_impl_bool (RedOpT r) mi arg_tp res_tp
                    (fun id => Z.of_N (id * reduction_nelems)) Z.of_N Z.of_N
                    iter_nelems reduction_nelems m m'.
Proof.
  intros Hlt Hout. rewrite (contig_impl_small Hlt) in Hout. simpl fst in Hout.
  eapply launch_single_inv in Hout; [|reflexivity].
  simpl in Hout.
  apply (seq_outputs _ convert_impl_bool mi seq_kernel) in Hout.
  - revert Hout. apply reduction_outputs_ext.
    + intros id j Hid Hj. simpl. unfold Strided1DIndexer, NoOpIndexer.
      rewrite size_to_ssize_small by (unfold wg in Hlt; size_lia). lia.
    + reflexivity.
  - reflexivity.
  - intros i j _ _ Hs. left. simpl in Hs. unfold NoOpIndexer in Hs. lia.
Qed.

Lemma contig_large_outputs (m m' : memory Z) :
  wg <= reduction_nelems ->
  outputs exec_q (fst launched) m m' ->
  reduction_outputs convert_impl_bool (RedOpT r) mi arg_tp res_tp
                    (fun id => Z.of_N (id * reduction_nelems)) Z.of_N Z.of_N
                    iter_nelems reduction_nelems m m'.
Proof.
  intros Hge Hout. rewrite (contig_impl_large Hge) in Hout. simpl fst in Hout.
  eapply launch_pair_inv in Hout; [|reflexivity|reflexivity].
  destruct Hout as (m1 & Hinit & Hred). simpl in Hinit, Hred.
  apply init_outputs in Hinit. destruct Hinit as [Hinit Hframe].
  assert (Hwg : 0 < wg) by (unfold wg; lia).
  assert (Hfit : reduction_nelems + 4 * wg < size_t_modulus)
    by (unfold wg; lia).
  assert (Hfit_all : iter_nelems * reduction_nelems + 4 * wg < size_t_modulus)
    by (unfold wg; lia).
  destruct (reduction_groups_cover reduction_nelems wg Hwg Hge Hfit)
    as (_ & _ & _ & Hgw).
  fold rpw in Hgw.
  destruct (two_phase_outputs
              (RedOpT r) res_tp NoOpIndexer iter_nelems
              (ceil_div reduction_nelems (rpw * wg))
              _ _ _ N
              (fun _ i => convert_impl_bool (load mi (ptr_add arg_tp (Z.of_N i))))
              (fun g => ContigBooleanReduction_reads
                          contig_kernel (item_of g 0 wg))
              (fun rid => index_range (rid * reduction_nelems)
                                      (rid * reduction_nelems + reduction_nelems))
              (fun g => nd_groups_spec iter_nelems _ wg g Hwg Hgw)
              ltac:(intros i j _ _ H; unfold NoOpIndexer in H; lia)
              ltac:(reflexivity)
              ltac:(intros g _; apply contig_group_op_call_spec)
              ltac:(intros rid Hrid x; rewrite In_index_range;
                    apply (contig_row_covered
                             iter_nelems reduction_nelems wg Hwg Hge Hfit
                             Hfit_all contig_kernel eq_refl eq_refl rid x Hrid))
              m m1 m' Hinit Hframe Hred) as [H1 H2].
  unfold NoOpIndexer in H1, H2.
  split; [|exact H2].
  intros id Hid. rewrite (H1 id Hid). unfold reference. f_equal.
  rewrite reduce_spec_map. apply reduce_spec_same_image.
  - intros x Hx. apply In_index_range in Hx.
    exists (x - id * reduction_nelems). split; [apply In_iota; lia|].
    do 3 f_equal. lia.
  - intros j Hj. apply In_iota in Hj.
    exists (id * reduction_nelems + j). split; [apply In_index_range; lia|].
    do 3 f_equal. lia.
Qed.

(** On a device, whichever path is taken, the slots of the output hold the
    reductions of the rows. *)
Lemma contig_impl_outputs (m m' : memory Z) :
  outputs exec_q (fst launched) m m' ->
  reduction_outputs convert_impl_bool (RedOpT r) mi arg_tp res_tp
                    (fun id => Z.of_N (id * reduction_nelems)) Z.of_N Z.of_N
                    iter_nelems reduction_nelems m m'.
Proof.
  destruct (N.lt_ge_cases reduction_nelems wg).
  - now apply contig_small_outputs.
  - now apply contig_large_outputs.
Qed.

(** The submitted command groups run to completion. *)
Lemma contig_impl_runs (m : memory Z) :
  Forall (fun d => (d < length (submitted exec_q))%nat) depends ->
  exists m', outputs exec_q (fst launched) m m'.
Proof.
  intros Hfresh. destruct (N.lt_ge_cases reduction_nelems wg) as [Hlt | Hge].
  - rewrite (contig_impl_small Hlt). simpl fst.
    destruct (parallel_for_result_exists
                iter_nelems
                (SequentialBooleanReduction_call convert_impl_bool seq_kernel mi)
                m) as [m' Hm'].
    exists m'.
    eapply launch_single_intro; [reflexivity | assumption | assumption].
  - rewrite (contig_impl_large Hge). simpl fst.
    destruct (parallel_for_result_exists
                iter_nelems
                (fun id mo => let res_offset := NoOpIndexer id in
                              store mo (ptr_add res_tp res_offset)
                                    (known_identity (RedOpT r)))
                m) as [m1 Hm1].
    destruct (nd_range_result_exists
                (RedOpT r)
                (fun g => ContigBooleanReduction_res_ref
                            contig_kernel (item_of g 0 wg))
                (fun g => ContigBooleanReduction_red_val_over_wg
                            convert_impl_bool contig_kernel mi (item_of g 0 wg))
                (nd_groups iter_nelems
                           (size_mul (ceil_div reduction_nelems (rpw * wg)) wg)
                           1 wg)
                m1) as [m' Hm'].
    exists m'.
    eapply launch_pair_intro;
      [reflexivity | reflexivity | assumption | exact Hm1 | exact Hm'].
Qed.

End ContigImpl.

Section StridedImpl.

Local Open Scope N_scope.

Variable argT : Type.
Variable convert_impl_bool : argT -> bool.
Variable argT_of_int32 : Z -> argT.
Variable get_displacement : nat -> list Z -> list Z -> Z -> Z.
Variable mi : memory argT.
Variable r : reduction.
Variable exec_q : queue reduction_work.
Variables iter_nelems reduction_nelems : N.
Variables arg_cp res_cp : pointer.
Variable iter_nd : nat.
Variable iter_shape_and_strides : list Z.
Variables iter_arg_offset iter_res_offset : Z.
Variable red_nd : nat.
Variable reduction_shape_stride : list Z.
Variable reduction_arg_offset : Z.
Variable depends : list event.
Variable max_sg : N.

Hypothesis max_sg_spec :
  max_element (sub_group_sizes (get_device exec_q)) = Some max_sg.
Hypothesis max_sg_pos : 0 < max_sg.
Hypothesis fits : reduction_nelems + 16 * max_sg < size_t_modulus.

Let wg := 4 * max_sg.
Let rpw := reductions_per_wi_of reduction_nelems wg.
Let in_out_iter_indexer :=
  TwoOffsets_StridedIndexer get_displacement iter_nd iter_arg_offset
                            iter_res_offset iter_shape_and_strides.
Let reduction_indexer :=
  StridedIndexer get_displacement red_nd reduction_arg_offset
                 reduction_shape_stride.
Let launched :=
  boolean_reduction_strided_impl
    get_displacement (RedOpT r) (StridedGroupOpT r) exec_q
    iter_nelems reduction_nelems arg_cp res_cp
    iter_nd iter_shape_and_strides iter_arg_offset iter_res_offset
    red_nd reduction_shape_stride reduction_arg_offset depends.
Let outputs := launch_outputs convert_impl_bool argT_of_int32 mi.

Let seq_kernel : SequentialBooleanReduction :=
  {| seq_inp_ := arg_cp;
     seq_out_ := res_cp;
     seq_reduction_op_ := RedOpT r;
     seq_identity_ := known_identity (RedOpT r);
     seq_inp_out_iter_indexer_ := in_out_iter_indexer;
     seq_inp_reduced_dims_indexer_ := reduction_indexer;
     seq_reduction_max_gid_ := reduction_nelems |}.

Let strided_kernel : StridedBooleanReduction :=
  {| strided_inp_ := arg_cp;
     strided_out_ := res_cp;
     strided_reduction_op_ := RedOpT r;
     strided_group_op_ := StridedGroupOpT r;
     strided_identity_ := known_identity (RedOpT r);
     strided_inp_out_iter_indexer_ := in_out_iter_indexer;
     strided_inp_reduced_dims_indexer_ := reduction_indexer;
     strided_reduction_max_gid_ := reduction_nelems;
     strided_reductions_per_wi := rpw |}.

Let res_indexer :=
  UnpackedStridedIndexer get_displacement iter_nd iter_res_offset
                         iter_shape_and_strides
                         (skipn (2 * iter_nd) iter_shape_and_strides).

Lemma strided_wg_eq : size_mul 4 max_sg = wg.
Proof. apply size_mul_small. unfold wg. lia. Qed.

Lemma strided_impl_small :
  reduction_nelems < wg ->
  launched
  = ({| get_device := get_device exec_q;
        submitted :=
          submitted exec_q
          ++ [{| depends_on := depends;
                 cg_work := boolean_reduction_seq_krn iter_nelems seq_kernel |}]
     |},
     Returned (length (submitted exec_q))).
Proof.
  intros Hlt. unfold launched, boolean_reduction_strided_impl.
  rewrite max_sg_spec, strided_wg_eq. apply N.ltb_lt in Hlt. rewrite Hlt.
  reflexivity.
Qed.

Lemma strided_impl_large :
  wg <= reduction_nelems ->
  launched
  = ({| get_device := get_device exec_q;
        submitted :=
          (submitted exec_q
           ++ [{| depends_on := depends;
                  cg_work := init_krn iter_nelems res_cp res_indexer
                                      (known_identity (RedOpT r)) |}])
          ++ [{| depends_on := [length (submitted exec_q)];
                 cg_work :=
                   boolean_reduction_strided_krn
                     iter_nelems
                     (size_mul (ceil_div reduction_nelems (rpw * wg)) wg)
                     1 wg strided_kernel |}]
     |},
     Returned (S (length (submitted exec_q)))).
Proof.
  intros Hge. unfold launched, boolean_reduction_strided_impl.
  rewrite max_sg_spec, strided_wg_eq. apply N.ltb_ge in Hge. rewrite Hge.
  apply N.ltb_ge in Hge.
  rewrite !submit_spec.
  cbv beta iota zeta.
  rewrite (reduction_groups_of_ceil reduction_nelems wg)
    by (unfold wg; lia).
  cbv beta iota zeta. rewrite submit_spec.
  cbn [submitted get_device]. rewrite length_app. simpl length.
  rewrite Nat.add_1_r. reflexivity.
Qed.

Lemma strided_small_outputs (m m' : memory Z) :
  reduction_nelems < wg ->
  (forall i j, i < iter_nelems -> j < iter_nelems ->
               snd (in_out_iter_indexer i) = snd (in_out_iter_indexer j) ->
               i = j \/ reduction_nelems = 0) ->
  outputs exec_q (fst launched) m m' ->
  reduction_outputs convert_impl_bool (RedOpT r) mi arg_cp res_cp
                    (fun id => fst (in_out_iter_indexer id))
                    (fun id => snd (in_out_iter_indexer id))
                    reduction_indexer
                    iter_nelems reduction_nelems m m'.
Proof.
  intros Hlt Hagree Hout. rewrite (strided_impl_small Hlt) in Hout.
  simpl fst in Hout.
  eapply launch_single_inv in Hout; [|reflexivity].
  simpl in Hout.
  apply (seq_outputs _ convert_impl_bool mi seq_kernel) in Hout.
  - exact Hout.
  - reflexivity.
  - exact Hagree.
Qed.

Lemma strided_group_op_call_spec (l : list Z) :
  strided_group_op_call convert_impl_bool argT_of_int32 (StridedGroupOpT r) l
  = bool_to_int32
      (reduce_spec (RedOpT r)
                   (boolean_predicate_int32 convert_impl_bool argT_of_int32)
                   l).
Proof. destruct r; reflexivity. Qed.

Section Large.

Hypothesis large : wg <= reduction_nelems.
Hypothesis predicate_of_code :
  forall b, boolean_predicate_int32 convert_impl_bool argT_of_int32
                                    (bool_to_int32 b) = b.
Hypothesis out_offset_inj :
  forall i j, i < iter_nelems -> j < iter_nelems ->
              snd (in_out_iter_indexer i) = snd (in_out_iter_indexer j) ->
              i = j.

Let groups := ceil_div reduction_nelems (rpw * wg).

Lemma strided_wg_pos : 0 < wg.
Proof. unfold wg. lia. Qed.

Lemma strided_fits : reduction_nelems + 4 * wg < size_t_modulus.
Proof. unfold wg. lia. Qed.

Lemma strided_fits_0 : 0 * reduction_nelems + 4 * wg < size_t_modulus.
Proof. unfold wg. lia. Qed.

(** The value a work-group combines into the output is the reduction of
    the elements its work-items read. *)
Lemma strided_red_val_spec (g : N * N) :
  snd g < groups ->
  StridedBooleanReduction_red_val_over_wg
    convert_impl_bool argT_of_int32 strided_kernel mi g wg
  = bool_to_int32
      (reduce_spec (RedOpT r)
                   (lane_pred_of convert_impl_bool mi strided_kernel (fst g))
                   (flat_map (lane_reads_of reduction_nelems rpw wg (snd g))
                             (iota wg))).
Proof.
  destruct g as [rid bid]. simpl fst. simpl snd. intros Hb.
  unfold StridedBooleanReduction_red_val_over_wg.
  change (strided_group_op_ strided_kernel) with (StridedGroupOpT r).
  rewrite strided_group_op_call_spec, reduce_spec_map.
  rewrite <- reduce_spec_flat_map. f_equal.
  apply reduce_spec_ext_in. intros lid Hlid. apply In_iota in Hlid.
  rewrite (strided_local_spec
             0 reduction_nelems wg strided_wg_pos large strided_fits
             strided_fits_0 argT convert_impl_bool mi strided_kernel
             eq_refl eq_refl eq_refl rid bid lid Hb Hlid).
  simpl fst. apply predicate_of_code.
Qed.

Lemma strided_large_outputs (m m' : memory Z) :
  outputs exec_q (fst launched) m m' ->
  reduction_outputs convert_impl_bool (RedOpT r) mi arg_cp res_cp
                    (fun id => fst (in_out_iter_indexer id))
                    (fun id => snd (in_out_iter_indexer id))
                    reduction_indexer
                    iter_nelems reduction_nelems m m'.
Proof.
  intros Hout. rewrite (strided_impl_large large) in Hout. simpl fst in Hout.
  eapply launch_pair_inv in Hout; [|reflexivity|reflexivity].
  destruct Hout as (m1 & Hinit & Hred). simpl in Hinit, Hred.
  apply init_outputs in Hinit. destruct Hinit as [Hinit Hframe].
  destruct (reduction_groups_cover reduction_nelems wg strided_wg_pos large
                                   strided_fits)
    as (_ & _ & _ & Hgw).
  fold rpw in Hgw.
  destruct (two_phase_outputs
              (RedOpT r) res_cp (fun id => snd (in_out_iter_indexer id))
              iter_nelems groups
              _ _ _ N
              (lane_pred_of convert_impl_bool mi strided_kernel)
              (fun g => flat_map (lane_reads_of reduction_nelems rpw wg (snd g))
                                 (iota wg))
              (fun _ => iota reduction_nelems)
              (fun g => nd_groups_spec iter_nelems _ wg g strided_wg_pos Hgw)
              out_offset_inj
              ltac:(reflexivity)
              ltac:(intros g Hg; apply strided_red_val_spec;
                    apply (nd_groups_spec iter_nelems _ wg g
                                          strided_wg_pos Hgw) in Hg;
                    apply Hg)
              ltac:(intros rid Hrid x; rewrite In_iota;
                    rewrite <- (strided_row_covered
                                  0 reduction_nelems wg strided_wg_pos large
                                  strided_fits strided_fits_0 strided_kernel
                                  eq_refl eq_refl x);
                    simpl snd; split;
                    [ intros (bid & Hb & Hx); exists bid; split; [exact Hb|];
                      apply in_flat_map in Hx; destruct Hx as (lid & Hl & Hx);
                      exists lid; split; [now apply In_iota | exact Hx]
                    | intros (bid & Hb & lid & Hl & Hx); exists bid;
                      split; [exact Hb|]; apply in_flat_map; exists lid;
                      split; [now apply In_iota | exact Hx] ])
              m m1 m' Hinit Hframe Hred) as [H1 H2].
  split; [|exact H2].
  intros id Hid. rewrite (H1 id Hid). unfold reference. f_equal.
  rewrite reduce_spec_map. reflexivity.
Qed.

End Large.

Lemma strided_impl_runs (m : memory Z) :
  Forall (fun d => (d < length (submitted exec_q))%nat) depends ->
  exists m', outputs exec_q (fst launched) m m'.
Proof.
  intros Hfresh. destruct (N.lt_ge_cases reduction_nelems wg) as [Hlt | Hge].
  - rewrite (strided_impl_small Hlt). simpl fst.
    destruct (parallel_for_result_exists
                iter_nelems
                (SequentialBooleanReduction_call convert_impl_bool seq_kernel mi)
                m) as [m' Hm'].
    exists m'.
    eapply launch_single_intro; [reflexivity | assumption | assumption].
  - rewrite (strided_impl_large Hge). simpl fst.
    destruct (parallel_for_result_exists
                iter_nelems
                (fun id mo => let res_offset := res_indexer id in
                              store mo (ptr_add res_cp res_offset)
                                    (known_identity (RedOpT r)))
                m) as [m1 Hm1].
    destruct (nd_range_result_exists
                (RedOpT r)
                (StridedBooleanReduction_res_ref strided_kernel)
                (fun g => StridedBooleanReduction_red_val_over_wg
                            convert_impl_bool argT_of_int32 strided_kernel
                            mi g wg)
                (nd_groups iter_nelems
                           (size_mul (ceil_div reduction_nelems (rpw * wg)) wg)
                           1 wg)
                m1) as [m' Hm'].
    exists m'.
    eapply launch_pair_intro;
      [reflexivity | reflexivity | assumption | exact Hm1 | exact Hm'].
Qed.

End StridedImpl.

End PathFacts.

(* ------------------------------------------------------------------------- *)
(** ** Boolean reductions: the launchers *)

Module BooleanReductionTheorems.
Import Sycl SyclFacts BooleanReductions BooleanReductionSpec ReductionOpFacts.
Import ExecutionFacts GridFacts KernelFacts PathFacts.
Local Open Scope N_scope.

Lemma ContigFactory_get_eq (r : reduction) :
  ContigFactory_get r
  = boolean_reduction_contig_impl (RedOpT r) (ContigGroupOpT r).
Proof. destruct r; reflexivity. Qed.

Lemma StridedFactory_get_eq
      (get_displacement : nat -> list Z -> list Z -> Z -> Z) (r : reduction) :
  StridedFactory_get get_displacement r
  = boolean_reduction_strided_impl get_displacement
                                   (RedOpT r) (StridedGroupOpT r).
Proof. destruct r; reflexivity. Qed.

Lemma reference_of_nothing (argT : Type) (conv : argT -> bool)
      (op : ReductionOp) (mi : memory argT) (inp : pointer) (f : N -> Z) :
  reference conv op mi inp (map f (iota 0)) = known_identity op.
Proof. destruct op; reflexivity. Qed.

Section EmptyAxis.

Variable argT : Type.
Variable convert_impl_bool : argT -> bool.
Variable argT_of_int32 : Z -> argT.
Variable get_displacement : nat -> list Z -> list Z -> Z -> Z.
Variable mi : memory argT.

(** C3. On a device with a positive largest sub-group size, a reduction
    over an axis of size 0 takes the sequential path, for every input type
    and every number of iteration indices; its kernel runs, its loop has no
    iteration, so that each work-item stores the identity it was given; and
    once it has run every output slot holds the identity of the operator:
    1 for [all] and 0 for [any].  This holds for the contiguous and for the
    strided launcher. *)
Theorem empty_axis_gives_identity
        (r : reduction) (exec_q : queue reduction_work) (iter_nelems : N)
        (arg_cp res_cp : pointer)
        (iter_arg_offset iter_res_offset red_arg_offset : Z)
        (iter_nd : nat) (iter_shape_and_strides : list Z)
        (red_nd : nat) (reduction_shape_stride : list Z)
        (depends : list event) (max_sg : N) (m : memory Z) :
  max_element (sub_group_sizes (get_device exec_q)) = Some max_sg ->
  0 < max_sg ->
  16 * max_sg < size_t_modulus ->
  submitted_before exec_q depends ->
  let contig :=
    ContigFactory_get r exec_q iter_nelems 0 arg_cp res_cp
                      iter_arg_offset iter_res_offset red_arg_offset depends in
  let strided :=
    StridedFactory_get get_displacement r exec_q iter_nelems 0 arg_cp res_cp
                       iter_nd iter_shape_and_strides
                       iter_arg_offset iter_res_offset
                       red_nd reduction_shape_stride red_arg_offset depends in
  let out_iter_offset id :=
    snd (TwoOffsets_StridedIndexer get_displacement iter_nd iter_arg_offset
                                   iter_res_offset iter_shape_and_strides id) in
  known_identity (RedOpT all) = 1%Z
  /\ known_identity (RedOpT any) = 0%Z
  /\ (forall (k : SequentialBooleanReduction) id mo,
         seq_reduction_max_gid_ k = 0 ->
         SequentialBooleanReduction_call convert_impl_bool k mi id mo
         = store mo (ptr_add (seq_out_ k)
                             (snd (seq_inp_out_iter_indexer_ k id)))
                 (seq_identity_ k))
  /\ (exists k,
         submitted (fst contig)
         = submitted exec_q
           ++ [{| depends_on := depends;
                  cg_work := boolean_reduction_seq_krn iter_nelems k |}]
         /\ seq_identity_ k = known_identity (RedOpT r)
         /\ seq_reduction_max_gid_ k = 0)
  /\ (exists m', launch_outputs convert_impl_bool argT_of_int32 mi
                                exec_q (fst contig) m m')
  /\ (forall m',
         launch_outputs convert_impl_bool argT_of_int32 mi
                        exec_q (fst contig) m m' ->
         forall id, id < iter_nelems ->
                    load m' (ptr_add (ptr_add res_cp iter_res_offset)
                                     (Z.of_N id))
                    = known_identity (RedOpT r))
  /\ (exists k,
         submitted (fst strided)
         = submitted exec_q
           ++ [{| depends_on := depends;
                  cg_work := boolean_reduction_seq_krn iter_nelems k |}]
         /\ seq_identity_ k = known_identity (RedOpT r)
         /\ seq_reduction_max_gid_ k = 0)
  /\ (exists m', launch_outputs convert_impl_bool argT_of_int32 mi
                                exec_q (fst strided) m m')
  /\ (forall m',
         launch_outputs convert_impl_bool argT_of_int32 mi
                        exec_q (fst strided) m m' ->
         forall id, id < iter_nelems ->
                    load m' (ptr_add res_cp (out_iter_offset id))
                    = known_identity (RedOpT r)).
Proof.
  intros Hmax Hpos Hfit Hdeps contig strided out_iter_offset.
  assert (Hfit0 : 0 + 16 * max_sg < size_t_modulus) by lia.
  assert (Hfit1 : iter_nelems * 0 + 16 * max_sg < size_t_modulus) by lia.
  assert (Hlt : 0 < 4 * max_sg) by lia.
  unfold contig, strided. rewrite ContigFactory_get_eq, StridedFactory_get_eq.
  split; [reflexivity|]. split; [reflexivity|]. split.
  { intros k id mo Hk. unfold SequentialBooleanReduction_call.
    rewrite Hk. reflexivity. }
  split.
  { rewrite (contig_impl_small r exec_q iter_nelems 0 arg_cp res_cp
                               iter_arg_offset iter_res_offset red_arg_offset
                               depends max_sg Hmax Hpos Hfit0 Hfit1 Hlt).
    eexists. split; [reflexivity|]. split; reflexivity. }
  split.
  { apply (contig_impl_runs argT convert_impl_bool argT_of_int32 mi r exec_q
                            iter_nelems 0 arg_cp res_cp iter_arg_offset
                            iter_res_offset red_arg_offset depends max_sg
                            Hmax Hpos Hfit0 Hfit1 m Hdeps). }
  split.
  { intros m' Hout id Hid.
    apply (contig_impl_outputs argT convert_impl_bool argT_of_int32 mi r
                               exec_q iter_nelems 0 arg_cp res_cp
                               iter_arg_offset iter_res_offset red_arg_offset
                               depends max_sg Hmax Hpos Hfit0 Hfit1 m m')
      in Hout.
    destruct Hout as [Hout _]. rewrite (Hout id Hid).
    apply reference_of_nothing. }
  split.
  { rewrite (strided_impl_small get_displacement r exec_q iter_nelems 0
                                arg_cp res_cp iter_nd iter_shape_and_strides
                                iter_arg_offset iter_res_offset red_nd
                                reduction_shape_stride red_arg_offset depends
                                max_sg Hmax Hpos Hfit0 Hlt).
    eexists. split; [reflexivity|]. split; reflexivity. }
  split.
  { apply (strided_impl_runs argT convert_impl_bool argT_of_int32
                             get_displacement mi r exec_q iter_nelems 0
                             arg_cp res_cp iter_nd iter_shape_and_strides
                             iter_arg_offset iter_res_offset red_nd
                             reduction_shape_stride red_arg_offset depends
                             max_sg Hmax Hpos Hfit0 m Hdeps). }
  intros m' Hout id Hid.
  apply (strided_small_outputs argT convert_impl_bool argT_of_int32
                               get_displacement mi r exec_q iter_nelems 0
                               arg_cp res_cp iter_nd iter_shape_and_strides
                               iter_arg_offset iter_res_offset red_nd
                               reduction_shape_stride red_arg_offset depends
                               max_sg Hmax Hpos Hfit0 m m' Hlt)
    in Hout.
  - destruct Hout as [Hout _]. unfold out_iter_offset. rewrite (Hout id Hid).
    apply reference_of_nothing.
  - intros. now right.
Qed.

End EmptyAxis.

Section TwoPaths.

Variable argT : Type.
Variable convert_impl_bool : argT -> bool.
Variable argT_of_int32 : Z -> argT.
Variable get_displacement : nat -> list Z -> list Z -> Z -> Z.
Variable mi : memory argT.

Let outputs := launch_outputs convert_impl_bool argT_of_int32 mi.

(** C4. The same call (input, iteration count, reduction size, offsets) is
    made on two devices: on the first the reduction size is below the
    threshold [wg = 4 * max sub-group size], on the second it is not.  The
    first launch submits the sequential kernel, the second the
    initialisation kernel and the work-group kernel that waits for it.
    Both run to completion, and whatever the order of the work-items and
    the interleaving of the atomic updates, the two output memories are
    equal everywhere, each slot holding the [int32] code of [all] or [any]
    of its row.  For the strided launcher the output slots of distinct
    iteration indices are distinct, and the predicate of the group
    operation maps the codes 0 and 1 back to false and true. *)
Theorem sequential_and_work_group_paths_agree
        (r : reduction) (q_small q_large : queue reduction_work)
        (iter_nelems reduction_nelems : N)
        (arg_cp res_cp : pointer)
        (iter_arg_offset iter_res_offset red_arg_offset : Z)
        (iter_nd : nat) (iter_shape_and_strides : list Z)
        (red_nd : nat) (reduction_shape_stride : list Z)
        (depends_small depends_large : list event)
        (sg_small sg_large : N) (m : memory Z) :
  max_element (sub_group_sizes (get_device q_small)) = Some sg_small ->
  max_element (sub_group_sizes (get_device q_large)) = Some sg_large ->
  reduction_nelems < 4 * sg_small ->
  0 < sg_large ->
  4 * sg_large <= reduction_nelems ->
  sizes_fit iter_nelems reduction_nelems sg_small ->
  sizes_fit iter_nelems reduction_nelems sg_large ->
  submitted_before q_small depends_small ->
  submitted_before q_large depends_large ->
  (forall b, boolean_predicate_int32 convert_impl_bool argT_of_int32
                                     (bool_to_int32 b) = b) ->
  (forall i j, i < iter_nelems -> j < iter_nelems ->
               snd (TwoOffsets_StridedIndexer
                      get_displacement iter_nd iter_arg_offset
                      iter_res_offset iter_shape_and_strides i)
               = snd (TwoOffsets_StridedIndexer
                        get_displacement iter_nd iter_arg_offset
                        iter_res_offset iter_shape_and_strides j) ->
               i = j) ->
  let contig q depends :=
    ContigFactory_get r q iter_nelems reduction_nelems arg_cp res_cp
                      iter_arg_offset iter_res_offset red_arg_offset depends in
  let strided q depends :=
    StridedFactory_get get_displacement r q iter_nelems reduction_nelems
                       arg_cp res_cp iter_nd iter_shape_and_strides
                       iter_arg_offset iter_res_offset
                       red_nd reduction_shape_stride red_arg_offset depends in
  let in_out_iter_indexer :=
    TwoOffsets_StridedIndexer get_displacement iter_nd iter_arg_offset
                              iter_res_offset iter_shape_and_strides in
  (* the contiguous launcher *)
  (exists k,
      submitted (fst (contig q_small depends_small))
      = submitted q_small
        ++ [{| depends_on := depends_small;
               cg_work := boolean_reduction_seq_krn iter_nelems k |}])
  /\ (exists res_tp res_indexer identity_val gws1 k,
         submitted (fst (contig q_large depends_large))
         = (submitted q_large
            ++ [{| depends_on := depends_large;
                   cg_work := init_krn iter_nelems res_tp res_indexer
                                       identity_val |}])
           ++ [{| depends_on := [length (submitted q_large)];
                  cg_work := boolean_reduction_contig_krn
                               iter_nelems gws1 1 (4 * sg_large) k |}])
  /\ (exists ms, outputs q_small (fst (contig q_small depends_small)) m ms)
  /\ (exists ml, outputs q_large (fst (contig q_large depends_large)) m ml)
  /\ (forall ms ml,
         outputs q_small (fst (contig q_small depends_small)) m ms ->
         outputs q_large (fst (contig q_large depends_large)) m ml ->
         (forall p, load ms p = load ml p)
         /\ reduction_outputs
              convert_impl_bool (RedOpT r) mi
              (ptr_add (ptr_add arg_cp iter_arg_offset) red_arg_offset)
              (ptr_add res_cp iter_res_offset)
              (fun id => Z.of_N (id * reduction_nelems)) Z.of_N Z.of_N
              iter_nelems reduction_nelems m ms)
  (* the strided launcher *)
  /\ (exists k,
         submitted (fst (strided q_small depends_small))
         = submitted q_small
           ++ [{| depends_on := depends_small;
                  cg_work := boolean_reduction_seq_krn iter_nelems k |}])
  /\ (exists res_tp res_indexer identity_val gws1 k,
         submitted (fst (strided q_large depends_large))
         = (submitted q_large
            ++ [{| depends_on := depends_large;
                   cg_work := init_krn iter_nelems res_tp res_indexer
                                       identity_val |}])
           ++ [{| depends_on := [length (submitted q_large)];
                  cg_work := boolean_reduction_strided_krn
                               iter_nelems gws1 1 (4 * sg_large) k |}])
  /\ (exists ms, outputs q_small (fst (strided q_small depends_small)) m ms)
  /\ (exists ml, outputs q_large (fst (strided q_large depends_large)) m ml)
  /\ (forall ms ml,
         outputs q_small (fst (strided q_small depends_small)) m ms ->
         outputs q_large (fst (strided q_large depends_large)) m ml ->
         (forall p, load ms p = load ml p)
         /\ reduction_outputs
              convert_impl_bool (RedOpT r) mi arg_cp res_cp
              (fun id => fst (in_out_iter_indexer id))
              (fun id => snd (in_out_iter_indexer id))
              (StridedIndexer get_displacement red_nd red_arg_offset
                              reduction_shape_stride)
              iter_nelems reduction_nelems m ms).
Proof.
  intros Hmax_s Hmax_l Hsmall Hpos_l Hlarge [Hfs Hfs_all] [Hfl Hfl_all]
         Hdeps_s Hdeps_l Hpred Hinj contig strided in_out_iter_indexer.
  assert (Hpos_s : 0 < sg_small) by lia.
  unfold contig, strided. rewrite ContigFactory_get_eq, StridedFactory_get_eq.
  split.
  { rewrite (contig_impl_small r q_small iter_nelems reduction_nelems
                               arg_cp res_cp iter_arg_offset iter_res_offset
                               red_arg_offset depends_small sg_small
                               Hmax_s Hpos_s Hfs Hfs_all Hsmall).
    eexists. reflexivity. }
  split.
  { rewrite (contig_impl_large r q_large iter_nelems reduction_nelems
                               arg_cp res_cp iter_arg_offset iter_res_offset
                               red_arg_offset depends_large sg_large
                               Hmax_l Hpos_l Hfl Hfl_all Hlarge).
    eexists _, _, _, _, _. reflexivity. }
  split.
  { apply (contig_impl_runs argT convert_impl_bool argT_of_int32 mi r q_small
                            iter_nelems reduction_nelems arg_cp res_cp
                            iter_arg_offset iter_res_offset red_arg_offset
                            depends_small sg_small
                            Hmax_s Hpos_s Hfs Hfs_all m Hdeps_s). }
  split.
  { apply (contig_impl_runs argT convert_impl_bool argT_of_int32 mi r q_large
                            iter_nelems reduction_nelems arg_cp res_cp
                            iter_arg_offset iter_res_offset red_arg_offset
                            depends_large sg_large
                            Hmax_l Hpos_l Hfl Hfl_all m Hdeps_l). }
  split.
  { intros ms ml Hs Hl.
    apply (contig_impl_outputs argT convert_impl_bool argT_of_int32 mi r
                               q_small iter_nelems reduction_nelems
                               arg_cp res_cp iter_arg_offset iter_res_offset
                               red_arg_offset depends_small sg_small
                               Hmax_s Hpos_s Hfs Hfs_all m ms) in Hs.
    apply (contig_impl_outputs argT convert_impl_bool argT_of_int32 mi r
                               q_large iter_nelems reduction_nelems
                               arg_cp res_cp iter_arg_offset iter_res_offset
                               red_arg_offset depends_large sg_large
                               Hmax_l Hpos_l Hfl Hfl_all m ml) in Hl.
    split; [|exact Hs].
    exact (reduction_outputs_unique _ _ _ _ _ _ _ _ _ _ _ _ _ _ Hs Hl). }
  split.
  { rewrite (strided_impl_small get_displacement r q_small iter_nelems
                                reduction_nelems arg_cp res_cp iter_nd
                                iter_shape_and_strides iter_arg_offset
                                iter_res_offset red_nd reduction_shape_stride
                                red_arg_offset depends_small sg_small
                                Hmax_s Hpos_s Hfs Hsmall).
    eexists. reflexivity. }
  split.
  { rewrite (strided_impl_large get_displacement r q_large iter_nelems
                                reduction_nelems arg_cp res_cp iter_nd
                                iter_shape_and_strides iter_arg_offset
                                iter_res_offset red_nd reduction_shape_stride
                                red_arg_offset depends_large sg_large
                                Hmax_l Hpos_l Hfl Hlarge).
    eexists _, _, _, _, _. reflexivity. }
  split.
  { apply (strided_impl_runs argT convert_impl_bool argT_of_int32
                             get_displacement mi r q_small iter_nelems
                             reduction_nelems arg_cp res_cp iter_nd
                             iter_shape_and_strides iter_arg_offset
                             iter_res_offset red_nd reduction_shape_stride
                             red_arg_offset depends_small sg_small
                             Hmax_s Hpos_s Hfs m Hdeps_s). }
  split.
  { apply (strided_impl_runs argT convert_impl_bool argT_of_int32
                             get_displacement mi r q_large iter_nelems
                             reduction_nelems arg_cp res_cp iter_nd
                             iter_shape_and_strides iter_arg_offset
                             iter_res_offset red_nd reduction_shape_stride
                             red_arg_offset depends_large sg_large
                             Hmax_l Hpos_l Hfl m Hdeps_l). }
  intros ms ml Hs Hl.
  apply (strided_small_outputs argT convert_impl_bool argT_of_int32
                               get_displacement mi r q_small iter_nelems
                               reduction_nelems arg_cp res_cp iter_nd
                               iter_shape_and_strides iter_arg_offset
                               iter_res_offset red_nd reduction_shape_stride
                               red_arg_offset depends_small sg_small
                               Hmax_s Hpos_s Hfs m ms Hsmall) in Hs.
  2:{ intros i j Hi Hj Hij. left. now apply Hinj. }
  apply (strided_large_outputs argT convert_impl_bool argT_of_int32
                               get_displacement mi r q_large iter_nelems
                               reduction_nelems arg_cp res_cp iter_nd
                               iter_shape_and_strides iter_arg_offset
                               iter_res_offset red_nd reduction_shape_stride
                               red_arg_offset depends_large sg_large
                               Hmax_l Hpos_l Hfl Hlarge Hpred Hinj m ml) in Hl.
  split; [|exact Hs].
  exact (reduction_outputs_unique _ _ _ _ _ _ _ _ _ _ _ _ _ _ Hs Hl).
Qed.

End TwoPaths.

(** C5. In the large path, with no overflow of [size_t], the work per
    work-item the launchers choose -- the ceiling of
    [reduction_nelems / wg] below [4 * wg], and 4 from there on -- is
    [min 4 (ceil (reduction_nelems / wg))]; the number of groups is the
    ceiling of [reduction_nelems / (reductions_per_wi * wg)]; the groups
    cover the reduction dimension, none of them being empty: every
    reduction index is the index [lid + bid * wg * reductions_per_wi +
    j * wg] of one work-item, is in the range of one group of the
    contiguous kernel, and is read by one work-item of the strided
    kernel. *)
Theorem reductions_per_wi_is_min_and_groups_cover
        (reduction_nelems wg : N) :
  0 < wg ->
  wg <= reduction_nelems ->
  reduction_nelems + 4 * wg < size_t_modulus ->
  let rpw := reductions_per_wi_of reduction_nelems wg in
  rpw = (if reduction_nelems <? 4 * wg
         then ceil_div reduction_nelems wg else 4)
  /\ rpw = N.min 4 (ceil_div reduction_nelems wg)
  /\ (reduction_nelems <= ceil_div reduction_nelems wg * wg
      /\ (ceil_div reduction_nelems wg - 1) * wg < reduction_nelems)
  /\ exists groups,
      reduction_groups_of reduction_nelems rpw wg = Some groups
      /\ groups = ceil_div reduction_nelems (rpw * wg)
      /\ reduction_nelems <= groups * (rpw * wg)
      /\ (groups - 1) * (rpw * wg) < reduction_nelems
      /\ (forall m, m < reduction_nelems ->
                    exists bid lid j,
                      bid < groups /\ lid < wg /\ j < rpw
                      /\ m = lid + bid * wg * rpw + j * wg)
      /\ (forall (k : ContigBooleanReduction) iter_nelems rid m,
             contig_reduction_max_gid_ k = reduction_nelems ->
             contig_reductions_per_wi k = rpw ->
             iter_nelems * reduction_nelems + 4 * wg < size_t_modulus ->
             rid < iter_nelems -> m < reduction_nelems ->
             exists bid,
               bid < groups
               /\ In (rid * reduction_nelems + m)
                     (ContigBooleanReduction_reads
                        k (item_of (rid, bid) 0 wg)))
      /\ (forall (argT : Type) (conv : argT -> bool) (mi : memory argT)
                 (k : StridedBooleanReduction) rid m,
             strided_reduction_max_gid_ k = reduction_nelems ->
             strided_reductions_per_wi k = rpw ->
             strided_identity_ k = known_identity (strided_reduction_op_ k) ->
             m < reduction_nelems ->
             exists bid lid,
               bid < groups /\ lid < wg
               /\ In m (snd (StridedBooleanReduction_local
                               conv k mi (item_of (rid, bid) lid wg)))).
Proof.
  intros Hwg Hlarge Hfit rpw.
  pose proof (reductions_per_wi_of_min reduction_nelems wg Hwg Hlarge Hfit)
    as Hmin.
  fold rpw in Hmin.
  destruct (ceil_div_bounds reduction_nelems wg Hwg) as [Hc1 Hc2].
  specialize (Hc2 ltac:(lia)).
  destruct (reduction_groups_cover reduction_nelems wg Hwg Hlarge Hfit)
    as (Hg1 & Hg2 & _ & _).
  fold rpw in Hg1, Hg2.
  assert (Hfit0 : 0 * reduction_nelems + 4 * wg < size_t_modulus) by lia.
  split.
  { unfold rpw, reductions_per_wi_of.
    rewrite size_mul_small, size_add_small, size_sub_small by lia.
    reflexivity. }
  split; [exact Hmin|]. split; [split; assumption|].
  exists (ceil_div reduction_nelems (rpw * wg)).
  split; [apply (reduction_groups_of_ceil reduction_nelems wg Hwg Hlarge Hfit)|].
  split; [reflexivity|]. split; [exact Hg1|]. split; [exact Hg2|].
  split.
  { apply (reduction_index_assigned reduction_nelems wg Hwg Hlarge Hfit). }
  split.
  - intros k iter_nelems rid m Hk1 Hk2 Hfit_all Hrid Hm.
    apply (contig_row_covered iter_nelems reduction_nelems wg Hwg Hlarge Hfit
                              Hfit_all k Hk1 Hk2 rid _ Hrid).
    lia.
  - intros argT conv mi k rid m Hk1 Hk2 Hk3 Hm.
    destruct (proj2 (strided_row_covered 0 reduction_nelems wg Hwg Hlarge
                                         Hfit Hfit0 k Hk1 Hk2 m) Hm)
      as (bid & Hb & lid & Hl & Hin).
    exists bid, lid. split; [exact Hb|]. split; [exact Hl|].
    rewrite (strided_local_spec 0 reduction_nelems wg Hwg Hlarge Hfit Hfit0
                                argT conv mi k Hk1 Hk2 Hk3 rid bid lid Hb Hl).
    exact Hin.
Qed.

Section InRange.

Variable argT : Type.
Variable convert_impl_bool : argT -> bool.
Variable get_displacement : nat -> list Z -> list Z -> Z -> Z.
Variable mi : memory argT.

(** C9. In the large path the launchers submit, after the initialisation
    kernel, the work-group kernel over [iter_nelems] rows of groups of
    [wg] work-items.  For every group of that launch and every work-item
    of the group: the range the contiguous kernel hands to the group
    operation ends at the smaller of [start + reductions_per_wi * wg] and
    the end of the row, is not empty and lies in the row, so every
    element read is in the row; the strided kernel reads reduction
    indices below [reduction_nelems] only, its local value is the
    reduction of the elements at these indices, and a work-item with no
    index in range keeps the identity. *)
Theorem work_group_kernels_read_in_range
        (r : reduction) (exec_q : queue reduction_work)
        (iter_nelems reduction_nelems : N)
        (arg_cp res_cp : pointer)
        (iter_arg_offset iter_res_offset red_arg_offset : Z)
        (iter_nd : nat) (iter_shape_and_strides : list Z)
        (red_nd : nat) (reduction_shape_stride : list Z)
        (depends : list event) (max_sg : N) :
  max_element (sub_group_sizes (get_device exec_q)) = Some max_sg ->
  0 < max_sg ->
  4 * max_sg <= reduction_nelems ->
  sizes_fit iter_nelems reduction_nelems max_sg ->
  let wg := 4 * max_sg in
  let contig :=
    ContigFactory_get r exec_q iter_nelems reduction_nelems arg_cp res_cp
                      iter_arg_offset iter_res_offset red_arg_offset depends in
  let strided :=
    StridedFactory_get get_displacement r exec_q iter_nelems reduction_nelems
                       arg_cp res_cp iter_nd iter_shape_and_strides
                       iter_arg_offset iter_res_offset
                       red_nd reduction_shape_stride red_arg_offset depends in
  (exists init gws1 k,
      submitted (fst contig)
      = (submitted exec_q ++ [init])
        ++ [{| depends_on := [length (submitted exec_q)];
               cg_work := boolean_reduction_contig_krn
                            iter_nelems gws1 1 wg k |}]
      /\ forall g lid,
          In g (nd_groups iter_nelems gws1 1 wg) -> lid < wg ->
          let it := item_of g lid wg in
          let base := fst g * reduction_nelems in
          ContigBooleanReduction_end k it
          = N.min (ContigBooleanReduction_start k it
                   + contig_reductions_per_wi k * wg)
                  (base + reduction_nelems)
          /\ base <= ContigBooleanReduction_start k it
          /\ ContigBooleanReduction_start k it
             < ContigBooleanReduction_end k it
          /\ ContigBooleanReduction_end k it <= base + reduction_nelems
          /\ (forall i, In i (ContigBooleanReduction_reads k it) ->
                        base <= i < base + reduction_nelems))
  /\ (exists init gws1 k,
         submitted (fst strided)
         = (submitted exec_q ++ [init])
           ++ [{| depends_on := [length (submitted exec_q)];
                  cg_work := boolean_reduction_strided_krn
                               iter_nelems gws1 1 wg k |}]
         /\ forall g lid,
             In g (nd_groups iter_nelems gws1 1 wg) -> lid < wg ->
             let local :=
               StridedBooleanReduction_local convert_impl_bool k mi
                                             (item_of g lid wg) in
             (forall gid, In gid (snd local) -> gid < reduction_nelems)
             /\ fst local
                = bool_to_int32
                    (reduce_spec (strided_reduction_op_ k)
                                 (lane_pred_of convert_impl_bool mi k (fst g))
                                 (snd local))
             /\ (snd local = [] -> fst local = strided_identity_ k)).
Proof.
  intros Hmax Hpos Hlarge [Hfit Hfit_all] wg contig strided.
  assert (Hwg : 0 < wg) by (unfold wg; lia).
  assert (Hfit' : reduction_nelems + 4 * wg < size_t_modulus)
    by (unfold wg; lia).
  assert (Hfit_all' : iter_nelems * reduction_nelems + 4 * wg < size_t_modulus)
    by (unfold wg; lia).
  assert (Hfit0 : 0 * reduction_nelems + 4 * wg < size_t_modulus)
    by (unfold wg; lia).
  destruct (reduction_groups_cover reduction_nelems wg Hwg Hlarge Hfit')
    as (_ & _ & _ & Hgw).
  unfold contig, strided. rewrite ContigFactory_get_eq, StridedFactory_get_eq.
  split.
  - rewrite (contig_impl_large r exec_q iter_nelems reduction_nelems
                               arg_cp res_cp iter_arg_offset iter_res_offset
                               red_arg_offset depends max_sg
                               Hmax Hpos Hfit Hfit_all Hlarge).
    eexists _, _, _. split; [reflexivity|].
    intros [rid bid] lid Hg Hlid.
    apply (nd_groups_spec iter_nelems _ wg (rid, bid) Hwg Hgw) in Hg.
    destruct Hg as [Hrid Hbid]. simpl in Hrid, Hbid. cbv zeta. simpl fst.
    set (k := {| contig_inp_ := _ |}).
    pose proof (contig_start_eq iter_nelems reduction_nelems wg Hwg Hlarge
                                Hfit' Hfit_all' k eq_refl eq_refl
                                rid bid lid Hrid Hbid) as Hs.
    pose proof (contig_end_eq iter_nelems reduction_nelems wg Hwg Hlarge
                              Hfit' Hfit_all' k eq_refl eq_refl
                              rid bid lid Hrid Hbid) as He.
    pose proof (contig_range_nonempty iter_nelems reduction_nelems wg Hwg
                                      Hlarge Hfit' Hfit_all' k eq_refl eq_refl
                                      rid bid lid Hrid Hbid) as Hne.
    split; [rewrite He, Hs; reflexivity|].
    split; [rewrite Hs; lia|]. split; [exact Hne|].
    split; [rewrite He; lia|].
    intros i Hi.
    apply (contig_reads_spec iter_nelems reduction_nelems wg Hwg Hlarge
                             Hfit' Hfit_all' k eq_refl eq_refl
                             rid bid lid i Hrid Hbid) in Hi.
    lia.
  - rewrite (strided_impl_large get_displacement r exec_q iter_nelems
                                reduction_nelems arg_cp res_cp iter_nd
                                iter_shape_and_strides iter_arg_offset
                                iter_res_offset red_nd reduction_shape_stride
                                red_arg_offset depends max_sg
                                Hmax Hpos Hfit Hlarge).
    eexists _, _, _. split; [reflexivity|].
    intros [rid bid] lid Hg Hlid.
    apply (nd_groups_spec iter_nelems _ wg (rid, bid) Hwg Hgw) in Hg.
    destruct Hg as [Hrid Hbid]. simpl in Hrid, Hbid. cbv zeta. simpl fst.
    set (k := {| strided_inp_ := _ |}).
    rewrite (strided_local_spec 0 reduction_nelems wg Hwg Hlarge Hfit' Hfit0
                                argT convert_impl_bool mi k
                                eq_refl eq_refl eq_refl rid bid lid Hbid Hlid).
    simpl fst. simpl snd. split; [|split].
    + intros gid Hgid.
      apply (proj1 (lane_reads_spec _ _ _ _ _)) in Hgid.
      apply Hgid.
    + reflexivity.
    + intros ->. simpl. now destruct r.
Qed.

End InRange.

End BooleanReductionTheorems.

(* ------------------------------------------------------------------------- *)
(** ** The theorems at concrete inputs *)

Module Witnesses.
Import Sycl SyclFacts BooleanReductions BooleanReductionSpec Examples.
Import MultiplyBroadcast MultiplyBroadcastFacts BooleanReductionTheorems.

(** A row of three elements on a device with sub-groups of 16: the scratch
    vector has 19 elements, and after the fill kernel its element 4 is
    element 1 of the row. *)
Lemma padded_vec_size_and_contents_witness :
  exists st' comp_ev fill m',
    multiply_contig_matrix_contig_row_broadcast_impl
      malloc_ok (idle_state 16) 2 3 arg_cp 0 vec_cp 0 res_cp 0 []
    = (st', Returned comp_ev)
    /\ heap st' = [(scratch, 19%N)]
    /\ make_padded_vec_result (cg_work fill) input m'
    /\ load m' (ptr_add scratch 4) = load input (ptr_add (ptr_add vec_cp 0) 1).
Proof.
  destruct (@padded_vec_size_and_contents
              Z malloc_ok (idle_state 16) 2 3 arg_cp 0 vec_cp 0 res_cp 0 []
              16%N scratch)
    as (st' & comp_ev & fill & H1 & H2 & _ & _ & _ & Hruns & Hfilled).
  - reflexivity.
  - reflexivity.
  - reflexivity.
  - reflexivity.
  - simpl. discriminate.
  - destruct (Hruns input) as [m' Hm'].
    exists st', comp_ev, fill, m'.
    split; [exact H1|]. split; [exact H2|]. split; [exact Hm'|].
    exact (Hfilled input m' Hm' 4%N eq_refl).
Defined.

(** The three command groups of one call run in the order of their
    submission: the host task (event 2) after the compute kernel
    (event 1). *)
Lemma cleanup_depends_on_compute_witness :
  valid_order
    (exec_q (fst (multiply_contig_matrix_contig_row_broadcast_impl
                    malloc_ok (idle_state 16) 2 3
                    arg_cp 0 vec_cp 0 res_cp 0 [])))
    0 [0; 1; 2]%nat
  /\ runs_before [0; 1; 2]%nat 1%nat 2%nat.
Proof.
  assert (Horder :
            valid_order
              (exec_q (fst (multiply_contig_matrix_contig_row_broadcast_impl
                              malloc_ok (idle_state 16) 2 3
                              arg_cp 0 vec_cp 0 res_cp 0 [])))
              0 [0; 1; 2]%nat).
  { split.
    - apply Permutation_refl.
    - intros e cg He Hcg d Hd _.
      destruct He as [<- | [<- | [<- | []]]]; simpl in Hcg;
        injection Hcg as <-; simpl in Hd.
      + destruct Hd.
      + destruct Hd as [<- | []]. exists 0%nat, 1%nat. simpl. auto.
      + destruct Hd as [<- | []]. exists 1%nat, 2%nat. simpl. auto. }
  split; [exact Horder|].
  destruct (@cleanup_depends_on_compute
              malloc_ok (idle_state 16) 2 3 arg_cp 0 vec_cp 0 res_cp 0 []
              (fst (multiply_contig_matrix_contig_row_broadcast_impl
                      malloc_ok (idle_state 16) 2 3
                      arg_cp 0 vec_cp 0 res_cp 0 []))
              1%nat eq_refl)
    as (p & compute & cleanup & _ & _ & _ & _ & _ & _ & _ & _ & Hbefore).
  apply (Hbefore 0%nat [0; 1; 2]%nat); [apply le_0_n | exact Horder].
Defined.

Lemma allocation_failure_submits_nothing_witness :
  multiply_contig_matrix_contig_row_broadcast_impl
    malloc_fails (idle_state 16) 2 3 arg_cp 0 vec_cp 0 res_cp 0 []
  = (idle_state 16, Thrown "Could not allocate memory on the device").
Proof.
  apply (@allocation_failure_submits_nothing
           malloc_fails (idle_state 16) 2 3 arg_cp 0 vec_cp 0 res_cp 0 []
           16%N eq_refl eq_refl).
Defined.

(** Two iteration indices, an empty axis: the kernel runs and [all]
    stores 1 in slot 1. *)
Lemma empty_axis_gives_identity_witness :
  exists m',
    launch_outputs
      convert_int32 int32_of_int32 input (idle_queue reduction_work 8)
      (fst (ContigFactory_get all (idle_queue reduction_work 8)
                              2 0 arg_cp res_cp 0 0 0 []))
      output m'
    /\ load m' (ptr_add (ptr_add res_cp 0) 1) = 1%Z.
Proof.
  destruct (@empty_axis_gives_identity
              Z convert_int32 int32_of_int32 displacement_1d input
              all (idle_queue reduction_work 8) 2 arg_cp res_cp 0 0 0
              1%nat [2; 0; 1]%Z 1%nat [0; 1]%Z [] 8%N output)
    as (_ & _ & _ & _ & [m' Hm'] & H & _).
  - reflexivity.
  - reflexivity.
  - reflexivity.
  - constructor.
  - exists m'. split; [exact Hm' | exact (H m' Hm' 1%N eq_refl)].
Defined.

(** Two rows of nine elements: a device with sub-groups of 8 takes the
    sequential path (9 < 32), one with sub-groups of 1 the work-group path
    (4 <= 9), and [any] gives the same outputs on both. *)
Lemma sequential_and_work_group_paths_agree_witness :
  exists ms ml,
    launch_outputs
      convert_int32 int32_of_int32 input (idle_queue reduction_work 8)
      (fst (ContigFactory_get any (idle_queue reduction_work 8)
                              2 9 arg_cp res_cp 0 0 0 []))
      output ms
    /\ launch_outputs
         convert_int32 int32_of_int32 input
         (idle_queue reduction_work 1)
         (fst (ContigFactory_get any (idle_queue reduction_work 1)
                                 2 9 arg_cp res_cp 0 0 0 []))
         output ml
    /\ load ms (ptr_add res_cp 0) = load ml (ptr_add res_cp 0)
    /\ load ms (ptr_add res_cp 1) = load ml (ptr_add res_cp 1).
Proof.
  destruct (@sequential_and_work_group_paths_agree
              Z convert_int32 int32_of_int32 displacement_1d input
              any (idle_queue reduction_work 8)
              (idle_queue reduction_work 1) 2 9
              arg_cp res_cp 0 0 0
              1%nat [2; 9; 1]%Z 1%nat [9; 1]%Z [] [] 8%N 1%N output)
    as (_ & _ & [ms Hs] & [ml Hl] & H & _).
  - reflexivity.
  - reflexivity.
  - reflexivity.
  - reflexivity.
  - discriminate.
  - split; reflexivity.
  - split; reflexivity.
  - constructor.
  - constructor.
  - intros []; reflexivity.
  - intros i j _ _ Hij.
    unfold TwoOffsets_StridedIndexer, displacement_1d in Hij. simpl in Hij.
    lia.
  - exists ms, ml. split; [exact Hs|]. split; [exact Hl|].
    split; apply (proj1 (H ms ml Hs Hl)).
Defined.

(** Nine elements and work-groups of four: three elements per work-item,
    one group. *)
Lemma reductions_per_wi_is_min_and_groups_cover_witness :
  reductions_per_wi_of 9 4 = 3%N
  /\ reduction_groups_of 9 (reductions_per_wi_of 9 4) 4 = Some 1%N.
Proof.
  destruct (@reductions_per_wi_is_min_and_groups_cover 9 4)
    as (_ & Hmin & _ & groups & Hg & Heq & _).
  - reflexivity.
  - discriminate.
  - reflexivity.
  - split; [exact Hmin|]. rewrite Hg, Heq. reflexivity.
Defined.

(** Two rows of nine elements, work-groups of four: the launcher submits
    the initialisation kernel and the work-group kernel, whose groups read
    in their row. *)
Lemma work_group_kernels_read_in_range_witness :
  exists init gws1 k,
    submitted (fst (ContigFactory_get all (idle_queue reduction_work 1) 2 9
                                      arg_cp res_cp 0 0 0 []))
    = ([] ++ [init])
      ++ [{| depends_on := [0%nat];
             cg_work := boolean_reduction_contig_krn 2 gws1 1 4 k |}]
    /\ forall g lid,
        In g (nd_groups 2 gws1 1 4) -> (lid < 4)%N ->
        forall i, In i (ContigBooleanReduction_reads k (item_of g lid 4)) ->
                  (fst g * 9 <= i < fst g * 9 + 9)%N.
Proof.
  destruct (@work_group_kernels_read_in_range
              Z convert_int32 displacement_1d input
              all (idle_queue reduction_work 1) 2 9 arg_cp res_cp 0 0 0
              1%nat [2; 9; 1]%Z 1%nat [9; 1]%Z [] 1%N)
    as [(init & gws1 & k & Hsub & Hall) _].
  - reflexivity.
  - reflexivity.
  - discriminate.
  - split; reflexivity.
  - exists init, gws1, k. split; [exact Hsub|].
    intros g lid Hg Hlid.
    exact (proj2 (proj2 (proj2 (proj2 (Hall g lid Hg Hlid))))).
Defined.

End Witnesses.

(* ------------------------------------------------------------------------- *)
(** ** The flags accessor: keys, contiguity classes, bits, [__repr__] *)

Module UsmFlagsFurther.
Import UsmFlags UsmFlagsRepr UsmFlagsFacts.
Local Open Scope Z_scope.
Local Open Scope string_scope.

Section WithConstants.

Variables USM_ARRAY_C_CONTIGUOUS USM_ARRAY_F_CONTIGUOUS USM_ARRAY_WRITEABLE : Z.
Variable usm_ndarray : Type.

Let c_contiguous' := @c_contiguous USM_ARRAY_C_CONTIGUOUS usm_ndarray.
Let f_contiguous' := @f_contiguous USM_ARRAY_F_CONTIGUOUS usm_ndarray.
Let writable' := @writable USM_ARRAY_WRITEABLE usm_ndarray.
Let forc' :=
  @forc USM_ARRAY_C_CONTIGUOUS USM_ARRAY_F_CONTIGUOUS usm_ndarray.
Let fnc' :=
  @fnc USM_ARRAY_C_CONTIGUOUS USM_ARRAY_F_CONTIGUOUS usm_ndarray.
Let contiguous' :=
  @contiguous USM_ARRAY_C_CONTIGUOUS USM_ARRAY_F_CONTIGUOUS usm_ndarray.
Let getitem' :=
  @__getitem__ USM_ARRAY_C_CONTIGUOUS USM_ARRAY_F_CONTIGUOUS
               USM_ARRAY_WRITEABLE usm_ndarray.
Let repr' :=
  @__repr__ USM_ARRAY_C_CONTIGUOUS USM_ARRAY_F_CONTIGUOUS
            USM_ARRAY_WRITEABLE usm_ndarray.

(** X1. [__getitem__] knows six names: the two spellings of the C and of
    the F flag give the same value, ["CONTIGUOUS"] gives [forc], and every
    other name -- ["FNC"] and ["FORC"] among them -- gives [None] instead
    of an error. *)
Theorem getitem_names (self : Flags usm_ndarray) (name : string) :
  (name = "C_CONTIGUOUS" \/ name = "C" ->
   getitem' self name = Some (c_contiguous' self))
  /\ (name = "F_CONTIGUOUS" \/ name = "F" ->
      getitem' self name = Some (f_contiguous' self))
  /\ (name = "WRITABLE" -> getitem' self name = Some (writable' self))
  /\ (name = "CONTIGUOUS" -> getitem' self name = Some (forc' self))
  /\ (getitem' self name = None
      <-> ~ In name ["C_CONTIGUOUS"; "C"; "F_CONTIGUOUS"; "F";
                     "WRITABLE"; "CONTIGUOUS"])
  /\ getitem' self "FNC" = None
  /\ getitem' self "FORC" = None.
Proof.
  split; [intros [-> | ->]; reflexivity|].
  split; [intros [-> | ->]; reflexivity|].
  split; [intros ->; reflexivity|].
  split; [intros ->; reflexivity|].
  split; [|split; reflexivity].
  unfold getitem', __getitem__, name_in. simpl existsb.
  destruct (String.eqb_spec name "C_CONTIGUOUS") as [-> | H1].
  { simpl. split; [discriminate | intros H; exfalso; apply H; now left]. }
  destruct (String.eqb_spec name "C") as [-> | H2].
  { simpl. split; [discriminate|]. intros H. exfalso. apply H. right. now left. }
  destruct (String.eqb_spec name "F_CONTIGUOUS") as [-> | H3].
  { simpl. split; [discriminate|]. intros H. exfalso. apply H.
    right. right. now left. }
  destruct (String.eqb_spec name "F") as [-> | H4].
  { simpl. split; [discriminate|]. intros H. exfalso. apply H.
    right. right. right. now left. }
  destruct (String.eqb_spec name "WRITABLE") as [-> | H5].
  { simpl. split; [discriminate|]. intros H. exfalso. apply H.
    right. right. right. right. now left. }
  destruct (String.eqb_spec name "CONTIGUOUS") as [-> | H6].
  { simpl. split; [discriminate|]. intros H. exfalso. apply H.
    right. right. right. right. right. now left. }
  simpl. split; [|reflexivity].
  intros _ [H | [H | [H | [H | [H | [H | []]]]]]]; congruence.
Qed.

(** X2. Every flags word is in exactly one of three classes: C-contiguous;
    F-contiguous only ([fnc]); not contiguous.  [forc], [contiguous] and
    the ["CONTIGUOUS"] key hold in the first two. *)
Theorem contiguity_classes (self : Flags usm_ndarray) :
  ((c_contiguous' self = true /\ fnc' self = false /\ forc' self = true)
   \/ (c_contiguous' self = false /\ fnc' self = true /\ forc' self = true)
   \/ (c_contiguous' self = false /\ fnc' self = false
       /\ forc' self = false))
  /\ forc' self = c_contiguous' self || f_contiguous' self
  /\ fnc' self = f_contiguous' self && negb (c_contiguous' self)
  /\ contiguous' self = forc' self
  /\ getitem' self "CONTIGUOUS"
     = Some (c_contiguous' self || fnc' self).
Proof.
  unfold getitem', contiguous', forc', fnc', c_contiguous', f_contiguous',
    __getitem__, contiguous, forc, fnc, c_contiguous, f_contiguous.
  simpl name_in. cbv iota.
  destruct (Z.land (flags_ self) USM_ARRAY_C_CONTIGUOUS
            =? USM_ARRAY_C_CONTIGUOUS)%Z;
    destruct (Z.land (flags_ self) USM_ARRAY_F_CONTIGUOUS
              =? USM_ARRAY_F_CONTIGUOUS)%Z;
    simpl; repeat split; auto.
Qed.

Lemma repr_lines (self : Flags usm_ndarray) :
  repr' self
  = "  C_CONTIGUOUS : " ++ py_str (Some (c_contiguous' self)) ++ newline
    ++ "  F_CONTIGUOUS : " ++ py_str (Some (f_contiguous' self)) ++ newline
    ++ "  WRITABLE : " ++ py_str (Some (writable' self)).
Proof. reflexivity. Qed.

(** X4. [__repr__] shows the three accessors and nothing else of the
    flags word: two objects have the same representation exactly when
    [c_contiguous], [f_contiguous] and [writable] agree on them; the text
    has three lines and never prints [None]. *)
Theorem repr_determines_flags (self other : Flags usm_ndarray) :
  (repr' self = repr' other
   <-> c_contiguous' self = c_contiguous' other
       /\ f_contiguous' self = f_contiguous' other
       /\ writable' self = writable' other)
  /\ exists c f w : bool,
      repr' self
      = "  C_CONTIGUOUS : " ++ py_str (Some c) ++ newline
        ++ "  F_CONTIGUOUS : " ++ py_str (Some f) ++ newline
        ++ "  WRITABLE : " ++ py_str (Some w).
Proof.
  split; [|exists (c_contiguous' self), (f_contiguous' self),
                  (writable' self); apply repr_lines].
  rewrite !repr_lines.
  destruct (c_contiguous' self), (c_contiguous' other),
    (f_contiguous' self), (f_contiguous' other),
    (writable' self), (writable' other);
    (split; [intros H; try discriminate H; repeat split; reflexivity
            | intros (H1 & H2 & H3); try discriminate H1;
              try discriminate H2; try discriminate H3; reflexivity]).
Qed.

(** X3. When the three masks are three distinct bits, [c_contiguous] and
    [f_contiguous] are their bits of the flags word and [writable] is the
    negation of its bit; setting or clearing the bit of one mask changes
    the accessor of that mask only. *)
Theorem accessors_read_distinct_bits
        (a b c : Z) (arr : usm_ndarray) (word : Z) :
  0 <= a -> 0 <= b -> 0 <= c ->
  a <> b -> a <> c -> b <> c ->
  USM_ARRAY_C_CONTIGUOUS = 2 ^ a ->
  USM_ARRAY_F_CONTIGUOUS = 2 ^ b ->
  USM_ARRAY_WRITEABLE = 2 ^ c ->
  let flags_of w := {| arr_ := arr; flags_ := w |} in
  c_contiguous' (flags_of word) = Z.testbit word a
  /\ f_contiguous' (flags_of word) = Z.testbit word b
  /\ writable' (flags_of word) = negb (Z.testbit word c)
  /\ writable' (flags_of (Z.setbit word c)) = false
  /\ writable' (flags_of (Z.clearbit word c)) = true
  /\ c_contiguous' (flags_of (Z.setbit word c)) = c_contiguous' (flags_of word)
  /\ c_contiguous' (flags_of (Z.clearbit word c))
     = c_contiguous' (flags_of word)
  /\ f_contiguous' (flags_of (Z.setbit word c)) = f_contiguous' (flags_of word)
  /\ f_contiguous' (flags_of (Z.clearbit word c))
     = f_contiguous' (flags_of word)
  /\ writable' (flags_of (Z.setbit word a)) = writable' (flags_of word)
  /\ writable' (flags_of (Z.setbit word b)) = writable' (flags_of word)
  /\ c_contiguous' (flags_of (Z.setbit word a)) = true
  /\ f_contiguous' (flags_of (Z.setbit word b)) = true.
Proof.
  intros Ha Hb Hc Hab Hac Hbc HC HF HW flags_of.
  assert (Hcc : forall w, c_contiguous' (flags_of w) = Z.testbit w a).
  { intros w. unfold c_contiguous', c_contiguous. simpl.
    rewrite HC. now apply land_pow2_eqb. }
  assert (Hfc : forall w, f_contiguous' (flags_of w) = Z.testbit w b).
  { intros w. unfold f_contiguous', f_contiguous. simpl.
    rewrite HF. now apply land_pow2_eqb. }
  assert (Hwr : forall w, writable' (flags_of w) = negb (Z.testbit w c)).
  { intros w. unfold writable', writable, flags. simpl.
    rewrite HW, land_pow2_eqb by assumption.
    now destruct (Z.testbit w c). }
  rewrite !Hcc, !Hfc, !Hwr.
  rewrite !Z.setbit_eq, !Z.clearbit_eq by assumption.
  rewrite !Z.setbit_neq, !Z.clearbit_neq by (assumption || congruence).
  repeat split; reflexivity.
Qed.

End WithConstants.

(** With the masks 1, 2 and 4 and the flags word 3: *)
Lemma accessors_read_distinct_bits_witness :
  c_contiguous 1 {| arr_ := tt; flags_ := 3 |} = true
  /\ writable 4 {| arr_ := tt; flags_ := Z.setbit 3 2 |} = false.
Proof.
  destruct (@accessors_read_distinct_bits 1 2 4 unit 0 1 2 tt 3)
    as (H1 & _ & _ & H4 & _); try lia; try reflexivity.
  split; [exact H1 | exact H4].
Defined.

End UsmFlagsFurther.

(* ------------------------------------------------------------------------- *)
(** ** multiply.hpp: registered kernels and the elementwise launchers *)

Module MultiplyFurther.
Import TypeDispatch Multiply MultiplyElementwise Sycl SyclFacts.
Import BooleanReductionSpec GridFacts MultiplyFacts.

Lemma in_registered (get : ElementType -> ElementType -> fnT)
      (T1 T2 : ElementType) :
  In (T1, T2) (registered get) <-> get T1 T2 <> nullptr.
Proof.
  unfold registered. rewrite filter_In, in_prod_iff. simpl.
  split.
  - intros [_ H] Hn. rewrite Hn in H. discriminate.
  - intros H. split; [split; apply all_types_complete|].
    destruct (get T1 T2); [contradiction | reflexivity ..].
Qed.

(** X5. The contiguous and the strided factory return a launcher for 14
    pairs of types, the two broadcast factories for 12: the pairs of one
    non-complex type.  Wherever a broadcast factory returns a launcher the
    functor supports sub-group loads and stores and the contiguous and
    strided factories return one too; the pairs of one complex type have
    contiguous and strided launchers only, and no vector path. *)
Theorem registered_multiply_kernels (T1 T2 : ElementType) :
  length (registered MultiplyContigFactory_get) = 14%nat
  /\ length (registered MultiplyStridedFactory_get) = 14%nat
  /\ length (registered MultiplyContigMatrixContigRowBroadcastFactory_get)
     = 12%nat
  /\ length (registered MultiplyContigRowContigMatrixBroadcastFactory_get)
     = 12%nat
  /\ (In (T1, T2) (registered MultiplyContigFactory_get) <-> T1 = T2)
  /\ (In (T1, T2) (registered MultiplyStridedFactory_get) <-> T1 = T2)
  /\ (In (T1, T2)
         (registered MultiplyContigMatrixContigRowBroadcastFactory_get)
      <-> T1 = T2 /\ is_complex T1 = false)
  /\ (In (T1, T2)
         (registered MultiplyContigRowContigMatrixBroadcastFactory_get)
      <-> T1 = T2 /\ is_complex T1 = false)
  /\ (MultiplyContigMatrixContigRowBroadcastFactory_get T1 T2 <> nullptr ->
      supports_sg_loadstore T1 T2 = true
      /\ MultiplyContigFactory_get T1 T2 <> nullptr
      /\ MultiplyStridedFactory_get T1 T2 <> nullptr)
  /\ (MultiplyContigFactory_get T1 T2 <> nullptr ->
      supports_vec T1 T2 = false ->
      is_complex T1 = true
      /\ MultiplyContigMatrixContigRowBroadcastFactory_get T1 T2 = nullptr
      /\ MultiplyContigRowContigMatrixBroadcastFactory_get T1 T2 = nullptr).
Proof.
  split; [reflexivity|]. split; [reflexivity|].
  split; [reflexivity|]. split; [reflexivity|].
  rewrite !in_registered.
  destruct T1, T2; cbv; repeat split; intros; try congruence;
    try discriminate; try tauto;
    match goal with
    | H : _ /\ _ |- _ => destruct H; congruence
    | H : ?x = ?x -> False |- _ => exfalso; apply H; reflexivity
    | _ => idtac
    end.
Qed.

(** X6. The contiguous launcher submits one command group, waiting for
    [depends], and returns its event; the grid has [n_groups] groups of 64
    work-items of 8 elements each, [n_groups] being the least number for
    which they cover [nelems]; there is no group when [nelems] is 0. *)
Theorem multiply_contig_grid
        (exec_q : queue elementwise_work) (nelems : N)
        (arg1_p : pointer) (arg1_offset : Z)
        (arg2_p : pointer) (arg2_offset : Z)
        (res_p : pointer) (res_offset : Z) (depends : list event) :
  (nelems + 512 < size_t_modulus)%N ->
  let launched :=
    multiply_contig_impl exec_q nelems arg1_p arg1_offset arg2_p arg2_offset
                         res_p res_offset depends in
  exists n_groups,
    snd launched = length (submitted exec_q)
    /\ get_device (fst launched) = get_device exec_q
    /\ submitted (fst launched)
       = submitted exec_q
         ++ [{| depends_on := depends;
                cg_work :=
                  multiply_contig_kernel
                    (n_groups * 64) 64
                    (ptr_add arg1_p arg1_offset) (ptr_add arg2_p arg2_offset)
                    (ptr_add res_p res_offset) nelems |}]
    /\ (nelems <= n_groups * 64 * 8)%N
    /\ (n_groups * 64 * 8 < nelems + 64 * 8)%N
    /\ (nelems = 0%N -> n_groups = 0%N).
Proof.
  intros Hfit launched. exists (ceil_div nelems 512).
  destruct (ceil_div_bounds nelems 512 ltac:(lia)) as [H1 H2].
  assert (Hg : (ceil_div nelems 512 * 512 < nelems + 512)%N).
  { destruct (N.eq_dec nelems 0) as [-> | Hn]; [reflexivity|].
    specialize (H2 ltac:(lia)).
    assert (1 <= ceil_div nelems 512)%N.
    { destruct (N.eq_dec (ceil_div nelems 512) 0) as [H0|]; [|lia].
      rewrite H0 in H1. lia. }
    lia. }
  assert (Hshape :
            launched
            = ({| get_device := get_device exec_q;
                  submitted :=
                    submitted exec_q
                    ++ [{| depends_on := depends;
                           cg_work :=
                             multiply_contig_kernel
                               (ceil_div nelems 512 * 64) 64
                               (ptr_add arg1_p arg1_offset)
                               (ptr_add arg2_p arg2_offset)
                               (ptr_add res_p res_offset) nelems |}] |},
               length (submitted exec_q))).
  { unfold launched, multiply_contig_impl. cbv zeta.
    change (size_mul (size_mul 64 2) 4) with 512%N.
    rewrite size_add_small by assumption.
    rewrite size_sub_small by lia.
    fold (ceil_div nelems 512).
    rewrite size_mul_small by lia. reflexivity. }
  rewrite Hshape. simpl.
  repeat split; lia.
Qed.

Lemma multiply_contig_grid_witness :
  exists n_groups,
    submitted (fst (multiply_contig_impl
                      {| get_device := {| sub_group_sizes := [16%N] |};
                         submitted := [] |}
                      1000 (Build_pointer 0 0) 0 (Build_pointer 1 0) 0
                      (Build_pointer 2 0) 0 []))
    = [] ++ [{| depends_on := [];
                cg_work :=
                  multiply_contig_kernel
                    (n_groups * 64) 64
                    (ptr_add (Build_pointer 0 0) 0)
                    (ptr_add (Build_pointer 1 0) 0)
                    (ptr_add (Build_pointer 2 0) 0) 1000 |}]
    /\ (1000 <= n_groups * 64 * 8)%N.
Proof.
  destruct (@multiply_contig_grid
              {| get_device := {| sub_group_sizes := [16%N] |};
                 submitted := [] |}
              1000 (Build_pointer 0 0) 0 (Build_pointer 1 0) 0
              (Build_pointer 2 0) 0 [])
    as (n_groups & _ & _ & Hsub & Hcov & _).
  - reflexivity.
  - exists n_groups. split; [exact Hsub | exact Hcov].
Defined.

Lemma runs_before_trans (order : list event) (a b c : event) :
  runs_before order a b -> runs_before order b c -> runs_before order a c.
Proof.
  intros (i & j & Hi & Hj & Hij) (j' & k & Hj' & Hk & Hjk).
  rewrite Hj in Hj'. injection Hj' as <-.
  exists i, k. repeat split; try assumption. lia.
Qed.

(** X7. The strided launcher submits one command group over [nelems]
    work-items and returns its event; the command group waits for the
    events of both lists: in every order of execution the dependencies
    allow, it runs after each event of [depends] and of
    [additional_depends] that has not completed. *)
Theorem multiply_strided_waits_for_both_lists
        (exec_q : queue elementwise_work) (nelems : N)
        (nd : nat) (shape_and_strides : list Z)
        (arg1_p : pointer) (arg1_offset : Z)
        (arg2_p : pointer) (arg2_offset : Z)
        (res_p : pointer) (res_offset : Z)
        (depends additional_depends : list event) :
  let launched :=
    multiply_strided_impl exec_q nelems nd shape_and_strides
                          arg1_p arg1_offset arg2_p arg2_offset
                          res_p res_offset depends additional_depends in
  let comp_ev := snd launched in
  comp_ev = length (submitted exec_q)
  /\ submitted (fst launched)
     = submitted exec_q
       ++ [{| depends_on := depends ++ additional_depends;
              cg_work :=
                multiply_strided_strided_kernel
                  nelems arg1_p arg2_p res_p
                  nd arg1_offset arg2_offset res_offset shape_and_strides |}]
  /\ forall completed order,
      (completed <= comp_ev)%nat ->
      valid_order (fst launched) completed order ->
      forall d, In d depends \/ In d additional_depends ->
                (completed <= d)%nat ->
                runs_before order d comp_ev.
Proof.
  intros launched comp_ev.
  split; [reflexivity|]. split; [reflexivity|].
  intros completed order Hc [Hperm Hdeps] d Hd Hpending.
  apply (Hdeps comp_ev
               {| depends_on := depends ++ additional_depends;
                  cg_work :=
                    multiply_strided_strided_kernel
                      nelems arg1_p arg2_p res_p
                      nd arg1_offset arg2_offset res_offset
                      shape_and_strides |}).
  - apply (Permutation_in _ (Permutation_sym Hperm)). apply in_seq.
    unfold comp_ev, launched, multiply_strided_impl in *. simpl in *.
    rewrite length_app. simpl. lia.
  - unfold comp_ev, launched, multiply_strided_impl. simpl.
    apply nth_error_snoc.
  - simpl. apply in_or_app. exact Hd.
  - exact Hpending.
Qed.

End MultiplyFurther.

(* ------------------------------------------------------------------------- *)
(** ** The matrix-row broadcast launcher: grid, chain, scratch vector *)

Module MultiplyBroadcastFurther.
Import Sycl SyclFacts MultiplyBroadcast MultiplyBroadcastFacts FurtherSpec.
Import BooleanReductionSpec GridFacts MultiplyFurther.

Section Launcher.

Variable malloc_device : N -> usm_heap -> option pointer.

Let impl := multiply_contig_matrix_contig_row_broadcast_impl malloc_device.
Let impl_swapped :=
  multiply_contig_row_contig_matrix_broadcast_impl malloc_device.

Variable st : state.
Variables n0 n1 : N.
Variables mat_p vec_p res_p : pointer.
Variables mat_offset vec_offset res_offset : Z.
Variable depends : list event.

Let l := submitted (exec_q st).

(** What the launcher submits when the allocation succeeds. *)
Lemma broadcast_impl_success (max_sgSize : N) (padded_vec : pointer) :
  max_element (sub_group_sizes (get_device (exec_q st))) = Some max_sgSize ->
  malloc_device (size_add n1 max_sgSize) (heap st) = Some padded_vec ->
  let fill :=
    {| depends_on := depends;
       cg_work := make_padded_vec_krn (size_add n1 max_sgSize) padded_vec
                                      (ptr_add vec_p vec_offset) n1 |} in
  let compute :=
    {| depends_on := [length l];
       cg_work :=
         multiply_matrix_row_broadcast_sg_krn
           (size_mul (size_sub (size_add (size_mul n0 n1) 64) 1 / 64)%N 64)
           64 (ptr_add mat_p mat_offset) padded_vec
           (ptr_add res_p res_offset) (size_mul n0 n1) n1 |} in
  let cleanup :=
    {| depends_on := [length (l ++ [fill])];
       cg_work := host_task_free padded_vec |} in
  impl st n0 n1 mat_p mat_offset vec_p vec_offset res_p res_offset depends
  = ({| exec_q :=
          {| get_device := get_device (exec_q st);
             submitted := ((l ++ [fill]) ++ [compute]) ++ [cleanup] |};
        host_tasks :=
          host_tasks st ++ [length ((l ++ [fill]) ++ [compute])];
        heap := (padded_vec, size_add n1 max_sgSize) :: heap st |},
     Returned (length (l ++ [fill]))).
Proof.
  intros Hmax Halloc. cbv zeta.
  unfold impl, multiply_contig_matrix_contig_row_broadcast_impl.
  rewrite Hmax, Halloc. reflexivity.
Qed.

Lemma broadcast_impl_returned (st' : state) (comp_ev : event) :
  impl st n0 n1 mat_p mat_offset vec_p vec_offset res_p res_offset depends
  = (st', Returned comp_ev) ->
  exists max_sgSize padded_vec,
    max_element (sub_group_sizes (get_device (exec_q st))) = Some max_sgSize
    /\ malloc_device (size_add n1 max_sgSize) (heap st) = Some padded_vec.
Proof.
  unfold impl, multiply_contig_matrix_contig_row_broadcast_impl.
  destruct (max_element _) as [max_sgSize|]; [|discriminate].
  destruct (malloc_device _ _) as [padded_vec|] eqn:Halloc; [|discriminate].
  intros _. eauto.
Qed.

(** X8. The compute kernel is launched over [n_groups] groups of 64
    work-items, the least number that covers the [n0 * n1] elements of
    the matrix: fewer than 64 work-items have no element; it gets the
    matrix, the scratch vector and the result, and waits for the fill
    kernel. *)
Theorem broadcast_compute_grid (st' : state) (comp_ev : event) :
  impl st n0 n1 mat_p mat_offset vec_p vec_offset res_p res_offset depends
  = (st', Returned comp_ev) ->
  (n0 * n1 + 64 < size_t_modulus)%N ->
  exists n_groups padded_vec,
    nth_error (submitted (exec_q st')) comp_ev
    = Some {| depends_on := [length (submitted (exec_q st))];
              cg_work :=
                multiply_matrix_row_broadcast_sg_krn
                  (n_groups * 64)%N 64%N (ptr_add mat_p mat_offset)
                  padded_vec (ptr_add res_p res_offset) (n0 * n1)%N n1 |}
    /\ In padded_vec (allocated (heap st'))
    /\ (n0 * n1 <= n_groups * 64)%N
    /\ (n_groups * 64 < n0 * n1 + 64)%N
    /\ ((n0 * n1)%N = 0%N -> n_groups = 0%N).
Proof.
  intros Himpl Hfit.
  destruct (broadcast_impl_returned st' comp_ev Himpl)
    as (max_sgSize & padded_vec & Hmax & Halloc).
  rewrite (broadcast_impl_success max_sgSize padded_vec Hmax Halloc) in Himpl.
  injection Himpl as <- <-.
  exists (ceil_div (n0 * n1) 64), padded_vec.
  destruct (ceil_div_bounds (n0 * n1) 64 ltac:(lia)) as [H1 H2].
  assert (Hg : (ceil_div (n0 * n1) 64 * 64 < n0 * n1 + 64)%N).
  { destruct (N.eq_dec (n0 * n1) 0) as [-> | Hn]; [reflexivity|].
    specialize (H2 ltac:(lia)).
    assert (1 <= ceil_div (n0 * n1) 64)%N.
    { destruct (N.eq_dec (ceil_div (n0 * n1) 64) 0) as [H0|]; [|lia].
      rewrite H0 in H1. lia. }
    lia. }
  cbn [exec_q submitted heap]. split.
  { rewrite nth_error_app1 by (rewrite !length_app; simpl; lia).
    rewrite nth_error_snoc. do 2 f_equal.
    rewrite (size_mul_small n0 n1) by lia.
    rewrite size_add_small by lia. rewrite size_sub_small by lia.
    fold (ceil_div (n0 * n1) 64). rewrite size_mul_small by lia.
    reflexivity. }
  split; [simpl; now left|].
  repeat split; lia.
Qed.

(** X9. The three command groups of a call form a chain behind the
    caller's events: in every order of execution the dependencies allow,
    each event of [depends] that has not completed runs before the fill
    kernel, the fill kernel before the compute kernel, and the compute
    kernel before the host task, so the host task frees the scratch vector
    after everything the call waits for or submits. *)
Theorem broadcast_chain (st' : state) (comp_ev : event) :
  impl st n0 n1 mat_p mat_offset vec_p vec_offset res_p res_offset depends
  = (st', Returned comp_ev) ->
  let fill_ev := length (submitted (exec_q st)) in
  let tmp_cleanup_ev := S comp_ev in
  length (submitted (exec_q st')) = (3 + fill_ev)%nat
  /\ comp_ev = S fill_ev
  /\ forall completed order,
      (completed <= fill_ev)%nat ->
      valid_order (exec_q st') completed order ->
      runs_before order fill_ev comp_ev
      /\ runs_before order comp_ev tmp_cleanup_ev
      /\ runs_before order fill_ev tmp_cleanup_ev
      /\ forall d, In d depends -> (completed <= d)%nat ->
                   runs_before order d fill_ev
                   /\ runs_before order d comp_ev
                   /\ runs_before order d tmp_cleanup_ev.
Proof.
  intros Himpl fill_ev tmp_cleanup_ev.
  destruct (broadcast_impl_returned st' comp_ev Himpl)
    as (max_sgSize & padded_vec & Hmax & Halloc).
  rewrite (broadcast_impl_success max_sgSize padded_vec Hmax Halloc) in Himpl.
  injection Himpl as <- <-. cbn [exec_q submitted].
  fold l in fill_ev. unfold tmp_cleanup_ev.
  match goal with
  | |- context [((l ++ [?f]) ++ _) ++ _] => set (fill := f)
  end.
  assert (Hlen1 : length (l ++ [fill]) = S fill_ev)
    by (rewrite length_app; simpl; unfold fill_ev; lia).
  rewrite !Hlen1.
  match goal with
  | |- context [((l ++ [fill]) ++ [?c]) ++ [?d]] =>
      set (compute := c); set (cleanup := d)
  end.
  assert (Hlen2 : length ((l ++ [fill]) ++ [compute]) = S (S fill_ev))
    by (rewrite length_app, Hlen1; simpl; lia).
  assert (Hfill : nth_error (((l ++ [fill]) ++ [compute]) ++ [cleanup])
                            fill_ev = Some fill).
  { rewrite nth_error_app1 by lia. rewrite nth_error_app1 by lia.
    apply nth_error_snoc. }
  assert (Hcompute : nth_error (((l ++ [fill]) ++ [compute]) ++ [cleanup])
                               (S fill_ev) = Some compute).
  { rewrite nth_error_app1 by lia. rewrite <- Hlen1. apply nth_error_snoc. }
  assert (Hcleanup : nth_error (((l ++ [fill]) ++ [compute]) ++ [cleanup])
                               (S (S fill_ev)) = Some cleanup).
  { rewrite <- Hlen2. apply nth_error_snoc. }
  split; [rewrite length_app, Hlen2; simpl; lia|].
  split; [reflexivity|].
  intros completed order Hc [Hperm Hdeps].
  cbn [submitted] in Hperm, Hdeps.
  assert (Hin : forall e, (fill_ev <= e < 3 + fill_ev)%nat -> In e order).
  { intros e He. apply (Permutation_in _ (Permutation_sym Hperm)).
    apply in_seq. rewrite length_app, Hlen2. cbn [length]. lia. }
  assert (H12 : runs_before order fill_ev (S fill_ev)).
  { apply (Hdeps (S fill_ev) compute); [apply Hin; lia | exact Hcompute | |].
    - simpl. now left.
    - exact Hc. }
  assert (H23 : runs_before order (S fill_ev) (S (S fill_ev))).
  { apply (Hdeps (S (S fill_ev)) cleanup);
      [apply Hin; lia | exact Hcleanup | |].
    - simpl. now left.
    - lia. }
  split; [exact H12|]. split; [exact H23|].
  split; [exact (runs_before_trans _ _ _ _ H12 H23)|].
  intros d Hd Hpending.
  assert (H01 : runs_before order d fill_ev).
  { apply (Hdeps fill_ev fill); [apply Hin; lia | exact Hfill | exact Hd |].
    exact Hpending. }
  split; [exact H01|].
  split; [exact (runs_before_trans _ _ _ _ H01 H12)|].
  exact (runs_before_trans _ _ _ _ H01 (runs_before_trans _ _ _ _ H12 H23)).
Qed.


(** X10. The row-matrix launcher is given the row first and the matrix
    second; it pads the row and hands the matrix to the compute kernel:
    its fill kernel leaves [padded_vec[i] = vec[i % n1]] for the row [vec]
    of its first pointer, and its compute kernel reads the matrix of its
    second pointer; the host task that frees the scratch vector waits for
    the compute kernel. *)
Theorem row_matrix_launcher_pads_the_row
        (argT2 : Type) (max_sgSize : N) (padded_vec : pointer) :
  max_element (sub_group_sizes (get_device (exec_q st))) = Some max_sgSize ->
  (0 < n1)%N ->
  (n1 + max_sgSize < size_t_modulus)%N ->
  malloc_device (n1 + max_sgSize)%N (heap st) = Some padded_vec ->
  block padded_vec <> block vec_p ->
  exists st' fill compute cleanup gws,
    impl_swapped st n0 n1 vec_p vec_offset mat_p mat_offset
                 res_p res_offset depends
    = (st', Returned (S (length (submitted (exec_q st)))))
    /\ submitted (exec_q st')
       = ((submitted (exec_q st) ++ [fill]) ++ [compute]) ++ [cleanup]
    /\ cg_work fill
       = make_padded_vec_krn (n1 + max_sgSize)%N padded_vec
                             (ptr_add vec_p vec_offset) n1
    /\ cg_work compute
       = multiply_matrix_row_broadcast_sg_krn
           gws 64 (ptr_add mat_p mat_offset) padded_vec
           (ptr_add res_p res_offset) (size_mul n0 n1) n1
    /\ cleanup
       = {| depends_on := [S (length (submitted (exec_q st)))];
            cg_work := host_task_free padded_vec |}
    /\ host_tasks st'
       = host_tasks st ++ [S (S (length (submitted (exec_q st))))]
    /\ (forall m m' : memory argT2,
           make_padded_vec_result (cg_work fill) m m' ->
           forall i, (i < n1 + max_sgSize)%N ->
                     load m' (ptr_add padded_vec (Z.of_N i))
                     = load m (ptr_add (ptr_add vec_p vec_offset)
                                       (Z.of_N (i mod n1)))).
Proof.
  intros Hmax Hn1 Hfit Halloc Hfresh.
  rewrite <- (size_add_small _ _ Hfit) in Halloc.
  unfold impl_swapped, multiply_contig_row_contig_matrix_broadcast_impl.
  fold impl.
  rewrite (broadcast_impl_success max_sgSize padded_vec Hmax Halloc).
  rewrite (size_add_small _ _ Hfit).
  eexists _, _, _, _, _.
  split.
  { f_equal. f_equal. rewrite length_app. simpl. fold l. lia. }
  cbn [exec_q submitted host_tasks cg_work]. fold l.
  split; [reflexivity|]. split; [reflexivity|]. split; [reflexivity|].
  split; [rewrite length_app; simpl; do 3 f_equal; lia|].
  split; [rewrite !length_app; simpl; do 2 f_equal; lia|].
  intros m m' (order & Hperm & ->) i Hi.
  apply make_padded_vec_any_order.
  - simpl. exact Hfresh.
  - intros p _. reflexivity.
  - left. apply (Permutation_in _ (Permutation_sym Hperm)).
    apply In_iota. exact Hi.
Qed.

End Launcher.

Section Fill.

Variable argT2 : Type.
Variables padded_vec vec : pointer.
Variables range n1 : N.

Let body := make_padded_vec_body (argT2 := argT2) padded_vec vec n1.

(** A location no work-item of [order] writes keeps its value. *)
Lemma make_padded_vec_frame (order : list N) :
  forall (m : memory argT2) (q : pointer),
    (forall i, In i order -> q <> ptr_add padded_vec (Z.of_N i)) ->
    parallel_for order body m q = m q.
Proof.
  induction order as [|a o IH]; intros m q Hq; [reflexivity|].
  simpl. rewrite IH by (intros i Hi; apply Hq; now right).
  unfold body, make_padded_vec_body.
  apply load_store_other. intros Heq.
  apply (Hq a (or_introl eq_refl)). exact Heq.
Qed.

(** X11. The fill kernel writes the [range] elements of the scratch vector
    and nothing else; when the scratch vector is an allocation of its own
    and [n1 > 0], its first [n1] elements are the row, and every later
    element repeats the one [n1] places before it: the row, wrapped
    around. *)
Theorem fill_kernel_wraps_the_row (m m' : memory argT2) :
  block padded_vec <> block vec ->
  (0 < n1)%N ->
  make_padded_vec_result (make_padded_vec_krn range padded_vec vec n1) m m' ->
  (forall q, (forall i, (i < range)%N ->
                        q <> ptr_add padded_vec (Z.of_N i)) ->
             load m' q = load m q)
  /\ (forall i, (i < range)%N -> (i < n1)%N ->
                load m' (ptr_add padded_vec (Z.of_N i))
                = load m (ptr_add vec (Z.of_N i)))
  /\ (forall i, (n1 <= i < range)%N ->
                load m' (ptr_add padded_vec (Z.of_N i))
                = load m' (ptr_add padded_vec (Z.of_N (i - n1)))).
Proof.
  intros Hfresh Hn1 (order & Hperm & ->).
  assert (Hin : forall i, (i < range)%N -> In i order).
  { intros i Hi. apply (Permutation_in _ (Permutation_sym Hperm)).
    apply In_iota. exact Hi. }
  assert (Hval : forall i, (i < range)%N ->
            load (parallel_for order body m) (ptr_add padded_vec (Z.of_N i))
            = load m (ptr_add vec (Z.of_N (i mod n1)))).
  { intros i Hi. apply make_padded_vec_any_order.
    - exact Hfresh.
    - intros q _. reflexivity.
    - left. apply Hin. exact Hi. }
  split.
  { intros q Hq. apply make_padded_vec_frame.
    intros i Hi. apply Hq. apply In_iota.
    apply (Permutation_in _ Hperm). exact Hi. }
  split.
  { intros i Hi Hlt. fold body. rewrite (Hval i Hi).
    rewrite N.mod_small by exact Hlt. reflexivity. }
  intros i [Hge Hlt]. fold body.
  rewrite (Hval i Hlt), (Hval (i - n1)%N) by lia.
  do 3 f_equal.
  replace i with ((i - n1) + 1 * n1)%N at 1 by lia.
  apply N.Div0.mod_add.
Qed.

End Fill.

End MultiplyBroadcastFurther.

(* ------------------------------------------------------------------------- *)
(** ** The boolean reductions: the atomic update, the launchers' results *)

Module BooleanReductionFurther.
Import Sycl SyclFacts BooleanReductions BooleanReductionSpec FurtherSpec.
Import ReductionOpFacts ExecutionFacts GridFacts KernelFacts PathFacts.
Import MultiplyFurther.

Section Atomic.

Variable op : ReductionOp.
Variable res_ref : N * N -> pointer.
Variable red_val_over_wg : N * N -> Z.

Let step := nd_step op res_ref red_val_over_wg.
Let run := nd_run op res_ref red_val_over_wg.

Lemma absorbing_l (x : Z) :
  reduction_op_call op (absorbing op) x = absorbing op.
Proof. destruct op; reflexivity. Qed.

Lemma absorbing_r (x : Z) :
  reduction_op_call op x (absorbing op) = absorbing op.
Proof.
  destruct op; simpl.
  - rewrite andb_false_r. reflexivity.
  - rewrite orb_true_r. reflexivity.
Qed.

Lemma absorbing_step (st : nd_state) (g : N * N) (p : pointer) :
  load (nd_mem st) p = absorbing op ->
  load (nd_mem (step st g)) p = absorbing op.
Proof.
  intros H. unfold step, nd_step, atomic_combine_step.
  destruct (nd_pc st g) as [|rv|]; cbn [nd_mem]; try exact H.
  destruct (Z.eqb_spec (load (nd_mem st) (res_ref g)) rv) as [Heq|Hne];
    cbn [nd_mem]; [|exact H].
  destruct (pointer_eqb p (res_ref g)) eqn:Hp.
  - apply pointer_eqb_eq in Hp. subst p. rewrite load_store_same.
    rewrite <- Heq, H. apply absorbing_l.
  - rewrite load_store_other; [exact H|].
    intros ->. rewrite pointer_eqb_refl in Hp. discriminate.
Qed.

Lemma absorbing_run (schedule : list (N * N)) :
  forall (st : nd_state) (p : pointer),
    load (nd_mem st) p = absorbing op ->
    load (nd_mem (run schedule st)) p = absorbing op.
Proof.
  induction schedule as [|g s IH]; intros st p H; [exact H|].
  simpl. apply IH. apply absorbing_step. exact H.
Qed.

(** X13. The atomic update never leaves the absorbing value of the
    operator (0 under [logical_and], 1 under [logical_or]): a slot that
    holds it keeps it through every interleaving of the leaders' steps,
    stale reads and failed compare-exchanges included; and once a group
    whose own value is the absorbing one has finished its loop, its slot
    holds it, whatever the other groups do before or after.  So the
    result of a completed kernel is the absorbing value as soon as one of
    the groups of the slot found it. *)
Theorem atomic_update_keeps_absorbing_value
        (schedule : list (N * N)) (m : memory Z) :
  (forall (st : nd_state) (p : pointer),
      load (nd_mem st) p = absorbing op ->
      load (nd_mem (run schedule st)) p = absorbing op)
  /\ (forall g,
         red_val_over_wg g = absorbing op ->
         nd_pc (run schedule (nd_start m)) g = finished ->
         load (nd_mem (run schedule (nd_start m))) (res_ref g)
         = absorbing op)
  /\ (forall groups m' g,
         nd_range_result op res_ref red_val_over_wg groups m m' ->
         In g groups ->
         red_val_over_wg g = absorbing op ->
         load m' (res_ref g) = absorbing op).
Proof.
  assert (Hfin : forall s g,
             red_val_over_wg g = absorbing op ->
             nd_pc (run s (nd_start m)) g = finished ->
             load (nd_mem (run s (nd_start m))) (res_ref g) = absorbing op).
  { intros s g Hg. induction s as [|h s IH] using rev_ind.
    - simpl. discriminate.
    - unfold run. rewrite nd_run_snoc. fold run.
      set (st := run s (nd_start m)) in *.
      destruct (group_eqb g h) eqn:Hgh.
      + apply group_eqb_eq in Hgh. subst h.
        unfold nd_step, atomic_combine_step.
        destruct (nd_pc st g) as [|rv|] eqn:Hpc; cbn [nd_pc nd_mem];
          rewrite ?group_eqb_refl.
        * discriminate.
        * destruct (Z.eqb_spec (load (nd_mem st) (res_ref g)) rv);
            cbn [nd_pc nd_mem]; rewrite ?group_eqb_refl; [|discriminate].
          intros _. rewrite load_store_same, Hg. apply absorbing_r.
        * intros _. apply IH. reflexivity.
      + intros Hpc. apply (absorbing_step (run s (nd_start m)) h).
        apply IH. rewrite <- Hpc. symmetry.
        apply nd_step_other. intros ->.
        rewrite group_eqb_refl in Hgh. discriminate. }
  split; [intros st p; apply absorbing_run|].
  split; [intros g; apply Hfin|].
  intros groups m' g (s & _ & Hdone & ->) Hin Hg.
  apply Hfin; [exact Hg | apply Hdone; exact Hin].
Qed.

End Atomic.

Section Launchers.

Local Open Scope N_scope.

Variable argT : Type.
Variable convert_impl_bool : argT -> bool.
Variable argT_of_int32 : Z -> argT.
Variable get_displacement : nat -> list Z -> list Z -> Z -> Z.
Variable mi : memory argT.

Let outputs := launch_outputs convert_impl_bool argT_of_int32 mi.
Let truthy (x : argT) : Prop := convert_impl_bool x = true.

Lemma ptr_add_add (p : pointer) (a b : Z) :
  ptr_add (ptr_add p a) b = ptr_add p (a + b).
Proof. unfold ptr_add. simpl. f_equal. lia. Qed.

Lemma bool_code_cases (b : bool) :
  (bool_to_int32 b = 0 \/ bool_to_int32 b = 1)%Z.
Proof. destruct b; simpl; auto. Qed.

Lemma bool_code_one (b : bool) : bool_to_int32 b = 1%Z <-> b = true.
Proof. destruct b; simpl; split; intros H; congruence. Qed.

(** The code of a reduction, read as a statement on the elements. *)
Lemma reduce_spec_code (r : reduction) (l : list argT) :
  bool_to_int32 (reduce_spec (RedOpT r) convert_impl_bool l) = 1%Z
  <-> match r with
      | all => Forall truthy l
      | any => Exists truthy l
      end.
Proof.
  rewrite bool_code_one. destruct r; simpl.
  - rewrite forallb_forall, Forall_forall. reflexivity.
  - rewrite existsb_exists, Exists_exists. reflexivity.
Qed.

Lemma reference_elements (op : ReductionOp) (inp : pointer)
      (offsets : list Z) :
  reference convert_impl_bool op mi inp offsets
  = bool_to_int32
      (reduce_spec op convert_impl_bool
                   (map (fun z => load mi (ptr_add inp z)) offsets)).
Proof. unfold reference. rewrite reduce_spec_map. reflexivity. Qed.

(** X14. The contiguous launcher computes [all] and [any], on every
    device with a positive largest sub-group size and for every size of
    the reduction axis (either path), when the sizes do not overflow: the
    submitted kernels run to completion; whatever the order of the
    work-items and the interleaving of the atomic updates, slot [id] of
    the output then holds 0 or 1, and it holds 1 exactly when every
    element of row [id] converts to true (for [all]) or some element does
    (for [any]); nothing but the [iter_nelems] slots is written, so with
    no iteration index the output is left as it was; and two runs give the
    same memory. *)
Theorem contig_launcher_computes_all_any
        (r : reduction) (exec_q : queue reduction_work)
        (iter_nelems reduction_nelems : N)
        (arg_cp res_cp : pointer)
        (iter_arg_offset iter_res_offset red_arg_offset : Z)
        (depends : list event) (max_sg : N) (m : memory Z) :
  max_element (sub_group_sizes (get_device exec_q)) = Some max_sg ->
  0 < max_sg ->
  sizes_fit iter_nelems reduction_nelems max_sg ->
  submitted_before exec_q depends ->
  let launched :=
    ContigFactory_get r exec_q iter_nelems reduction_nelems arg_cp res_cp
                      iter_arg_offset iter_res_offset red_arg_offset depends in
  let arg_tp := ptr_add (ptr_add arg_cp iter_arg_offset) red_arg_offset in
  let res_tp := ptr_add res_cp iter_res_offset in
  (exists m', outputs exec_q (fst launched) m m')
  /\ (forall m',
         outputs exec_q (fst launched) m m' ->
         (forall id, id < iter_nelems ->
            let slot := load m' (ptr_add res_tp (Z.of_N id)) in
            (slot = 0 \/ slot = 1)%Z
            /\ (slot = 1%Z
                <-> match r with
                    | all => Forall truthy (row mi arg_tp reduction_nelems id)
                    | any => Exists truthy (row mi arg_tp reduction_nelems id)
                    end))
         /\ (forall p, (forall id, id < iter_nelems ->
                                   p <> ptr_add res_tp (Z.of_N id)) ->
                       load m' p = load m p)
         /\ (iter_nelems = 0 -> forall p, load m' p = load m p))
  /\ (forall m1 m2,
         outputs exec_q (fst launched) m m1 ->
         outputs exec_q (fst launched) m m2 ->
         forall p, load m1 p = load m2 p).
Proof.
  intros Hmax Hpos [Hfit Hfit_all] Hdeps launched arg_tp res_tp.
  assert (Hspec : forall m',
             outputs exec_q (fst launched) m m' ->
             reduction_outputs convert_impl_bool (RedOpT r) mi arg_tp res_tp
                               (fun id => Z.of_N (id * reduction_nelems))
                               Z.of_N Z.of_N
                               iter_nelems reduction_nelems m m').
  { intros m' Hout. unfold launched in Hout.
    rewrite BooleanReductionTheorems.ContigFactory_get_eq in Hout.
    eapply contig_impl_outputs; eassumption. }
  split.
  { unfold launched. rewrite BooleanReductionTheorems.ContigFactory_get_eq.
    eapply contig_impl_runs; eassumption. }
  split.
  { intros m' Hout. destruct (Hspec m' Hout) as [Hslot Hframe].
    split; [|split].
    - intros id Hid slot. unfold slot. rewrite (Hslot id Hid).
      rewrite reference_elements, map_map.
      replace (map (fun j => load mi (ptr_add arg_tp
                       (Z.of_N (id * reduction_nelems) + Z.of_N j)))
                   (iota reduction_nelems))
        with (row mi arg_tp reduction_nelems id).
      + split; [apply bool_code_cases | apply reduce_spec_code].
      + unfold row. apply map_ext. intros j. do 2 f_equal. lia.
    - exact Hframe.
    - intros -> p. apply Hframe. intros id Hid. lia. }
  intros m1 m2 H1 H2.
  exact (reduction_outputs_unique _ _ _ _ _ _ _ _ _ _ _ _ _ _
                                  (Hspec m1 H1) (Hspec m2 H2)).
Qed.

(** The slots of the output after a launch of the strided launcher, on
    either path. *)
Lemma strided_outputs_spec
      (r : reduction) (exec_q : queue reduction_work)
      (iter_nelems reduction_nelems : N)
      (arg_cp res_cp : pointer)
      (iter_nd : nat) (iter_shape_and_strides : list Z)
      (iter_arg_offset iter_res_offset : Z)
      (red_nd : nat) (reduction_shape_stride : list Z)
      (reduction_arg_offset : Z)
      (depends : list event) (max_sg : N) (m m' : memory Z) :
  max_element (sub_group_sizes (get_device exec_q)) = Some max_sg ->
  0 < max_sg ->
  sizes_fit iter_nelems reduction_nelems max_sg ->
  (forall b, boolean_predicate_int32 convert_impl_bool argT_of_int32
                                     (bool_to_int32 b) = b) ->
  (forall i j, i < iter_nelems -> j < iter_nelems ->
               snd (TwoOffsets_StridedIndexer
                      get_displacement iter_nd iter_arg_offset
                      iter_res_offset iter_shape_and_strides i)
               = snd (TwoOffsets_StridedIndexer
                        get_displacement iter_nd iter_arg_offset
                        iter_res_offset iter_shape_and_strides j) ->
               i = j) ->
  outputs exec_q
          (fst (StridedFactory_get
                  get_displacement r exec_q iter_nelems reduction_nelems
                  arg_cp res_cp iter_nd iter_shape_and_strides
                  iter_arg_offset iter_res_offset
                  red_nd reduction_shape_stride reduction_arg_offset
                  depends)) m m' ->
  reduction_outputs
    convert_impl_bool (RedOpT r) mi arg_cp res_cp
    (fun id => fst (TwoOffsets_StridedIndexer
                      get_displacement iter_nd iter_arg_offset
                      iter_res_offset iter_shape_and_strides id))
    (fun id => snd (TwoOffsets_StridedIndexer
                      get_displacement iter_nd iter_arg_offset
                      iter_res_offset iter_shape_and_strides id))
    (StridedIndexer get_displacement red_nd reduction_arg_offset
                    reduction_shape_stride)
    iter_nelems reduction_nelems m m'.
Proof.
  intros Hmax Hpos [Hfit Hfit_all] Hpred Hinj Hout.
  rewrite BooleanReductionTheorems.StridedFactory_get_eq in Hout.
  destruct (N.lt_ge_cases reduction_nelems (4 * max_sg)) as [Hlt | Hge].
  - eapply strided_small_outputs; try eassumption.
    intros i j Hi Hj Hs. left. exact (Hinj i j Hi Hj Hs).
  - eapply strided_large_outputs; eassumption.
Qed.

(** X15. The strided launcher computes [all] and [any] in the same
    sense, for the elements at [arg_cp + (iteration offset of id) +
    (reduction offset of j)], when the output slots of distinct iteration
    indices are distinct and [boolean_predicate] maps the codes 0 and 1
    back to false and true. *)
Theorem strided_launcher_computes_all_any
        (r : reduction) (exec_q : queue reduction_work)
        (iter_nelems reduction_nelems : N)
        (arg_cp res_cp : pointer)
        (iter_nd : nat) (iter_shape_and_strides : list Z)
        (iter_arg_offset iter_res_offset : Z)
        (red_nd : nat) (reduction_shape_stride : list Z)
        (reduction_arg_offset : Z)
        (depends : list event) (max_sg : N) (m : memory Z) :
  max_element (sub_group_sizes (get_device exec_q)) = Some max_sg ->
  0 < max_sg ->
  sizes_fit iter_nelems reduction_nelems max_sg ->
  submitted_before exec_q depends ->
  (forall b, boolean_predicate_int32 convert_impl_bool argT_of_int32
                                     (bool_to_int32 b) = b) ->
  let in_out_iter_indexer :=
    TwoOffsets_StridedIndexer get_displacement iter_nd iter_arg_offset
                              iter_res_offset iter_shape_and_strides in
  let reduction_indexer :=
    StridedIndexer get_displacement red_nd reduction_arg_offset
                   reduction_shape_stride in
  (forall i j, i < iter_nelems -> j < iter_nelems ->
               snd (in_out_iter_indexer i) = snd (in_out_iter_indexer j) ->
               i = j) ->
  let launched :=
    StridedFactory_get get_displacement r exec_q iter_nelems reduction_nelems
                       arg_cp res_cp iter_nd iter_shape_and_strides
                       iter_arg_offset iter_res_offset
                       red_nd reduction_shape_stride reduction_arg_offset
                       depends in
  let elements id :=
    map (fun j => load mi (ptr_add arg_cp (fst (in_out_iter_indexer id)
                                           + reduction_indexer j)%Z))
        (iota reduction_nelems) in
  (exists m', outputs exec_q (fst launched) m m')
  /\ (forall m',
         outputs exec_q (fst launched) m m' ->
         (forall id, id < iter_nelems ->
            let slot :=
              load m' (ptr_add res_cp (snd (in_out_iter_indexer id))) in
            (slot = 0 \/ slot = 1)%Z
            /\ (slot = 1%Z
                <-> match r with
                    | all => Forall truthy (elements id)
                    | any => Exists truthy (elements id)
                    end))
         /\ (forall p, (forall id, id < iter_nelems ->
                          p <> ptr_add res_cp (snd (in_out_iter_indexer id))) ->
                       load m' p = load m p)
         /\ (iter_nelems = 0 -> forall p, load m' p = load m p))
  /\ (forall m1 m2,
         outputs exec_q (fst launched) m m1 ->
         outputs exec_q (fst launched) m m2 ->
         forall p, load m1 p = load m2 p).
Proof.
  intros Hmax Hpos [Hfit Hfit_all] Hdeps Hpred in_out_iter_indexer
         reduction_indexer Hinj launched elements.
  assert (Hspec : forall m',
             outputs exec_q (fst launched) m m' ->
             reduction_outputs convert_impl_bool (RedOpT r) mi arg_cp res_cp
                               (fun id => fst (in_out_iter_indexer id))
                               (fun id => snd (in_out_iter_indexer id))
                               reduction_indexer
                               iter_nelems reduction_nelems m m').
  { intros m' Hout.
    exact (strided_outputs_spec
             r exec_q iter_nelems reduction_nelems arg_cp res_cp
             iter_nd iter_shape_and_strides iter_arg_offset iter_res_offset
             red_nd reduction_shape_stride reduction_arg_offset depends
             max_sg m m' Hmax Hpos (conj Hfit Hfit_all) Hpred Hinj Hout). }
  split.
  { unfold launched. rewrite BooleanReductionTheorems.StridedFactory_get_eq.
    eapply strided_impl_runs; eassumption. }
  split.
  { intros m' Hout. destruct (Hspec m' Hout) as [Hslot Hframe].
    split; [|split].
    - intros id Hid slot. unfold slot. rewrite (Hslot id Hid).
      rewrite reference_elements, map_map.
      split; [apply bool_code_cases | apply reduce_spec_code].
    - exact Hframe.
    - intros -> p. apply Hframe. intros id Hid. lia. }
  intros m1 m2 H1 H2.
  exact (reduction_outputs_unique _ _ _ _ _ _ _ _ _ _ _ _ _ _
                                  (Hspec m1 H1) (Hspec m2 H2)).
Qed.

(** X16. On the layout of a C-contiguous array -- iteration index [id] at
    [id * reduction_nelems] in the input and at [id] in the output,
    reduction index [j] at [j] -- the strided launcher gives the output
    memory the contiguous launcher gives for the same call. *)
Theorem strided_launcher_on_contiguous_layout
        (r : reduction) (exec_q : queue reduction_work)
        (iter_nelems reduction_nelems : N)
        (arg_cp res_cp : pointer)
        (iter_nd : nat) (iter_shape_and_strides : list Z)
        (iter_arg_offset iter_res_offset : Z)
        (red_nd : nat) (reduction_shape_stride : list Z)
        (reduction_arg_offset : Z)
        (depends : list event) (max_sg : N) (m : memory Z) :
  max_element (sub_group_sizes (get_device exec_q)) = Some max_sg ->
  0 < max_sg ->
  sizes_fit iter_nelems reduction_nelems max_sg ->
  (forall b, boolean_predicate_int32 convert_impl_bool argT_of_int32
                                     (bool_to_int32 b) = b) ->
  (forall id, id < iter_nelems ->
              get_displacement iter_nd iter_shape_and_strides
                               (skipn iter_nd iter_shape_and_strides)
                               (Z.of_N id)
              = Z.of_N (id * reduction_nelems)) ->
  (forall id, id < iter_nelems ->
              get_displacement iter_nd iter_shape_and_strides
                               (skipn (2 * iter_nd) iter_shape_and_strides)
                               (Z.of_N id)
              = Z.of_N id) ->
  (forall j, j < reduction_nelems ->
             get_displacement red_nd reduction_shape_stride
                              (skipn red_nd reduction_shape_stride)
                              (Z.of_N j)
             = Z.of_N j) ->
  let contig :=
    ContigFactory_get r exec_q iter_nelems reduction_nelems arg_cp res_cp
                      iter_arg_offset iter_res_offset reduction_arg_offset
                      depends in
  let strided :=
    StridedFactory_get get_displacement r exec_q iter_nelems reduction_nelems
                       arg_cp res_cp iter_nd iter_shape_and_strides
                       iter_arg_offset iter_res_offset
                       red_nd reduction_shape_stride reduction_arg_offset
                       depends in
  forall mc ms,
    outputs exec_q (fst contig) m mc ->
    outputs exec_q (fst strided) m ms ->
    forall p, load mc p = load ms p.
Proof.
  intros Hmax Hpos [Hfit Hfit_all] Hpred Hiter_in Hiter_out Hred
         contig strided mc ms Hc Hs.
  set (arg_tp := ptr_add (ptr_add arg_cp iter_arg_offset)
                         reduction_arg_offset).
  set (res_tp := ptr_add res_cp iter_res_offset).
  assert (Hcs : reduction_outputs
                  convert_impl_bool (RedOpT r) mi arg_tp res_tp
                  (fun id => Z.of_N (id * reduction_nelems)) Z.of_N Z.of_N
                  iter_nelems reduction_nelems m mc).
  { unfold contig in Hc.
    rewrite BooleanReductionTheorems.ContigFactory_get_eq in Hc.
    eapply contig_impl_outputs; eassumption. }
  assert (Hinj : forall i j, i < iter_nelems -> j < iter_nelems ->
            snd (TwoOffsets_StridedIndexer
                   get_displacement iter_nd iter_arg_offset iter_res_offset
                   iter_shape_and_strides i)
            = snd (TwoOffsets_StridedIndexer
                     get_displacement iter_nd iter_arg_offset iter_res_offset
                     iter_shape_and_strides j) ->
            i = j).
  { intros i j Hi Hj. unfold TwoOffsets_StridedIndexer. cbn [fst snd].
    rewrite (Hiter_out i Hi), (Hiter_out j Hj). lia. }
  destruct (strided_outputs_spec
              r exec_q iter_nelems reduction_nelems arg_cp res_cp
              iter_nd iter_shape_and_strides iter_arg_offset iter_res_offset
              red_nd reduction_shape_stride reduction_arg_offset depends
              max_sg m ms Hmax Hpos (conj Hfit Hfit_all) Hpred Hinj Hs)
    as [Hslot Hframe].
  apply (reduction_outputs_unique _ _ _ _ _ _ _ _ _ _ _ _ _ _ Hcs).
  split.
  - intros id Hid. unfold res_tp. rewrite ptr_add_add.
    replace (iter_res_offset + Z.of_N id)%Z
      with (snd (TwoOffsets_StridedIndexer
                   get_displacement iter_nd iter_arg_offset iter_res_offset
                   iter_shape_and_strides id))
      by (unfold TwoOffsets_StridedIndexer; cbn [fst snd];
          rewrite (Hiter_out id Hid); reflexivity).
    rewrite (Hslot id Hid). unfold reference. f_equal.
    rewrite !reduce_spec_map. apply reduce_spec_ext_in.
    intros j Hj. apply In_iota in Hj. do 2 f_equal.
    unfold arg_tp. rewrite !ptr_add_add. f_equal.
    unfold TwoOffsets_StridedIndexer, StridedIndexer. cbn [fst snd].
    rewrite (Hiter_in id Hid), (Hred j Hj). lia.
  - intros p Hp. apply Hframe. intros id Hid.
    unfold TwoOffsets_StridedIndexer. cbn [fst snd]. rewrite (Hiter_out id Hid).
    rewrite <- ptr_add_add. apply Hp. exact Hid.
Qed.

End Launchers.

Section Waits.

Variable W : Type.
Variables q q' : queue W.
Variable depends : list event.

Let l := submitted q.

(** A command group submitted with [depends] runs after each of them. *)
Lemma waits_single (a : command_group W) (completed : nat)
      (order : list event) :
  submitted q' = l ++ [a] ->
  depends_on a = depends ->
  (completed <= length l)%nat ->
  valid_order q' completed order ->
  forall d, In d depends -> (completed <= d)%nat ->
            runs_before order d (length l).
Proof.
  intros Hsub Ha Hc [Hperm Hdeps] d Hd Hpending.
  apply (Hdeps (length l) a).
  - apply (Permutation_in _ (Permutation_sym Hperm)). apply in_seq.
    rewrite Hsub, length_app. cbn [length]. lia.
  - rewrite Hsub. apply nth_error_snoc.
  - rewrite Ha. exact Hd.
  - exact Hpending.
Qed.

(** Two command groups, the second waiting for the first: the second runs
    after the first, and after everything the first waits for. *)
Lemma waits_pair (a b : command_group W) (completed : nat)
      (order : list event) :
  submitted q' = (l ++ [a]) ++ [b] ->
  depends_on a = depends ->
  depends_on b = [length l] ->
  (completed <= length l)%nat ->
  valid_order q' completed order ->
  runs_before order (length l) (S (length l))
  /\ forall d, In d depends -> (completed <= d)%nat ->
               runs_before order d (length l)
               /\ runs_before order d (S (length l)).
Proof.
  intros Hsub Ha Hb Hc [Hperm Hdeps].
  assert (Hlen : length (l ++ [a]) = S (length l))
    by (rewrite length_app; cbn [length]; lia).
  assert (Hin : forall e, (length l <= e < 2 + length l)%nat -> In e order).
  { intros e He. apply (Permutation_in _ (Permutation_sym Hperm)).
    apply in_seq. rewrite Hsub, length_app, Hlen. cbn [length]. lia. }
  assert (H12 : runs_before order (length l) (S (length l))).
  { apply (Hdeps (S (length l)) b).
    - apply Hin. lia.
    - rewrite Hsub, <- Hlen. apply nth_error_snoc.
    - rewrite Hb. now left.
    - exact Hc. }
  split; [exact H12|].
  intros d Hd Hpending.
  assert (H01 : runs_before order d (length l)).
  { apply (Hdeps (length l) a).
    - apply Hin. lia.
    - rewrite Hsub, nth_error_app1 by lia. apply nth_error_snoc.
    - rewrite Ha. exact Hd.
    - exact Hpending. }
  split; [exact H01|].
  exact (runs_before_trans _ _ _ _ H01 H12).
Qed.

End Waits.

Section Chain.

Local Open Scope N_scope.

Variable get_displacement : nat -> list Z -> list Z -> Z -> Z.

(** X17. Both reduction launchers return the event of the last command
    group they submit, and it is ordered after the caller's events: in
    every order of execution the dependencies allow, each event of
    [depends] that has not completed runs before the command group of the
    returned event.  (In the large path through the initialisation
    kernel, which alone is submitted with [depends].) *)
Theorem reduction_launchers_wait_for_depends
        (r : reduction) (exec_q : queue reduction_work)
        (iter_nelems reduction_nelems : N)
        (arg_cp res_cp : pointer)
        (iter_nd : nat) (iter_shape_and_strides : list Z)
        (iter_arg_offset iter_res_offset : Z)
        (red_nd : nat) (reduction_shape_stride : list Z)
        (reduction_arg_offset : Z)
        (depends : list event) (max_sg : N) :
  max_element (sub_group_sizes (get_device exec_q)) = Some max_sg ->
  0 < max_sg ->
  sizes_fit iter_nelems reduction_nelems max_sg ->
  let contig :=
    ContigFactory_get r exec_q iter_nelems reduction_nelems arg_cp res_cp
                      iter_arg_offset iter_res_offset reduction_arg_offset
                      depends in
  let strided :=
    StridedFactory_get get_displacement r exec_q iter_nelems reduction_nelems
                       arg_cp res_cp iter_nd iter_shape_and_strides
                       iter_arg_offset iter_res_offset
                       red_nd reduction_shape_stride reduction_arg_offset
                       depends in
  forall launched,
    launched = contig \/ launched = strided ->
    exists red_ev,
      snd launched = Returned red_ev
      /\ length (submitted (fst launched)) = S red_ev
      /\ (length (submitted exec_q) <= red_ev)%nat
      /\ (reduction_nelems < 4 * max_sg ->
          red_ev = length (submitted exec_q))
      /\ (4 * max_sg <= reduction_nelems ->
          red_ev = S (length (submitted exec_q)))
      /\ forall completed order,
          (completed <= length (submitted exec_q))%nat ->
          valid_order (fst launched) completed order ->
          forall d, In d depends -> (completed <= d)%nat ->
                    runs_before order d red_ev.
Proof.
  intros Hmax Hpos [Hfit Hfit_all] contig strided launched Hl.
  assert (Hshape :
            (reduction_nelems < 4 * max_sg /\
             exists a,
               launched
               = ({| get_device := get_device exec_q;
                     submitted := submitted exec_q ++ [a] |},
                  Returned (length (submitted exec_q)))
               /\ depends_on a = depends)
            \/ (4 * max_sg <= reduction_nelems /\
                exists a b,
                  launched
                  = ({| get_device := get_device exec_q;
                        submitted := (submitted exec_q ++ [a]) ++ [b] |},
                     Returned (S (length (submitted exec_q))))
                  /\ depends_on a = depends
                  /\ depends_on b = [length (submitted exec_q)])).
  { destruct (N.lt_ge_cases reduction_nelems (4 * max_sg)) as [Hlt | Hge];
      [left | right]; (split; [assumption|]);
      destruct Hl as [-> | ->]; unfold contig, strided.
    - rewrite BooleanReductionTheorems.ContigFactory_get_eq.
      erewrite contig_impl_small by eassumption.
      eexists. split; reflexivity.
    - rewrite BooleanReductionTheorems.StridedFactory_get_eq.
      erewrite strided_impl_small by eassumption.
      eexists. split; reflexivity.
    - rewrite BooleanReductionTheorems.ContigFactory_get_eq.
      erewrite contig_impl_large by eassumption.
      eexists _, _. split; [reflexivity|]. split; reflexivity.
    - rewrite BooleanReductionTheorems.StridedFactory_get_eq.
      erewrite strided_impl_large by eassumption.
      eexists _, _. split; [reflexivity|]. split; reflexivity. }
  destruct Hshape as [(Hlt & a & -> & Ha) | (Hge & a & b & -> & Ha & Hb)];
    cbn [fst snd submitted].
  - exists (length (submitted exec_q)).
    split; [reflexivity|].
    split; [rewrite length_app; cbn [length]; lia|].
    split; [lia|]. split; [reflexivity|]. split; [lia|].
    intros completed order Hc Horder d Hd Hpending.
    exact (waits_single
             _ exec_q
             {| get_device := get_device exec_q;
                submitted := submitted exec_q ++ [a] |}
             depends a completed order
             eq_refl Ha Hc Horder d Hd Hpending).
  - exists (S (length (submitted exec_q))).
    split; [reflexivity|].
    split; [rewrite !length_app; cbn [length]; lia|].
    split; [lia|]. split; [lia|]. split; [reflexivity|].
    intros completed order Hc Horder d Hd Hpending.
    destruct (waits_pair
                _ exec_q
                {| get_device := get_device exec_q;
                   submitted := (submitted exec_q ++ [a]) ++ [b] |}
                depends a b completed order
                eq_refl Ha Hb Hc Horder) as [_ H].
    exact (proj2 (H d Hd Hpending)).
Qed.

(** X18. In the large path one work-group per row is launched exactly
    when the axis has at most [4 * wg] elements: up to there each
    work-item reduces [ceil (reduction_nelems / wg)] elements, one when
    [reduction_nelems = wg], and fewer than [wg] of the indices
    of the group are past the end of the row; beyond, each reduces 4 and
    the rows are split over [ceil (reduction_nelems / (4 * wg))] >= 2
    groups, which then meet in the atomic update. *)
Theorem one_work_group_up_to_four_wg (reduction_nelems wg : N) :
  0 < wg ->
  wg <= reduction_nelems ->
  reduction_nelems + 4 * wg < size_t_modulus ->
  let rpw := reductions_per_wi_of reduction_nelems wg in
  exists groups,
    reduction_groups_of reduction_nelems rpw wg = Some groups
    /\ (groups = 1 <-> reduction_nelems <= 4 * wg)
    /\ (reduction_nelems <= 4 * wg ->
        rpw = ceil_div reduction_nelems wg
        /\ reduction_nelems <= rpw * wg < reduction_nelems + wg)
    /\ (reduction_nelems = wg -> rpw = 1)
    /\ (4 * wg < reduction_nelems ->
        rpw = 4 /\ groups = ceil_div reduction_nelems (4 * wg)
        /\ 2 <= groups).
Proof.
  intros Hwg Hge Hfit rpw.
  pose proof (reductions_per_wi_of_min reduction_nelems wg Hwg Hge Hfit)
    as Hmin.
  pose proof (reduction_groups_of_ceil reduction_nelems wg Hwg Hge Hfit)
    as Hgroups.
  destruct (reduction_groups_cover reduction_nelems wg Hwg Hge Hfit)
    as (Hcov1 & Hcov2 & Hcov3 & _).
  destruct (ceil_div_bounds reduction_nelems wg Hwg) as [Hc1 Hc2].
  specialize (Hc2 ltac:(lia)).
  cbv zeta in Hgroups, Hcov1, Hcov2, Hcov3. fold rpw in Hmin, Hgroups, Hcov1, Hcov2, Hcov3.
  set (c := ceil_div reduction_nelems wg) in *.
  set (groups := ceil_div reduction_nelems (rpw * wg)) in *.
  exists groups. split; [exact Hgroups|].
  assert (Hc_pos : 1 <= c).
  { destruct (N.eq_dec c 0) as [H0|]; [rewrite H0 in Hc1; lia | lia]. }
  assert (Hsmall : reduction_nelems <= 4 * wg -> rpw = c /\ groups = 1).
  { intros Hle.
    assert (Hc4 : c <= 4).
    { destruct (N.le_gt_cases c 4) as [|Hgt]; [assumption|].
      assert (4 * wg <= (c - 1) * wg) by (apply N.mul_le_mono_r; lia).
      lia. }
    assert (Hrpw : rpw = c) by lia.
    split; [exact Hrpw|].
    unfold groups. rewrite Hrpw.
    apply ceil_div_unique; [nia | lia | simpl; lia]. }
  assert (Hbig : 4 * wg < reduction_nelems -> rpw = 4 /\ 2 <= groups).
  { intros Hgt.
    assert (Hc5 : 5 <= c).
    { destruct (N.le_gt_cases 5 c) as [|Hlt]; [assumption|].
      assert (c * wg <= 4 * wg) by (apply N.mul_le_mono_r; lia).
      lia. }
    assert (Hrpw : rpw = 4) by lia.
    split; [exact Hrpw|].
    destruct (N.le_gt_cases 2 groups) as [|Hlt]; [assumption|].
    assert (groups * (rpw * wg) <= 1 * (rpw * wg))
      by (apply N.mul_le_mono_r; lia).
    rewrite Hrpw in *. lia. }
  split.
  { split.
    - intros H1. destruct (N.le_gt_cases reduction_nelems (4 * wg)) as [|Hgt];
        [assumption|].
      destruct (Hbig Hgt) as [_ H2]. lia.
    - intros Hle. exact (proj2 (Hsmall Hle)). }
  split.
  { intros Hle. destruct (Hsmall Hle) as [Hrpw _].
    split; [exact Hrpw|]. rewrite Hrpw.
    replace ((c - 1) * wg) with (c * wg - wg) in Hc2 by nia. nia. }
  split.
  { intros Heq. destruct (Hsmall ltac:(lia)) as [Hrpw _]. rewrite Hrpw.
    unfold c. apply ceil_div_unique; [exact Hwg | lia | simpl; lia]. }
  intros Hgt. destruct (Hbig Hgt) as [Hrpw H2].
  split; [exact Hrpw|]. split; [|exact H2].
  unfold groups. rewrite Hrpw. reflexivity.
Qed.

End Chain.

End BooleanReductionFurther.

(* ------------------------------------------------------------------------- *)
(** ** The further properties on concrete inputs *)

Module FurtherWitnesses.
Import Sycl SyclFacts MultiplyBroadcast BooleanReductions.
Import BooleanReductionSpec FurtherSpec Examples FurtherExamples.
Import PathFacts MultiplyBroadcastFurther BooleanReductionFurther.

(** A 2 x 3 matrix: one group of 64 work-items. *)
Lemma broadcast_compute_grid_witness :
  exists n_groups padded_vec,
    nth_error
      (submitted
         (exec_q (fst (multiply_contig_matrix_contig_row_broadcast_impl
                         malloc_ok (idle_state 16) 2 3
                         arg_cp 0 vec_cp 0 res_cp 0 []))))
      1
    = Some {| depends_on := [0%nat];
              cg_work :=
                multiply_matrix_row_broadcast_sg_krn
                  (n_groups * 64)%N 64%N (ptr_add arg_cp 0) padded_vec
                  (ptr_add res_cp 0) 6%N 3%N |}
    /\ n_groups = 1%N.
Proof.
  destruct (broadcast_compute_grid
              malloc_ok (idle_state 16) 2 3 arg_cp vec_cp res_cp 0 0 0 []
              (fst (multiply_contig_matrix_contig_row_broadcast_impl
                      malloc_ok (idle_state 16) 2 3
                      arg_cp 0 vec_cp 0 res_cp 0 []))
              1%nat eq_refl eq_refl)
    as (n_groups & padded_vec & H1 & _ & H2 & H3 & _).
  exists n_groups, padded_vec. split; [exact H1|].
  change (2 * 3)%N with 6%N in H2, H3. lia.
Defined.

(** A call that waits for the command group submitted earlier (event 0):
    the four run in the order of their submission. *)
Lemma broadcast_chain_witness :
  valid_order
    (exec_q (fst (multiply_contig_matrix_contig_row_broadcast_impl
                    malloc_ok (busy_state 16) 2 3
                    arg_cp 0 vec_cp 0 res_cp 0 [0%nat])))
    0 [0; 1; 2; 3]%nat
  /\ runs_before [0; 1; 2; 3]%nat 0%nat 1%nat
  /\ runs_before [0; 1; 2; 3]%nat 0%nat 3%nat.
Proof.
  assert (Horder :
            valid_order
              (exec_q (fst (multiply_contig_matrix_contig_row_broadcast_impl
                              malloc_ok (busy_state 16) 2 3
                              arg_cp 0 vec_cp 0 res_cp 0 [0%nat])))
              0 [0; 1; 2; 3]%nat).
  { split.
    - apply Permutation_refl.
    - intros e cg He Hcg d Hd _.
      destruct He as [<- | [<- | [<- | [<- | []]]]]; simpl in Hcg;
        injection Hcg as <-; simpl in Hd.
      + destruct Hd.
      + destruct Hd as [<- | []]. exists 0%nat, 1%nat. simpl. auto.
      + destruct Hd as [<- | []]. exists 1%nat, 2%nat. simpl. auto.
      + destruct Hd as [<- | []]. exists 2%nat, 3%nat. simpl. auto. }
  split; [exact Horder|].
  destruct (broadcast_chain
              malloc_ok (busy_state 16) 2 3 arg_cp vec_cp res_cp 0 0 0
              [0%nat]
              (fst (multiply_contig_matrix_contig_row_broadcast_impl
                      malloc_ok (busy_state 16) 2 3
                      arg_cp 0 vec_cp 0 res_cp 0 [0%nat]))
              2%nat eq_refl)
    as (_ & _ & Hchain).
  destruct (Hchain 0%nat [0; 1; 2; 3]%nat (le_0_n _) Horder)
    as (_ & _ & _ & Hdeps).
  destruct (Hdeps 0%nat (or_introl eq_refl) (le_0_n _)) as (H1 & _ & H3).
  split; [exact H1 | exact H3].
Defined.

(** The row-matrix launcher called with a row of 3 elements and a 2 x 3
    matrix pads the row to 19 elements. *)
Lemma row_matrix_launcher_pads_the_row_witness :
  exists st' fill compute gws,
    multiply_contig_row_contig_matrix_broadcast_impl
      malloc_ok (idle_state 16) 2 3 vec_cp 0 arg_cp 0 res_cp 0 []
    = (st', Returned 1%nat)
    /\ cg_work fill
       = make_padded_vec_krn 19 scratch (ptr_add vec_cp 0) 3
    /\ cg_work compute
       = multiply_matrix_row_broadcast_sg_krn
           gws 64 (ptr_add arg_cp 0) scratch (ptr_add res_cp 0) 6 3.
Proof.
  destruct (row_matrix_launcher_pads_the_row
              malloc_ok (idle_state 16) 2 3 arg_cp vec_cp res_cp 0 0 0 []
              Z 16%N scratch)
    as (st' & fill & compute & cleanup & gws & H1 & _ & H2 & H3 & _).
  - reflexivity.
  - reflexivity.
  - reflexivity.
  - reflexivity.
  - simpl. discriminate.
  - exists st', fill, compute, gws.
    split; [exact H1|]. split; [exact H2 | exact H3].
Defined.

(** A row of 3 elements padded to 5: element 4 repeats element 1. *)
Lemma fill_kernel_wraps_the_row_witness :
  load (parallel_for (iota 5) (make_padded_vec_body scratch vec_cp 3) input)
       (ptr_add scratch 4)
  = load (parallel_for (iota 5) (make_padded_vec_body scratch vec_cp 3) input)
         (ptr_add scratch 1).
Proof.
  set (m' := parallel_for (iota 5) (make_padded_vec_body scratch vec_cp 3)
                          input).
  assert (Hres : make_padded_vec_result
                   (make_padded_vec_krn 5 scratch vec_cp 3) input m').
  { exists (iota 5). split; [apply Permutation_refl | reflexivity]. }
  assert (Hfresh : block scratch <> block vec_cp) by (simpl; discriminate).
  destruct (fill_kernel_wraps_the_row
              Z scratch vec_cp 5 3 input m' Hfresh eq_refl Hres)
    as (_ & _ & Hwrap).
  apply (Hwrap 4%N). lia.
Defined.


(** Two rows of two elements, [0 0] and [0 5]: [any] stores 1 in slot 1. *)
Lemma contig_launcher_computes_all_any_witness :
  exists m',
    launch_outputs
      convert_int32 int32_of_int32 input (idle_queue reduction_work 8)
      (fst (ContigFactory_get any (idle_queue reduction_work 8)
                              2 2 arg_cp res_cp 0 0 0 []))
      output m'
    /\ load m' (ptr_add (ptr_add res_cp 0) 1) = 1%Z.
Proof.
  destruct (contig_launcher_computes_all_any
              Z convert_int32 int32_of_int32 input
              any (idle_queue reduction_work 8) 2 2 arg_cp res_cp 0 0 0
              [] 8%N output)
    as ([m' Hm'] & Hspec & _).
  - reflexivity.
  - reflexivity.
  - split; reflexivity.
  - constructor.
  - exists m'. split; [exact Hm'|].
    destruct (Hspec m' Hm') as (Hslot & _).
    apply (proj2 (Hslot 1%N eq_refl)).
    apply Exists_cons_tl, Exists_cons_hd. reflexivity.
Defined.

(** The same rows through the strided launcher: [all] does not store 1 in
    slot 1. *)
Lemma strided_launcher_computes_all_any_witness :
  exists m',
    launch_outputs
      convert_int32 int32_of_int32 input (idle_queue reduction_work 8)
      (fst (StridedFactory_get displacement_1d all
                               (idle_queue reduction_work 8)
                               2 2 arg_cp res_cp 1%nat [2; 2; 1]%Z 0 0
                               1%nat [2; 1]%Z 0 []))
      output m'
    /\ load m' (ptr_add res_cp 1) = 0%Z.
Proof.
  destruct (strided_launcher_computes_all_any
              Z convert_int32 int32_of_int32 displacement_1d input
              all (idle_queue reduction_work 8) 2 2 arg_cp res_cp
              1%nat [2; 2; 1]%Z 0 0 1%nat [2; 1]%Z 0 [] 8%N output)
    as ([m' Hm'] & Hspec & _).
  - reflexivity.
  - reflexivity.
  - split; reflexivity.
  - constructor.
  - intros []; reflexivity.
  - intros i j _ _ Hij.
    unfold TwoOffsets_StridedIndexer, displacement_1d in Hij. simpl in Hij.
    lia.
  - exists m'. split; [exact Hm'|].
    destruct (Hspec m' Hm') as (Hslot & _).
    destruct (Hslot 1%N eq_refl) as [[H0 | H1] Hiff].
    + exact H0.
    + apply Hiff in H1. inversion H1 as [|x l Hx Hl]. discriminate Hx.
Defined.

(** Two rows of two elements laid out contiguously: the two launchers
    give the same slots. *)
Lemma strided_launcher_on_contiguous_layout_witness :
  exists mc ms,
    launch_outputs
      convert_int32 int32_of_int32 input (idle_queue reduction_work 8)
      (fst (ContigFactory_get any (idle_queue reduction_work 8)
                              2 2 arg_cp res_cp 0 0 0 []))
      output mc
    /\ launch_outputs
         convert_int32 int32_of_int32 input (idle_queue reduction_work 8)
         (fst (StridedFactory_get displacement_1d any
                                  (idle_queue reduction_work 8)
                                  2 2 arg_cp res_cp 1%nat [2; 2; 1]%Z 0 0
                                  1%nat [2; 1]%Z 0 []))
         output ms
    /\ load mc (ptr_add res_cp 1) = load ms (ptr_add res_cp 1).
Proof.
  destruct (contig_impl_runs
              Z convert_int32 int32_of_int32 input any
              (idle_queue reduction_work 8) 2 2 arg_cp res_cp 0 0 0 []
              8%N eq_refl eq_refl eq_refl eq_refl output (Forall_nil _))
    as [mc Hc].
  destruct (strided_impl_runs
              Z convert_int32 int32_of_int32 displacement_1d input any
              (idle_queue reduction_work 8) 2 2 arg_cp res_cp
              1%nat [2; 2; 1]%Z 0 0 1%nat [2; 1]%Z 0 []
              8%N eq_refl eq_refl eq_refl output (Forall_nil _))
    as [ms Hs].
  exists mc, ms.
  split; [exact Hc|]. split; [exact Hs|].
  apply (strided_launcher_on_contiguous_layout
           Z convert_int32 int32_of_int32 displacement_1d input
           any (idle_queue reduction_work 8) 2 2 arg_cp res_cp
           1%nat [2; 2; 1]%Z 0 0 1%nat [2; 1]%Z 0 [] 8%N output).
  - reflexivity.
  - reflexivity.
  - split; reflexivity.
  - intros []; reflexivity.
  - intros id Hid. unfold displacement_1d. simpl. lia.
  - intros id Hid. unfold displacement_1d. simpl. lia.
  - intros j Hj. unfold displacement_1d. simpl. lia.
  - exact Hc.
  - exact Hs.
Defined.

(** A reduction over nine elements on a device with sub-groups of 1,
    waiting for the kernel submitted earlier (event 0): the work-group
    kernel (event 2) runs after it. *)
Lemma reduction_launchers_wait_for_depends_witness :
  valid_order
    (fst (ContigFactory_get all (busy_reduction_queue 1)
                            2 9 arg_cp res_cp 0 0 0 [0%nat]))
    0 [0; 1; 2]%nat
  /\ snd (ContigFactory_get all (busy_reduction_queue 1)
                            2 9 arg_cp res_cp 0 0 0 [0%nat])
     = Returned 2%nat
  /\ runs_before [0; 1; 2]%nat 0%nat 2%nat.
Proof.
  assert (Horder :
            valid_order
              (fst (ContigFactory_get all (busy_reduction_queue 1)
                                      2 9 arg_cp res_cp 0 0 0 [0%nat]))
              0 [0; 1; 2]%nat).
  { split.
    - apply Permutation_refl.
    - intros e cg He Hcg d Hd _.
      destruct He as [<- | [<- | [<- | []]]]; simpl in Hcg;
        injection Hcg as <-; simpl in Hd.
      + destruct Hd.
      + destruct Hd as [<- | []]. exists 0%nat, 1%nat. simpl. auto.
      + destruct Hd as [<- | []]. exists 1%nat, 2%nat. simpl. auto. }
  split; [exact Horder|].
  destruct (reduction_launchers_wait_for_depends
              displacement_1d all (busy_reduction_queue 1) 2 9
              arg_cp res_cp 1%nat [2; 9; 1]%Z 0 0 1%nat [9; 1]%Z 0
              [0%nat] 1%N eq_refl eq_refl (conj eq_refl eq_refl)
              (ContigFactory_get all (busy_reduction_queue 1)
                                 2 9 arg_cp res_cp 0 0 0 [0%nat])
              (or_introl eq_refl))
    as (red_ev & Hev & _ & _ & _ & Hlarge & Hwaits).
  rewrite (Hlarge ltac:(discriminate)) in Hev, Hwaits.
  split; [exact Hev|].
  exact (Hwaits 0%nat [0; 1; 2]%nat (le_0_n _) Horder
                0%nat (or_introl eq_refl) (le_0_n _)).
Defined.

(** Work-groups of four: one group for 16 elements, two for 17. *)
Lemma one_work_group_up_to_four_wg_witness :
  reduction_groups_of 16 (reductions_per_wi_of 16 4) 4 = Some 1%N
  /\ reductions_per_wi_of 16 4 = 4%N.
Proof.
  destruct (one_work_group_up_to_four_wg 16 4)
    as (groups & Hg & Hone & Hsmall & _).
  - reflexivity.
  - discriminate.
  - reflexivity.
  - split.
    + rewrite Hg. f_equal. apply Hone. discriminate.
    + exact (proj1 (Hsmall ltac:(discriminate))).
Defined.

End FurtherWitnesses.
